(** * Dense visual odometry tracker: host controller of [tracker.hpp]

    A shallow embedding of the class [Tracker] (constructor, [align] and the
    private helpers it calls) together with the properties of its
    coarse-to-fine control loop.

    Conventions of the embedding.
    - C++ [float] is IEEE binary32, modelled by [spec_float] with the
      operations of [SpecFloat] at precision 24; [double] literals and the
      usual promotion of [float] to [double] in mixed comparisons are
      modelled at precision 53.
    - C++ [int] is modelled by [Z]; signed overflow is undefined behaviour in
      C++ and lies outside the model.
    - Device buffers are modelled by their contents ([list float]).  Every
      kernel receives the previous contents of the buffers it writes, so no
      assumption is made that a kernel overwrites all of its output.
    - Kernels, Lie-algebra helpers, Eigen and cuBLAS routines are declared in
      headers that are not part of [tracker.hpp]; they are the fields of the
      class [External].
    - A computation returns [None] when the C++ execution has no normal,
      defined result: an out-of-range vector index, a shift [1 << level]
      outside [0..30], an exception, or a reduction loop that never reaches
      its exit test. *)

From Stdlib Require Import ZArith List Bool Lia QArith.
From Stdlib Require Import SpecFloat.
From stdpp Require Import base option list.

Local Open Scope Z_scope.

(** ** Single and double precision numbers *)

Module Float.

Definition float : Type := spec_float.
Definition double : Type := spec_float.

Definition prec32 : Z := 24.
Definition emax32 : Z := 128.
Definition prec64 : Z := 53.
Definition emax64 : Z := 1024.

Definition fdiv : float -> float -> float := SFdiv prec32 emax32.
Definition fsub : float -> float -> float := SFsub prec32 emax32.
Definition fadd : float -> float -> float := SFadd prec32 emax32.
Definition fmul : float -> float -> float := SFmul prec32 emax32.
Definition fabs : float -> float := SFabs.
Definition fopp : float -> float := SFopp.

(** [(float) n] for an [int] [n]. *)
Definition float_of_int (n : Z) : float :=
  binary_normalize prec32 emax32 n 0 false.

Definition fzero : float := S754_zero false.
Definition fone : float := float_of_int 1.

(** Promotion of a [float] to [double]; it is exact. *)
Definition double_of_float (x : float) : double :=
  match x with
  | S754_finite s m e =>
      binary_normalize prec64 emax64 (cond_Zopp s (Zpos m)) e s
  | _ => x
  end.

(** The [double] nearest to the decimal [p / q], for integers [p], [q]
    that are themselves doubles: a correctly rounded quotient. *)
Definition double_of_decimal (p q : Z) : double :=
  SFdiv prec64 emax64 (binary_normalize prec64 emax64 p 0 false)
                      (binary_normalize prec64 emax64 q 0 false).

(** C++ comparisons; every comparison with a NaN is false. *)
Definition fgt (x y : spec_float) : bool := SFltb y x.
Definition flt (x y : spec_float) : bool := SFltb x y.
Definition feq (x y : spec_float) : bool := SFeqb x y.

Definition is_nan (x : spec_float) : bool :=
  match x with S754_nan => true | _ => false end.

Definition infinity : float := S754_infinity false.

(** [std::numeric_limits<float>::max()] *)
Definition FLT_MAX : float := S754_finite false 16777215 104.

(** The value of a finite number as a rational. *)
Definition to_Q (x : spec_float) : option Q :=
  match x with
  | S754_zero _ => Some 0%Q
  | S754_finite s m e =>
      let v := if (0 <=? e)%Z then inject_Z (Zpos m * 2 ^ e)
               else (Zpos m # Z.to_pos (2 ^ (- e)))%Q in
      Some (if s then Qopp v else v)
  | _ => None
  end.

End Float.
Export Float.

(** ** Host and device data *)

(** Eigen fixed-size matrices and vectors are dense arrays of [float] in
    column-major order; device arrays and host images are arrays of
    [float]. *)
Abbreviation Buf := (list float).
Abbreviation Vector3f := (list float).
Abbreviation Vector6f := (list float).
Abbreviation Matrix3f := (list float).
Abbreviation Matrix4f := (list float).
Abbreviation Matrix6f := (list float).

(** [enum SolvingMethod] *)
Inductive SolvingMethod : Type :=
  | GAUSS_NEWTON
  | LEVENBERG_MARQUARDT
  | GRADIENT_DESCENT.

(** [struct PyramidLevel { float *gray, *depth, *gray_dx, *gray_dy; }]:
    the four rasters of one level, by contents. *)
Record PyramidLevel : Type := mkPyramidLevel {
  gray : Buf;
  depth : Buf;
  gray_dx : Buf;
  gray_dy : Buf
}.

(** CUDA launch geometry. *)
Record dim3 : Type := Dim3 { dim_x : Z; dim_y : Z; dim_z : Z }.
Record Launch : Type := mkLaunch {
  grid : dim3;
  block : dim3;
  shared_bytes : Z
}.

(** A texture reference of [alignment.cuh] with its parameters and, when
    bound, the raster it samples with its width, height and pitch. *)
Inductive FilterMode : Type := cudaFilterModePoint | cudaFilterModeLinear.

Record Texture : Type := mkTexture {
  normalized : bool;
  filterMode : FilterMode;
  bound : option (Buf * Z * Z * Z)
}.

(** Device state that kernels reach without an argument: the constant
    memory symbols and the three texture references. *)
Record Globals : Type := mkGlobals {
  const_K_pyr : Buf;
  const_RK_inv : Buf;
  const_translation : Buf;
  texRef_grayImg : Texture;
  texRef_gray_dx : Texture;
  texRef_gray_dy : Texture
}.

(** The device runtime calls that reserve and release memory, in program
    order. *)
Inductive CudaCall : Type :=
  | cudaMalloc (bytes : Z)
  | cudaFree.

Definition is_malloc (c : CudaCall) : bool :=
  match c with cudaMalloc _ => true | cudaFree => false end.

(** The three allocations that the members [d_b], [d_pre_b] and
    [d_pre_b_aux] can designate.  [calculate_b] redirects and swaps these
    pointers, so they are kept as pointers. *)
Inductive BPtr : Type := Alloc_b | Alloc_pre_b | Alloc_pre_b_aux.

Inductive cublasOperation : Type := CUBLAS_OP_N | CUBLAS_OP_T.

(** ** Device memory and the tracker object *)

(** Contents of the device allocations owned by the tracker, the device
    globals, and the history of allocation calls.  [d_b], [alloc_pre_b] and
    [alloc_pre_b_aux] are the three allocations of type [BPtr]; [d_pre_A] and
    [d_pre_A_aux] always designate two distinct allocations, so exchanging
    the two pointers is modelled by exchanging the contents. *)
Record Device : Type := mkDevice {
  d_x_prime : Buf;
  d_y_prime : Buf;
  d_z_prime : Buf;
  d_u_warped : Buf;
  d_v_warped : Buf;
  d_J : Buf;
  d_JTW : Buf;
  d_W : Buf;
  d_r : Buf;
  d_b : Buf;
  d_A : Buf;
  d_error : Buf;
  alloc_pre_b : Buf;
  alloc_pre_b_aux : Buf;
  d_pre_A : Buf;
  d_pre_A_aux : Buf;
  globals : Globals;
  calls : list CudaCall
}.

(** The members of [class Tracker].  [d_cur] and [d_prev] hold one record
    of four device pointers per level; the pointers of the two vectors
    designate disjoint allocations, so each vector is modelled by the
    contents its pointers designate.  Members that are only written
    ([devID], [props], [streams], [handle], [stat], [temp_swap]) are left
    out, and so are the constants [alpha = 1], [beta = 0]. *)
Record Tracker : Type := mkTracker {
  solvingMethod : SolvingMethod;
  maxIterationsPerLevel : Z;
  maxLevel : Z;
  minLevel : Z;
  width : Z;
  height : Z;
  useTDistWeights : bool;
  A : Matrix6f;
  b : Vector6f;
  error : float;
  d_cur : list PyramidLevel;
  d_prev : list PyramidLevel;
  d_pre_b : BPtr;
  d_pre_b_aux : BPtr;
  R : Matrix3f;
  RK_inv : Matrix3f;
  t : Vector3f;
  K_pyr : list Matrix3f;
  K_inv_pyr : list Matrix3f;
  xi_delta : Vector6f;
  xi : Vector6f;
  xi_total : Vector6f;
  dev : Device
}.

(** Assignment to one member. *)
Definition set_d_x_prime (v : Buf) (s : Device) : Device :=
  mkDevice v (d_y_prime s) (d_z_prime s) (d_u_warped s) (d_v_warped s) (d_J s) (d_JTW s) (d_W s) (d_r s) (d_b s) (d_A s) (d_error s) (alloc_pre_b s) (alloc_pre_b_aux s) (d_pre_A s) (d_pre_A_aux s) (globals s) (calls s).
Definition set_d_y_prime (v : Buf) (s : Device) : Device :=
  mkDevice (d_x_prime s) v (d_z_prime s) (d_u_warped s) (d_v_warped s) (d_J s) (d_JTW s) (d_W s) (d_r s) (d_b s) (d_A s) (d_error s) (alloc_pre_b s) (alloc_pre_b_aux s) (d_pre_A s) (d_pre_A_aux s) (globals s) (calls s).
Definition set_d_z_prime (v : Buf) (s : Device) : Device :=
  mkDevice (d_x_prime s) (d_y_prime s) v (d_u_warped s) (d_v_warped s) (d_J s) (d_JTW s) (d_W s) (d_r s) (d_b s) (d_A s) (d_error s) (alloc_pre_b s) (alloc_pre_b_aux s) (d_pre_A s) (d_pre_A_aux s) (globals s) (calls s).
Definition set_d_u_warped (v : Buf) (s : Device) : Device :=
  mkDevice (d_x_prime s) (d_y_prime s) (d_z_prime s) v (d_v_warped s) (d_J s) (d_JTW s) (d_W s) (d_r s) (d_b s) (d_A s) (d_error s) (alloc_pre_b s) (alloc_pre_b_aux s) (d_pre_A s) (d_pre_A_aux s) (globals s) (calls s).
Definition set_d_v_warped (v : Buf) (s : Device) : Device :=
  mkDevice (d_x_prime s) (d_y_prime s) (d_z_prime s) (d_u_warped s) v (d_J s) (d_JTW s) (d_W s) (d_r s) (d_b s) (d_A s) (d_error s) (alloc_pre_b s) (alloc_pre_b_aux s) (d_pre_A s) (d_pre_A_aux s) (globals s) (calls s).
Definition set_d_J (v : Buf) (s : Device) : Device :=
  mkDevice (d_x_prime s) (d_y_prime s) (d_z_prime s) (d_u_warped s) (d_v_warped s) v (d_JTW s) (d_W s) (d_r s) (d_b s) (d_A s) (d_error s) (alloc_pre_b s) (alloc_pre_b_aux s) (d_pre_A s) (d_pre_A_aux s) (globals s) (calls s).
Definition set_d_JTW (v : Buf) (s : Device) : Device :=
  mkDevice (d_x_prime s) (d_y_prime s) (d_z_prime s) (d_u_warped s) (d_v_warped s) (d_J s) v (d_W s) (d_r s) (d_b s) (d_A s) (d_error s) (alloc_pre_b s) (alloc_pre_b_aux s) (d_pre_A s) (d_pre_A_aux s) (globals s) (calls s).
Definition set_d_W (v : Buf) (s : Device) : Device :=
  mkDevice (d_x_prime s) (d_y_prime s) (d_z_prime s) (d_u_warped s) (d_v_warped s) (d_J s) (d_JTW s) v (d_r s) (d_b s) (d_A s) (d_error s) (alloc_pre_b s) (alloc_pre_b_aux s) (d_pre_A s) (d_pre_A_aux s) (globals s) (calls s).
Definition set_d_r (v : Buf) (s : Device) : Device :=
  mkDevice (d_x_prime s) (d_y_prime s) (d_z_prime s) (d_u_warped s) (d_v_warped s) (d_J s) (d_JTW s) (d_W s) v (d_b s) (d_A s) (d_error s) (alloc_pre_b s) (alloc_pre_b_aux s) (d_pre_A s) (d_pre_A_aux s) (globals s) (calls s).
Definition set_d_b (v : Buf) (s : Device) : Device :=
  mkDevice (d_x_prime s) (d_y_prime s) (d_z_prime s) (d_u_warped s) (d_v_warped s) (d_J s) (d_JTW s) (d_W s) (d_r s) v (d_A s) (d_error s) (alloc_pre_b s) (alloc_pre_b_aux s) (d_pre_A s) (d_pre_A_aux s) (globals s) (calls s).
Definition set_d_A (v : Buf) (s : Device) : Device :=
  mkDevice (d_x_prime s) (d_y_prime s) (d_z_prime s) (d_u_warped s) (d_v_warped s) (d_J s) (d_JTW s) (d_W s) (d_r s) (d_b s) v (d_error s) (alloc_pre_b s) (alloc_pre_b_aux s) (d_pre_A s) (d_pre_A_aux s) (globals s) (calls s).
Definition set_d_error (v : Buf) (s : Device) : Device :=
  mkDevice (d_x_prime s) (d_y_prime s) (d_z_prime s) (d_u_warped s) (d_v_warped s) (d_J s) (d_JTW s) (d_W s) (d_r s) (d_b s) (d_A s) v (alloc_pre_b s) (alloc_pre_b_aux s) (d_pre_A s) (d_pre_A_aux s) (globals s) (calls s).
Definition set_alloc_pre_b (v : Buf) (s : Device) : Device :=
  mkDevice (d_x_prime s) (d_y_prime s) (d_z_prime s) (d_u_warped s) (d_v_warped s) (d_J s) (d_JTW s) (d_W s) (d_r s) (d_b s) (d_A s) (d_error s) v (alloc_pre_b_aux s) (d_pre_A s) (d_pre_A_aux s) (globals s) (calls s).
Definition set_alloc_pre_b_aux (v : Buf) (s : Device) : Device :=
  mkDevice (d_x_prime s) (d_y_prime s) (d_z_prime s) (d_u_warped s) (d_v_warped s) (d_J s) (d_JTW s) (d_W s) (d_r s) (d_b s) (d_A s) (d_error s) (alloc_pre_b s) v (d_pre_A s) (d_pre_A_aux s) (globals s) (calls s).
Definition set_d_pre_A (v : Buf) (s : Device) : Device :=
  mkDevice (d_x_prime s) (d_y_prime s) (d_z_prime s) (d_u_warped s) (d_v_warped s) (d_J s) (d_JTW s) (d_W s) (d_r s) (d_b s) (d_A s) (d_error s) (alloc_pre_b s) (alloc_pre_b_aux s) v (d_pre_A_aux s) (globals s) (calls s).
Definition set_d_pre_A_aux (v : Buf) (s : Device) : Device :=
  mkDevice (d_x_prime s) (d_y_prime s) (d_z_prime s) (d_u_warped s) (d_v_warped s) (d_J s) (d_JTW s) (d_W s) (d_r s) (d_b s) (d_A s) (d_error s) (alloc_pre_b s) (alloc_pre_b_aux s) (d_pre_A s) v (globals s) (calls s).
Definition set_globals (v : Globals) (s : Device) : Device :=
  mkDevice (d_x_prime s) (d_y_prime s) (d_z_prime s) (d_u_warped s) (d_v_warped s) (d_J s) (d_JTW s) (d_W s) (d_r s) (d_b s) (d_A s) (d_error s) (alloc_pre_b s) (alloc_pre_b_aux s) (d_pre_A s) (d_pre_A_aux s) v (calls s).
Definition set_calls (v : list CudaCall) (s : Device) : Device :=
  mkDevice (d_x_prime s) (d_y_prime s) (d_z_prime s) (d_u_warped s) (d_v_warped s) (d_J s) (d_JTW s) (d_W s) (d_r s) (d_b s) (d_A s) (d_error s) (alloc_pre_b s) (alloc_pre_b_aux s) (d_pre_A s) (d_pre_A_aux s) (globals s) v.

Definition set_A (v : Matrix6f) (s : Tracker) : Tracker :=
  mkTracker (solvingMethod s) (maxIterationsPerLevel s) (maxLevel s) (minLevel s) (width s) (height s) (useTDistWeights s) v (b s) (error s) (d_cur s) (d_prev s) (d_pre_b s) (d_pre_b_aux s) (R s) (RK_inv s) (t s) (K_pyr s) (K_inv_pyr s) (xi_delta s) (xi s) (xi_total s) (dev s).
Definition set_b (v : Vector6f) (s : Tracker) : Tracker :=
  mkTracker (solvingMethod s) (maxIterationsPerLevel s) (maxLevel s) (minLevel s) (width s) (height s) (useTDistWeights s) (A s) v (error s) (d_cur s) (d_prev s) (d_pre_b s) (d_pre_b_aux s) (R s) (RK_inv s) (t s) (K_pyr s) (K_inv_pyr s) (xi_delta s) (xi s) (xi_total s) (dev s).
Definition set_error (v : float) (s : Tracker) : Tracker :=
  mkTracker (solvingMethod s) (maxIterationsPerLevel s) (maxLevel s) (minLevel s) (width s) (height s) (useTDistWeights s) (A s) (b s) v (d_cur s) (d_prev s) (d_pre_b s) (d_pre_b_aux s) (R s) (RK_inv s) (t s) (K_pyr s) (K_inv_pyr s) (xi_delta s) (xi s) (xi_total s) (dev s).
Definition set_d_cur (v : list PyramidLevel) (s : Tracker) : Tracker :=
  mkTracker (solvingMethod s) (maxIterationsPerLevel s) (maxLevel s) (minLevel s) (width s) (height s) (useTDistWeights s) (A s) (b s) (error s) v (d_prev s) (d_pre_b s) (d_pre_b_aux s) (R s) (RK_inv s) (t s) (K_pyr s) (K_inv_pyr s) (xi_delta s) (xi s) (xi_total s) (dev s).
Definition set_d_prev (v : list PyramidLevel) (s : Tracker) : Tracker :=
  mkTracker (solvingMethod s) (maxIterationsPerLevel s) (maxLevel s) (minLevel s) (width s) (height s) (useTDistWeights s) (A s) (b s) (error s) (d_cur s) v (d_pre_b s) (d_pre_b_aux s) (R s) (RK_inv s) (t s) (K_pyr s) (K_inv_pyr s) (xi_delta s) (xi s) (xi_total s) (dev s).
Definition set_d_pre_b (v : BPtr) (s : Tracker) : Tracker :=
  mkTracker (solvingMethod s) (maxIterationsPerLevel s) (maxLevel s) (minLevel s) (width s) (height s) (useTDistWeights s) (A s) (b s) (error s) (d_cur s) (d_prev s) v (d_pre_b_aux s) (R s) (RK_inv s) (t s) (K_pyr s) (K_inv_pyr s) (xi_delta s) (xi s) (xi_total s) (dev s).
Definition set_d_pre_b_aux (v : BPtr) (s : Tracker) : Tracker :=
  mkTracker (solvingMethod s) (maxIterationsPerLevel s) (maxLevel s) (minLevel s) (width s) (height s) (useTDistWeights s) (A s) (b s) (error s) (d_cur s) (d_prev s) (d_pre_b s) v (R s) (RK_inv s) (t s) (K_pyr s) (K_inv_pyr s) (xi_delta s) (xi s) (xi_total s) (dev s).
Definition set_R (v : Matrix3f) (s : Tracker) : Tracker :=
  mkTracker (solvingMethod s) (maxIterationsPerLevel s) (maxLevel s) (minLevel s) (width s) (height s) (useTDistWeights s) (A s) (b s) (error s) (d_cur s) (d_prev s) (d_pre_b s) (d_pre_b_aux s) v (RK_inv s) (t s) (K_pyr s) (K_inv_pyr s) (xi_delta s) (xi s) (xi_total s) (dev s).
Definition set_RK_inv (v : Matrix3f) (s : Tracker) : Tracker :=
  mkTracker (solvingMethod s) (maxIterationsPerLevel s) (maxLevel s) (minLevel s) (width s) (height s) (useTDistWeights s) (A s) (b s) (error s) (d_cur s) (d_prev s) (d_pre_b s) (d_pre_b_aux s) (R s) v (t s) (K_pyr s) (K_inv_pyr s) (xi_delta s) (xi s) (xi_total s) (dev s).
Definition set_t (v : Vector3f) (s : Tracker) : Tracker :=
  mkTracker (solvingMethod s) (maxIterationsPerLevel s) (maxLevel s) (minLevel s) (width s) (height s) (useTDistWeights s) (A s) (b s) (error s) (d_cur s) (d_prev s) (d_pre_b s) (d_pre_b_aux s) (R s) (RK_inv s) v (K_pyr s) (K_inv_pyr s) (xi_delta s) (xi s) (xi_total s) (dev s).
Definition set_K_pyr (v : list Matrix3f) (s : Tracker) : Tracker :=
  mkTracker (solvingMethod s) (maxIterationsPerLevel s) (maxLevel s) (minLevel s) (width s) (height s) (useTDistWeights s) (A s) (b s) (error s) (d_cur s) (d_prev s) (d_pre_b s) (d_pre_b_aux s) (R s) (RK_inv s) (t s) v (K_inv_pyr s) (xi_delta s) (xi s) (xi_total s) (dev s).
Definition set_K_inv_pyr (v : list Matrix3f) (s : Tracker) : Tracker :=
  mkTracker (solvingMethod s) (maxIterationsPerLevel s) (maxLevel s) (minLevel s) (width s) (height s) (useTDistWeights s) (A s) (b s) (error s) (d_cur s) (d_prev s) (d_pre_b s) (d_pre_b_aux s) (R s) (RK_inv s) (t s) (K_pyr s) v (xi_delta s) (xi s) (xi_total s) (dev s).
Definition set_xi_delta (v : Vector6f) (s : Tracker) : Tracker :=
  mkTracker (solvingMethod s) (maxIterationsPerLevel s) (maxLevel s) (minLevel s) (width s) (height s) (useTDistWeights s) (A s) (b s) (error s) (d_cur s) (d_prev s) (d_pre_b s) (d_pre_b_aux s) (R s) (RK_inv s) (t s) (K_pyr s) (K_inv_pyr s) v (xi s) (xi_total s) (dev s).
Definition set_xi (v : Vector6f) (s : Tracker) : Tracker :=
  mkTracker (solvingMethod s) (maxIterationsPerLevel s) (maxLevel s) (minLevel s) (width s) (height s) (useTDistWeights s) (A s) (b s) (error s) (d_cur s) (d_prev s) (d_pre_b s) (d_pre_b_aux s) (R s) (RK_inv s) (t s) (K_pyr s) (K_inv_pyr s) (xi_delta s) v (xi_total s) (dev s).
Definition set_xi_total (v : Vector6f) (s : Tracker) : Tracker :=
  mkTracker (solvingMethod s) (maxIterationsPerLevel s) (maxLevel s) (minLevel s) (width s) (height s) (useTDistWeights s) (A s) (b s) (error s) (d_cur s) (d_prev s) (d_pre_b s) (d_pre_b_aux s) (R s) (RK_inv s) (t s) (K_pyr s) (K_inv_pyr s) (xi_delta s) (xi s) v (dev s).
Definition set_dev (v : Device) (s : Tracker) : Tracker :=
  mkTracker (solvingMethod s) (maxIterationsPerLevel s) (maxLevel s) (minLevel s) (width s) (height s) (useTDistWeights s) (A s) (b s) (error s) (d_cur s) (d_prev s) (d_pre_b s) (d_pre_b_aux s) (R s) (RK_inv s) (t s) (K_pyr s) (K_inv_pyr s) (xi_delta s) (xi s) (xi_total s) v.

(** ** Code outside [tracker.hpp]

    Each kernel takes its launch geometry, the device globals, the previous
    contents of the buffers it writes, the contents of the buffers it reads
    and its scalar arguments, and returns the new contents of the buffers it
    writes. *)
Class External : Type := {
  (** build option *)
  ENABLE_CUBLAS : bool;
  (** [common.h] *)
  g_CUDA_blockSize2DX : Z;
  g_CUDA_blockSize2DY : Z;
  (** CUDA runtime: contents of a fresh allocation (left unspecified by
      [cudaMalloc]), given the allocation history and the byte count; and
      the device globals before the tracker is constructed *)
  uninitialized : list CudaCall -> Z -> Buf;
  globals_at_start : Globals;
  (** [lieAlgebra.hpp] *)
  lieExp : Vector6f -> Matrix4f;
  lieLog : Matrix4f -> Vector6f;
  convertSE3ToT : Vector6f -> Matrix3f * Vector3f;
  (** Eigen: [operator*] on [Matrix3f] and [Matrix4f], [inverse()],
      [ldlt().solve()] *)
  mat3_mul : Matrix3f -> Matrix3f -> Matrix3f;
  mat4_mul : Matrix4f -> Matrix4f -> Matrix4f;
  mat4_inverse : Matrix4f -> Matrix4f;
  ldlt_solve : Matrix6f -> Vector6f -> Vector6f;
  (** [preprocessing.cuh] *)
  invertKMat : Matrix3f -> Matrix3f;
  downsampleK : Matrix3f -> Matrix3f;
  imresize_CUDA :
    Globals -> Buf -> Buf -> Z -> Z -> Z -> Z -> Z -> bool -> Buf;
  image_derivatives_CUDA :
    Globals -> Buf -> Buf -> Buf -> Z -> Z -> Buf * Buf;
  (** [alignment.cuh] *)
  d_transform_points :
    Launch -> Globals -> Buf * Buf * Buf * Buf * Buf -> Buf -> Z -> Z -> Z ->
    Buf * Buf * Buf * Buf * Buf;
  d_calculate_jacobian :
    Launch -> Globals -> Buf -> Buf -> Buf -> Buf -> Buf -> Buf ->
    Z -> Z -> Z -> Buf;
  d_calculate_residuals :
    Launch -> Globals -> Buf -> Buf -> Buf -> Buf -> Z -> Z -> Z -> Buf;
  d_squares_sum : Launch -> Globals -> Buf -> Buf -> Z -> Buf;
  d_sum : Launch -> Globals -> Buf -> Buf -> Z -> Buf;
  d_set_uniform_weights : Launch -> Globals -> Buf -> Z -> Z -> Buf;
  d_calculate_tdist_variance :
    Launch -> Globals -> Buf -> Buf -> Z -> Z -> float -> Buf;
  d_calculate_tdist_weights :
    Launch -> Globals -> Buf -> Buf -> Z -> Z -> float -> Buf;
  d_calculate_jtw : Launch -> Globals -> Buf -> Buf -> Buf -> Z -> Z -> Buf;
  d_product_JacT_W_Jac : Launch -> Globals -> Buf -> Buf -> Buf -> Z -> Buf;
  d_product_JacT_W_res :
    Launch -> Globals -> Buf -> Buf -> Buf -> Buf -> Z -> Buf;
  d_reduce_pre_M_towards_M : Launch -> Globals -> Buf -> Buf -> Z -> Buf;
  (** cuBLAS: [C = alpha * op(A) * op(B) + beta * C] and the sum of
      absolute values *)
  cublasSgemm :
    cublasOperation -> cublasOperation -> Z -> Z -> Z ->
    float -> Buf -> Z -> Buf -> Z -> float -> Buf -> Z -> Buf;
  cublasSasum : Z -> Buf -> Z -> float
}.

(** ** Loops, vectors and copies *)

(** [v[i]] on a [std::vector]; an index out of range has no defined
    result. *)
Definition at_ {T : Type} (v : list T) (i : Z) : option T :=
  if 0 <=? i then v !! Z.to_nat i else None.

(** [v[i] = x] *)
Definition assign {T : Type} (v : list T) (i : Z) (x : T) : option (list T) :=
  if (0 <=? i) && (i <? Z.of_nat (length v))
  then Some (<[Z.to_nat i := x]> v)
  else None.

(** [for (level = a; level <= b; level++) body] *)
Fixpoint for_up {S : Type} (n : nat) (level : Z)
    (body : Z -> S -> option S) (s : S) : option S :=
  match n with
  | O => Some s
  | Datatypes.S n' => s' ← body level s; for_up n' (level + 1) body s'
  end.

Definition for_range {S : Type} (a b : Z)
    (body : Z -> S -> option S) (s : S) : option S :=
  for_up (Z.to_nat (b - a + 1)) a body s.

(** [for (level = b; level >= a; level--) body] *)
Fixpoint for_down {S : Type} (n : nat) (level : Z)
    (body : Z -> S -> option S) (s : S) : option S :=
  match n with
  | O => Some s
  | Datatypes.S n' => s' ← body level s; for_down n' (level - 1) body s'
  end.

Definition for_range_down {S : Type} (b a : Z)
    (body : Z -> S -> option S) (s : S) : option S :=
  for_down (Z.to_nat (b - a + 1)) b body s.

(** [cudaMemcpy] of [count] floats to the start of [dst]. *)
Definition cudaMemcpy (dst src : Buf) (count : Z) : Buf :=
  take (Z.to_nat count) src ++ drop (Z.to_nat count) dst.

(** [cudaMemcpy] of [count] floats to [dst + offset]. *)
Definition cudaMemcpy_at (dst : Buf) (offset : Z) (src : Buf) (count : Z) : Buf :=
  take (Z.to_nat offset) dst ++ cudaMemcpy (drop (Z.to_nat offset) dst) src count.

(** [cudaMemcpy] of one float into a host scalar. *)
Definition cudaMemcpy_scalar (dst : float) (src : Buf) : float :=
  match src with
  | x :: _ => x
  | [] => dst
  end.

Definition sizeof_float : Z := 4.

(** [1 << level] on [int] *)
Definition shl1 (level : Z) : option Z :=
  if (0 <=? level) && (level <? 31) then Some (Z.shiftl 1 level) else None.

(** [dim / (1 << level)], the division truncating as in C++ *)
Definition level_dim (dim level : Z) : option Z :=
  p ← shl1 level; Some (Z.quot dim p).

(** ** Constants of the class *)

(** [float VARIANCE_INITIAL = 0.000625f] *)
Definition VARIANCE_INITIAL : float := S754_finite false 10737418 (-34).

(** [float BIG_FLOAT = std::numeric_limits<float>::max()] *)
Definition BIG_FLOAT : float := FLT_MAX.

(** The [double] literals [0.995] and [1e-3]. *)
Definition literal_0_995 : double := double_of_decimal 995 1000.
Definition literal_1e_3 : double := double_of_decimal 1 1000.

(** [error / error_prev > 0.995 || error == 0]: the quotient is computed
    in [float] and promoted for the comparison with the [double] literal;
    [0] is converted to [float]. *)
Definition error_test (error error_prev : float) : bool :=
  fgt (double_of_float (fdiv error error_prev)) literal_0_995
  || feq error (float_of_int 0).

(** [std::abs(1/variance - 1/variance_init)], computed in [float] and
    promoted to [double] for the comparison that follows. *)
Definition variance_change (variance variance_init : float) : double :=
  double_of_float
    (fabs (fsub (fdiv (float_of_int 1) variance)
                (fdiv (float_of_int 1) variance_init))).

(** [std::abs(1/variance - 1/variance_init) > 1e-3] *)
Definition variance_test (variance variance_init : float) : bool :=
  fgt (variance_change variance variance_init) literal_1e_3.

(** Eigen's unary minus on a vector. *)
Definition vneg (v : Vector6f) : Vector6f := map fopp v.

(** ** The member functions of [Tracker] *)

Section Members.

Context `{Ext : External}.

(** [cudaMalloc(&p, bytes)]: the fresh contents and the extended
    history. *)
Definition malloc (bytes : Z) (d : Device) : Buf * Device :=
  (uninitialized (calls d) bytes,
   set_calls (calls d ++ [cudaMalloc bytes]) d).

(** [cudaFree(p)] *)
Definition free (d : Device) : Device :=
  set_calls (calls d ++ [cudaFree]) d.

(** *** Launch geometries *)

(** [dimBlock(g_CUDA_blockSize2DX, g_CUDA_blockSize2DY, 1)] with the grid
    [ceil(level_width / x), ceil(level_height / y)]. *)
Definition launch2D (level_width level_height : Z) : Launch :=
  let bx := g_CUDA_blockSize2DX in
  let by_ := g_CUDA_blockSize2DY in
  mkLaunch (Dim3 (Z.quot (level_width + bx - 1) bx)
                 (Z.quot (level_height + by_ - 1) by_) 1)
           (Dim3 bx by_ 1) 0.

Definition blocklength : Z := 1024.

(** [(size + blocklength - 1) / blocklength] *)
Definition ceil_blocks (size : Z) : Z :=
  Z.quot (size + blocklength - 1) blocklength.

(** [grid(x, y, z)], [block(blocklength, 1, 1)] and
    [blocklength * sizeof(float)] bytes of shared memory. *)
Definition launch_reduce (x y z : Z) : Launch :=
  mkLaunch (Dim3 x y z) (Dim3 blocklength 1 1) (blocklength * sizeof_float).

(** *** Preprocessing *)

Definition fill_K_levels (K : Matrix3f) (s : Tracker) : option Tracker :=
  K_pyr0 ← assign (K_pyr s) 0 K;
  K0 ← at_ K_pyr0 0;
  K_inv_pyr0 ← assign (K_inv_pyr s) 0 (invertKMat K0);
  '(K_pyr', K_inv_pyr') ←
    for_range 1 (maxLevel s)
      (fun level '(K_pyr, K_inv_pyr) =>
         K_above ← at_ K_pyr (level - 1);
         K_pyr ← assign K_pyr level (downsampleK K_above);
         K_level ← at_ K_pyr level;
         K_inv_pyr ← assign K_inv_pyr level (invertKMat K_level);
         Some (K_pyr, K_inv_pyr))
      (K_pyr0, K_inv_pyr0);
  Some (set_K_inv_pyr K_inv_pyr' (set_K_pyr K_pyr' s)).

Definition load_K_to_device (s : Tracker) : option Tracker :=
  for_range 0 (maxLevel s)
    (fun level s =>
       K_level ← at_ (K_pyr s) level;
       let g := globals (dev s) in
       let g' := mkGlobals (cudaMemcpy_at (const_K_pyr g) (9 * level) K_level 9)
                           (const_RK_inv g) (const_translation g)
                           (texRef_grayImg g) (texRef_gray_dx g)
                           (texRef_gray_dy g) in
       Some (set_dev (set_globals g' (dev s)) s))
    s.

(** [fill_pyramid(d_img, grayImg, depthImg)]; the result is the new
    contents behind the pointers of [d_img]. *)
Definition fill_pyramid (s : Tracker) (d_img : list PyramidLevel)
    (grayImg depthImg : Buf) : option (list PyramidLevel) :=
  let g := globals (dev s) in
  base ← at_ d_img 0;
  d_img ← assign d_img 0
    (mkPyramidLevel (cudaMemcpy (gray base) grayImg (width s * height s))
                    (cudaMemcpy (depth base) depthImg (width s * height s))
                    (gray_dx base) (gray_dy base));
  d_img ←
    for_range 1 (maxLevel s)
      (fun level d_img =>
         level_width ← level_dim (width s) level;
         level_height ← level_dim (height s) level;
         src ← at_ d_img (level - 1);
         dst ← at_ d_img level;
         let gray' := imresize_CUDA g (gray src) (gray dst)
                        (2 * level_width) (2 * level_height)
                        level_width level_height 1 false in
         let depth' := imresize_CUDA g (depth src) (depth dst)
                        (2 * level_width) (2 * level_height)
                        level_width level_height 1 true in
         assign d_img level
           (mkPyramidLevel gray' depth' (gray_dx dst) (gray_dy dst)))
      d_img;
  for_range 0 (maxLevel s)
    (fun level d_img =>
       level_width ← level_dim (width s) level;
       level_height ← level_dim (height s) level;
       img ← at_ d_img level;
       let '(dx, dy) := image_derivatives_CUDA g (gray img) (gray_dx img)
                          (gray_dy img) level_width level_height in
       assign d_img level (mkPyramidLevel (gray img) (depth img) dx dy))
    d_img.

(** *** Alignment kernels *)

Definition transform_points (level level_width level_height : Z)
    (s : Tracker) : option Tracker :=
  prev ← at_ (d_prev s) level;
  let d := dev s in
  let '(x, y, z, u, v) :=
    d_transform_points (launch2D level_width level_height) (globals d)
      (d_x_prime d, d_y_prime d, d_z_prime d, d_u_warped d, d_v_warped d)
      (depth prev) level_width level_height level in
  Some (set_dev (set_d_v_warped v (set_d_u_warped u (set_d_z_prime z
          (set_d_y_prime y (set_d_x_prime x d))))) s).

Definition calculate_jacobian (level level_width level_height : Z)
    (s : Tracker) : Tracker :=
  let d := dev s in
  set_dev (set_d_J
    (d_calculate_jacobian (launch2D level_width level_height) (globals d)
       (d_J d) (d_x_prime d) (d_y_prime d) (d_z_prime d)
       (d_u_warped d) (d_v_warped d) level_width level_height level) d) s.

Definition calculate_residuals (level level_width level_height : Z)
    (s : Tracker) : option Tracker :=
  prev ← at_ (d_prev s) level;
  let d := dev s in
  Some (set_dev (set_d_r
    (d_calculate_residuals (launch2D level_width level_height) (globals d)
       (d_r d) (gray prev) (d_u_warped d) (d_v_warped d)
       level_width level_height level) d) s).

(** The [while (true)] loop shared by [calculate_error] and
    [reduce_array_GPU]: [d_sum] from [d_aux] into [d_aux2] until one
    block remains, exchanging the two pointers between passes.  [fuel]
    bounds the number of passes; [None] stands for a loop that does not
    end. *)
Fixpoint sum_passes (fuel : nat) (g : Globals) (d_aux d_aux2 : Buf)
    (size nblocks : Z) : option (Buf * Buf) :=
  match fuel with
  | O => None
  | S fuel' =>
      let d_aux2' := d_sum (launch_reduce nblocks 1 1) g d_aux d_aux2 size in
      if nblocks =? 1 then Some (d_aux, d_aux2')
      else sum_passes fuel' g d_aux2' d_aux nblocks (ceil_blocks nblocks)
  end.

Definition calculate_error (level level_width level_height : Z)
    (s : Tracker) : option Tracker :=
  let d := dev s in
  if ENABLE_CUBLAS then
    let n := level_width * level_height in
    Some (set_dev (set_d_error
      (cublasSgemm CUBLAS_OP_T CUBLAS_OP_N 1 1 n fone (d_r d) n (d_r d) n
         fzero (d_error d) 1) d) s)
  else
    let size := level_width * level_height in
    let nblocks := ceil_blocks size in
    let '(d_aux, d) := malloc (nblocks * sizeof_float) d in
    let d_aux := d_squares_sum (launch_reduce nblocks 1 1) (globals d)
                   (d_r d) d_aux size in
    let size := nblocks in
    let nblocks := ceil_blocks size in
    let '(d_aux2, d) := malloc (nblocks * sizeof_float) d in
    '(d_aux, d_aux2) ←
      sum_passes (Z.to_nat size) (globals d) d_aux d_aux2 size nblocks;
    let d := set_d_error (cudaMemcpy (d_error d) d_aux2 1) d in
    Some (set_dev (free (free d)) s).

(** [reduce_array_GPU(p_out, d_arr, size)]; the result is the value
    stored through [p_out]. *)
Definition reduce_array_GPU (p_out : float) (d_arr : Buf) (size : Z)
    (d : Device) : option (float * Device) :=
  let nblocks := ceil_blocks size in
  let '(d_aux, d) := malloc (nblocks * sizeof_float) d in
  let d_aux := d_sum (launch_reduce nblocks 1 1) (globals d)
                 d_arr d_aux size in
  let size := nblocks in
  let nblocks := ceil_blocks size in
  let '(d_aux2, d) := malloc (nblocks * sizeof_float) d in
  '(d_aux, d_aux2) ←
    sum_passes (Z.to_nat size) (globals d) d_aux d_aux2 size nblocks;
  let p_out := cudaMemcpy_scalar p_out d_aux2 in
  Some (p_out, free (free d)).

(** The body of the [do ... while] loop of [calculate_weights] after
    [variance_init = variance]: the kernel leaves the weighted squared
    residuals in [d_W], the reduction sums them and [variance /= n] turns
    the sum into their mean. *)
Definition variance_pass (level_width level_height : Z)
    (variance_init : float) (d : Device) : option (float * Device) :=
  let n := level_width * level_height in
  let d := set_d_W
    (d_calculate_tdist_variance (launch2D level_width level_height)
       (globals d) (d_W d) (d_r d) level_width level_height variance_init)
    d in
  '(variance, d) ←
    (if ENABLE_CUBLAS then Some (cublasSasum n (d_W d) 1, d)
     else reduce_array_GPU variance_init (d_W d) n d);
  Some (fdiv variance (float_of_int n), d).

(** The [do ... while] loop of [calculate_weights].  [more] counts the
    passes still permitted after the current one by [iterations < 5]; the
    result holds [variance_init], [variance] and [iterations] on exit. *)
Fixpoint tdist_passes (more : nat) (level_width level_height : Z)
    (variance : float) (iterations : Z) (d : Device)
    : option (float * float * Z * Device) :=
  let variance_init := variance in
  '(variance, d) ← variance_pass level_width level_height variance_init d;
  let iterations := iterations + 1 in
  if variance_test variance variance_init && (iterations <? 5) then
    match more with
    | S more' =>
        tdist_passes more' level_width level_height variance iterations d
    | O => None
    end
  else Some (variance_init, variance, iterations, d).

(** [calculate_weights(level, level_width, level_height, variance_init,
    useTDist)]; the second component is the value left in the reference
    parameter [variance_init]. *)
Definition calculate_weights (level level_width level_height : Z)
    (variance_init : float) (useTDist : bool) (s : Tracker)
    : option (Tracker * float) :=
  let d := dev s in
  if negb useTDist then
    Some (set_dev (set_d_W
            (d_set_uniform_weights (launch2D level_width level_height)
               (globals d) (d_W d) level_width level_height) d) s,
          variance_init)
  else
    let variance := variance_init in
    let iterations := 0 in
    '(variance_init, variance, iterations, d) ←
      tdist_passes 4 level_width level_height variance iterations d;
    let variance_init := variance in
    let d := set_d_W
      (d_calculate_tdist_weights (launch2D level_width level_height)
         (globals d) (d_W d) (d_r d) level_width level_height variance) d in
    Some (set_dev d s, variance_init).

Definition calculate_jtw (level level_width level_height : Z)
    (d : Device) : Device :=
  let lev_size := level_width * level_height in
  let bx := g_CUDA_blockSize2DX in
  let l := mkLaunch (Dim3 (Z.quot (lev_size + bx - 1) bx) 1 1)
                    (Dim3 bx 6 1) 0 in
  set_d_JTW (d_calculate_jtw l (globals d) (d_JTW d) (d_J d) (d_W d)
               lev_size 6) d.

(** The [while (true)] loop of [calculate_A]: reduce [d_pre_A] into
    [d_pre_A_aux], exchange the two pointers, leave when one block
    remains.  The result is the contents behind [d_pre_A] and
    [d_pre_A_aux] on exit. *)
Fixpoint reduce_A_passes (fuel : nat) (g : Globals)
    (d_pre_A d_pre_A_aux : Buf) (size numblocksZ : Z)
    : option (Buf * Buf) :=
  match fuel with
  | O => None
  | S fuel' =>
      let d_pre_A_aux :=
        d_reduce_pre_M_towards_M (launch_reduce 6 6 numblocksZ) g
          d_pre_A_aux d_pre_A size in
      let '(d_pre_A, d_pre_A_aux) := (d_pre_A_aux, d_pre_A) in
      if numblocksZ =? 1 then Some (d_pre_A, d_pre_A_aux)
      else reduce_A_passes fuel' g d_pre_A d_pre_A_aux
             numblocksZ (ceil_blocks numblocksZ)
  end.

Definition calculate_A (level level_width level_height : Z)
    (s : Tracker) : option Tracker :=
  let d := dev s in
  if ENABLE_CUBLAS then
    let n := level_width * level_height in
    let d :=
      if negb (useTDistWeights s) then
        set_d_A (cublasSgemm CUBLAS_OP_T CUBLAS_OP_N 6 6 n fone (d_J d) n
                   (d_J d) n fzero (d_A d) 6) d
      else
        let d := calculate_jtw level level_width level_height d in
        set_d_A (cublasSgemm CUBLAS_OP_T CUBLAS_OP_N 6 6 n fone (d_JTW d) n
                   (d_J d) n fzero (d_A d) 6) d in
    Some (set_A (cudaMemcpy (A s) (d_A d) (6 * 6)) (set_dev d s))
  else
    let size := level_width * level_height in
    let numblocksZ := ceil_blocks size in
    let d := set_d_pre_A
      (d_product_JacT_W_Jac (launch_reduce 6 6 numblocksZ) (globals d)
         (d_pre_A d) (d_J d) (d_W d) size) d in
    let size := numblocksZ in
    let numblocksZ := ceil_blocks size in
    '(pre_A, pre_A_aux) ←
      reduce_A_passes (Z.to_nat size) (globals d) (d_pre_A d)
        (d_pre_A_aux d) size numblocksZ;
    let d := set_d_pre_A_aux pre_A_aux (set_d_pre_A pre_A d) in
    Some (set_A (cudaMemcpy (A s) (d_pre_A d) (6 * 6)) (set_dev d s)).

(** Contents behind a pointer of type [BPtr]. *)
Definition bload (p : BPtr) (d : Device) : Buf :=
  match p with
  | Alloc_b => d_b d
  | Alloc_pre_b => alloc_pre_b d
  | Alloc_pre_b_aux => alloc_pre_b_aux d
  end.

Definition bstore (p : BPtr) (v : Buf) (d : Device) : Device :=
  match p with
  | Alloc_b => set_d_b v d
  | Alloc_pre_b => set_alloc_pre_b v d
  | Alloc_pre_b_aux => set_alloc_pre_b_aux v d
  end.

(** The [while (true)] loop of [calculate_b].  In the last pass the member
    [d_pre_b_aux] is redirected to [d_b] before the kernel runs; the two
    pointers are then exchanged. *)
Fixpoint reduce_b_passes (fuel : nat) (d_pre_b d_pre_b_aux : BPtr)
    (size numblocksZ : Z) (d : Device) : option (BPtr * BPtr * Device) :=
  match fuel with
  | O => None
  | S fuel' =>
      let d_pre_b_aux :=
        if numblocksZ =? 1 then Alloc_b else d_pre_b_aux in
      let d := bstore d_pre_b_aux
        (d_reduce_pre_M_towards_M (launch_reduce 6 1 numblocksZ) (globals d)
           (bload d_pre_b_aux d) (bload d_pre_b d) size) d in
      let '(d_pre_b, d_pre_b_aux) := (d_pre_b_aux, d_pre_b) in
      if numblocksZ =? 1 then Some (d_pre_b, d_pre_b_aux, d)
      else reduce_b_passes fuel' d_pre_b d_pre_b_aux
             numblocksZ (ceil_blocks numblocksZ) d
  end.

Definition calculate_b (level level_width level_height : Z)
    (s : Tracker) : option Tracker :=
  let d := dev s in
  if ENABLE_CUBLAS then
    let n := level_width * level_height in
    let d :=
      if negb (useTDistWeights s) then
        set_d_b (cublasSgemm CUBLAS_OP_T CUBLAS_OP_N 6 1 n fone (d_J d) n
                   (d_r d) n fzero (d_b d) 6) d
      else
        set_d_b (cublasSgemm CUBLAS_OP_T CUBLAS_OP_N 6 1 n fone (d_JTW d) n
                   (d_r d) n fzero (d_b d) 6) d in
    Some (set_b (cudaMemcpy (b s) (d_b d) 6) (set_dev d s))
  else
    let size := level_width * level_height in
    let numblocksZ := ceil_blocks size in
    let d := bstore (d_pre_b s)
      (d_product_JacT_W_res (launch_reduce 6 1 numblocksZ) (globals d)
         (bload (d_pre_b s) d) (d_J d) (d_W d) (d_r d) size) d in
    let size := numblocksZ in
    let numblocksZ := ceil_blocks size in
    '(pre_b, pre_b_aux, d) ←
      reduce_b_passes (Z.to_nat size) (d_pre_b s) (d_pre_b_aux s)
        size numblocksZ d;
    Some (set_b (cudaMemcpy (b s) (bload pre_b d) 6)
            (set_d_pre_b_aux pre_b_aux (set_d_pre_b pre_b (set_dev d s)))).

(** *** Device memory and textures *)

Definition set_textures (tg tdx tdy : Texture) (s : Tracker) : Tracker :=
  let g := globals (dev s) in
  set_dev (set_globals
    (mkGlobals (const_K_pyr g) (const_RK_inv g) (const_translation g)
               tg tdx tdy) (dev s)) s.

Definition define_texture_parameters (s : Tracker) : Tracker :=
  let g := globals (dev s) in
  set_textures
    (mkTexture false cudaFilterModeLinear (bound (texRef_grayImg g)))
    (mkTexture false cudaFilterModeLinear (bound (texRef_gray_dx g)))
    (mkTexture false cudaFilterModeLinear (bound (texRef_gray_dy g))) s.

Definition bind_textures (level level_width level_height : Z)
    (s : Tracker) : option Tracker :=
  cur ← at_ (d_cur s) level;
  let g := globals (dev s) in
  let pitch := level_width * sizeof_float in
  let bind (tex : Texture) (raster : Buf) :=
    mkTexture (normalized tex) (filterMode tex)
              (Some (raster, level_width, level_height, pitch)) in
  Some (set_textures (bind (texRef_grayImg g) (gray cur))
                     (bind (texRef_gray_dx g) (gray_dx cur))
                     (bind (texRef_gray_dy g) (gray_dy cur)) s).

Definition unbind_textures (s : Tracker) : Tracker :=
  let g := globals (dev s) in
  let unbind (tex : Texture) :=
    mkTexture (normalized tex) (filterMode tex) None in
  set_textures (unbind (texRef_grayImg g)) (unbind (texRef_gray_dx g))
               (unbind (texRef_gray_dy g)) s.

(** The eight allocations of one pyramid level, in source order. *)
Definition allocate_level (level : Z) (width height : Z)
    (st : list PyramidLevel * list PyramidLevel * Device)
    : option (list PyramidLevel * list PyramidLevel * Device) :=
  let '(cur, prev, d) := st in
  level_width ← level_dim width level;
  level_height ← level_dim height level;
  let bytes := level_width * level_height * sizeof_float in
  _ ← at_ cur level;
  _ ← at_ prev level;
  let '(cur_gray, d) := malloc bytes d in
  let '(prev_gray, d) := malloc bytes d in
  let '(cur_depth, d) := malloc bytes d in
  let '(prev_depth, d) := malloc bytes d in
  let '(cur_dx, d) := malloc bytes d in
  let '(prev_dx, d) := malloc bytes d in
  let '(cur_dy, d) := malloc bytes d in
  let '(prev_dy, d) := malloc bytes d in
  cur ← assign cur level (mkPyramidLevel cur_gray cur_depth cur_dx cur_dy);
  prev ← assign prev level
           (mkPyramidLevel prev_gray prev_depth prev_dx prev_dy);
  Some (cur, prev, d).

Definition allocateGPUMemory (s : Tracker) : option Tracker :=
  let w := width s in
  let h := height s in
  let d := dev s in
  let '(p, d) := malloc (6 * w * h * sizeof_float) d in
  let d := set_d_J p d in
  let '(p, d) := malloc (6 * w * h * sizeof_float) d in
  let d := set_d_JTW p d in
  let '(p, d) := malloc (w * h * sizeof_float) d in
  let d := set_d_W p d in
  let '(p, d) := malloc (w * h * sizeof_float) d in
  let d := set_d_r p d in
  let '(p, d) := malloc (w * h * sizeof_float) d in
  let d := set_d_x_prime p d in
  let '(p, d) := malloc (w * h * sizeof_float) d in
  let d := set_d_y_prime p d in
  let '(p, d) := malloc (w * h * sizeof_float) d in
  let d := set_d_z_prime p d in
  let '(p, d) := malloc (w * h * sizeof_float) d in
  let d := set_d_u_warped p d in
  let '(p, d) := malloc (w * h * sizeof_float) d in
  let d := set_d_v_warped p d in
  let '(p, d) := malloc (6 * sizeof_float) d in
  let d := set_d_b p d in
  let '(p, d) := malloc (6 * 6 * sizeof_float) d in
  let d := set_d_A p d in
  let '(p, d) := malloc sizeof_float d in
  let d := set_d_error p d in
  '(cur, prev, d) ←
    for_range 0 (maxLevel s)
      (fun level st => allocate_level level w h st)
      (d_cur s, d_prev s, d);
  let s := set_d_prev prev (set_d_cur cur s) in
  if ENABLE_CUBLAS then Some (set_dev d s)
  else
    let '(p, d) :=
      malloc (Z.quot (6 * 6 * w * h * sizeof_float + 1023) 1024) d in
    let d := set_d_pre_A p d in
    let '(p, d) :=
      malloc (Z.quot (6 * 6 * w * h * sizeof_float + 1023) 1024) d in
    let d := set_d_pre_A_aux p d in
    let '(p, d) :=
      malloc (Z.quot (6 * 1 * w * h * sizeof_float + 1023) 1024) d in
    let d := set_alloc_pre_b p d in
    let '(p, d) :=
      malloc (Z.quot (6 * 1 * w * h * sizeof_float + 1023) 1024) d in
    let d := set_alloc_pre_b_aux p d in
    Some (set_d_pre_b_aux Alloc_pre_b_aux
            (set_d_pre_b Alloc_pre_b (set_dev d s))).

(** *** [align] *)

(** [cudaMemcpyToSymbol] of [RK_inv] and [t]. *)
Definition publish_pose (s : Tracker) : Tracker :=
  let g := globals (dev s) in
  set_dev (set_globals
    (mkGlobals (const_K_pyr g)
               (cudaMemcpy (const_RK_inv g) (RK_inv s) 9)
               (cudaMemcpy (const_translation g) (t s) 3)
               (texRef_grayImg g) (texRef_gray_dx g) (texRef_gray_dy g))
    (dev s)) s.

(** [xi = lieLog(lieExp(xi_delta) * lieExp(xi))] *)
Definition compose_left (xi_delta xi : Vector6f) : Vector6f :=
  lieLog (mat4_mul (lieExp xi_delta) (lieExp xi)).

(** The body of the inner loop up to and including the read-back of
    [error], that is everything before the [break] test.  The second
    component is the value of the local [variance] after the body. *)
Definition iteration (level level_width level_height : Z)
    (variance : float) (s : Tracker) : option (Tracker * float) :=
  let '(R', t') := convertSE3ToT (xi s) in
  let s := set_t t' (set_R R' s) in
  K_inv ← at_ (K_inv_pyr s) level;
  let s := set_RK_inv (mat3_mul (R s) K_inv) s in
  let s := publish_pose s in
  s ← transform_points level level_width level_height s;
  s ← calculate_residuals level level_width level_height s;
  let s := calculate_jacobian level level_width level_height s in
  s ← calculate_error level level_width level_height s;
  '(s, variance) ←
    calculate_weights level level_width level_height variance
      (useTDistWeights s) s;
  s ← calculate_A level level_width level_height s;
  s ← calculate_b level level_width level_height s;
  let s := set_xi_delta (vneg (ldlt_solve (A s) (b s))) s in
  let s := set_xi (compose_left (xi_delta s) (xi s)) s in
  let s := set_error (cudaMemcpy_scalar (error s) (d_error (dev s))) s in
  Some (s, variance).

(** [for (int i = 0; i < maxIterationsPerLevel; i++) { ...; if (error /
    error_prev > 0.995 || error == 0) break; error_prev = error; }] with
    [n] iterations left. *)
Fixpoint iterations (n : nat) (level level_width level_height : Z)
    (error_prev variance : float) (s : Tracker) : option Tracker :=
  match n with
  | O => Some s
  | S n' =>
      '(s, variance) ← iteration level level_width level_height variance s;
      if error_test (error s) error_prev then Some s
      else iterations n' level level_width level_height
             (error s) variance s
  end.

(** The body of the loop over the levels. *)
Definition process_level (level : Z) (s : Tracker) : option Tracker :=
  level_width ← level_dim (width s) level;
  level_height ← level_dim (height s) level;
  let error_prev := BIG_FLOAT in
  s ← bind_textures level level_width level_height s;
  let variance := VARIANCE_INITIAL in
  s ← iterations (Z.to_nat (maxIterationsPerLevel s))
        level level_width level_height error_prev variance s;
  Some (unbind_textures s).

(** [xi_total = lieLog(lieExp(xi_total) * lieExp(xi).inverse())] *)
Definition accumulate (xi_total xi : Vector6f) : Vector6f :=
  lieLog (mat4_mul (lieExp xi_total) (mat4_inverse (lieExp xi))).

(** [Vector6f align(float *grayCur, float *depthCur)]: the tracker after
    the call and the returned vector. *)
Definition align (s : Tracker) (grayCur depthCur : Buf)
    : option (Tracker * Vector6f) :=
  cur ← fill_pyramid s (d_cur s) grayCur depthCur;
  let s := set_d_cur cur s in
  s ← for_range_down (maxLevel s) (minLevel s) process_level s;
  let s := set_d_prev (d_cur s) (set_d_cur (d_prev s) s) in
  let s := set_xi_total (accumulate (xi_total s) (xi s)) s in
  Some (s, xi_total s).

(** *** Constructor *)

Definition null_level : PyramidLevel := mkPyramidLevel [] [] [] [].

(** [std::vector::resize(count)] on an empty vector; a negative [int]
    converts to a size above [max_size()] and the call throws
    [std::length_error]. *)
Definition resize {T : Type} (count : Z) (x : T) : option (list T) :=
  if count <? 0 then None else Some (replicate (Z.to_nat count) x).

(** [Tracker(grayFirstFrame, depthFirstFrame, width, height, K, minLevel,
    maxLevel, useTDistWeights, maxIterationsPerLevel, solvingMethod)].
    Members without an initialiser are indeterminate until first
    written; they start here as empty arrays and zero. *)
Definition Tracker_new (grayFirstFrame depthFirstFrame : Buf)
    (width height : Z) (K : Matrix3f) (minLevel maxLevel : Z)
    (useTDistWeights : bool) (maxIterationsPerLevel : Z)
    (solvingMethod : SolvingMethod) : option Tracker :=
  let d := mkDevice [] [] [] [] [] [] [] [] [] [] [] [] [] [] [] []
                    globals_at_start [] in
  cur ← resize (maxLevel + 1) null_level;
  prev ← resize (maxLevel + 1) null_level;
  let s := mkTracker solvingMethod maxIterationsPerLevel maxLevel minLevel
             width height useTDistWeights
             (replicate 36 fzero) (replicate 6 fzero) fzero
             cur prev Alloc_pre_b Alloc_pre_b_aux
             [] [] [] [] []
             [] (replicate 6 fzero) (replicate 6 fzero) d in
  s ← allocateGPUMemory s;
  Ks ← resize (maxLevel + 1) ([] : Matrix3f);
  K_invs ← resize (maxLevel + 1) ([] : Matrix3f);
  let s := set_K_inv_pyr K_invs (set_K_pyr Ks s) in
  s ← fill_K_levels K s;
  s ← load_K_to_device s;
  prev ← fill_pyramid s (d_prev s) grayFirstFrame depthFirstFrame;
  let s := set_d_prev prev s in
  Some (define_texture_parameters s).

End Members.

(** *** Destructor *)

(** [deallocateGPUMemory()]: the twelve working arrays are released, then
    the eight rasters of every level.  The arrays [d_pre_A],
    [d_pre_A_aux], [d_pre_b] and [d_pre_b_aux] of the build without
    cuBLAS do not appear in it. *)
Definition deallocateGPUMemory (s : Tracker) : option Tracker :=
  let d := dev s in
  let d := free d in (* d_J *)
  let d := free d in (* d_JTW *)
  let d := free d in (* d_W *)
  let d := free d in (* d_r *)
  let d := free d in (* d_x_prime *)
  let d := free d in (* d_y_prime *)
  let d := free d in (* d_z_prime *)
  let d := free d in (* d_u_warped *)
  let d := free d in (* d_v_warped *)
  let d := free d in (* d_b *)
  let d := free d in (* d_A *)
  let d := free d in (* d_error *)
  d ←
    for_range 0 (maxLevel s)
      (fun level d =>
         _ ← at_ (d_cur s) level;
         _ ← at_ (d_prev s) level;
         let d := free d in (* d_cur [level].gray *)
         let d := free d in (* d_prev[level].gray *)
         let d := free d in (* d_cur [level].depth *)
         let d := free d in (* d_prev[level].depth *)
         let d := free d in (* d_cur [level].gray_dx *)
         let d := free d in (* d_prev[level].gray_dx *)
         let d := free d in (* d_cur [level].gray_dy *)
         let d := free d in (* d_prev[level].gray_dy *)
         Some d)
      d;
  Some (set_dev d s).

(** [~Tracker()]; [cublasDestroy(handle)] of the cuBLAS build touches
    nothing that is modelled. *)
Definition Tracker_delete (s : Tracker) : option Tracker :=
  deallocateGPUMemory s.


(** ** A reference instance of the external code

    A small executable stand-in for the kernels and the numerical helpers,
    used to run the controller on concrete frames.  It implements a
    brightness-offset model: the residual of a valid pixel is
    [cur - prev - xi_0], its Jacobian row is [(-1, 0, 0, 0, 0, 0)], poses
    compose by addition (the translation subgroup written additively) and
    the linear solver handles the diagonal systems this model produces,
    returning [0] for a zero pivot as Eigen's [LDLT::solve] does.  A pixel
    is valid when the depth of the previous frame is positive.  All
    reductions are done by one block, which is exact for levels of at most
    1024 pixels. *)
Module Reference.

Definition fsum (l : Buf) : float := fold_left fadd l fzero.

Definition nth_f (l : Buf) (i : nat) : float := nth i l fzero.

Definition column (n : nat) (i : nat) (M : Buf) : Buf :=
  take n (drop (i * n) M).

Definition dot3 (x y z : Buf) : float :=
  fsum (zip_with (fun a bc => fmul (fmul a (fst bc)) (snd bc)) x (zip y z)).

Definition texels (tex : Texture) : Buf :=
  match bound tex with
  | Some (raster, _, _, _) => raster
  | None => []
  end.

Definition pixels (level_width level_height : Z) : nat :=
  Z.to_nat (level_width * level_height).

Definition ref_transform_points (l : Launch) (g : Globals)
    (old : Buf * Buf * Buf * Buf * Buf) (depth_prev : Buf)
    (level_width level_height level : Z) : Buf * Buf * Buf * Buf * Buf :=
  let z := take (pixels level_width level_height) depth_prev in
  let zeros := map (fun _ => fzero) z in
  let uv := map (fun d => if fgt d fzero then fzero else fopp fone) z in
  (zeros, zeros, z, uv, uv).

Definition ref_residuals (l : Launch) (g : Globals) (old gray_prev u v : Buf)
    (level_width level_height level : Z) : Buf :=
  let offset := nth_f (const_translation g) 0 in
  zip_with
    (fun u_w cp =>
       if flt u_w fzero then fzero
       else fsub (fsub (fst cp) (snd cp)) offset)
    u (zip (texels (texRef_grayImg g)) gray_prev).

Definition ref_jacobian (l : Launch) (g : Globals) (old x y z u v : Buf)
    (level_width level_height level : Z) : Buf :=
  map (fun d => if fgt d fzero then fopp fone else fzero) z
  ++ replicate (5 * length z) fzero.

Definition tdist_weight (variance r : float) : float :=
  fdiv (float_of_int 6)
       (fadd (float_of_int 5) (fdiv (fmul r r) variance)).

Definition ref_sgemm (ta tb : cublasOperation) (m n k : Z) (alpha : float)
    (MA : Buf) (lda : Z) (MB : Buf) (ldb : Z) (beta : float) (MC : Buf)
    (ldc : Z) : Buf :=
  flat_map
    (fun j =>
       map (fun i =>
              fsum (zip_with fmul (column (Z.to_nat lda) i MA)
                                  (column (Z.to_nat ldb) j MB)))
           (seq 0 (Z.to_nat m)))
    (seq 0 (Z.to_nat n))
  ++ drop (Z.to_nat (m * n)) MC.

Definition ref_solve (MA : Matrix6f) (vb : Vector6f) : Vector6f :=
  map (fun i =>
         let pivot := nth_f MA (7 * i) in
         if feq pivot fzero then fzero else fdiv (nth_f vb i) pivot)
      (seq 0 6).

Definition identity3 : Matrix3f :=
  [fone; fzero; fzero; fzero; fone; fzero; fzero; fzero; fone].

Definition texture_at_start : Texture := mkTexture false cudaFilterModePoint None.

Definition external (cublas : bool) : External := {|
  ENABLE_CUBLAS := cublas;
  g_CUDA_blockSize2DX := 16;
  g_CUDA_blockSize2DY := 16;
  uninitialized := fun _ bytes => replicate (Z.to_nat (Z.quot bytes 4)) fzero;
  globals_at_start :=
    mkGlobals (replicate 45 fzero) (replicate 9 fzero) (replicate 3 fzero)
              texture_at_start texture_at_start texture_at_start;
  lieExp := fun v => v;
  lieLog := fun M => M;
  convertSE3ToT := fun v => (identity3, take 3 v);
  mat3_mul := fun _ M => M;
  mat4_mul := fun M N => zip_with fadd M N;
  mat4_inverse := fun M => map fopp M;
  ldlt_solve := ref_solve;
  invertKMat := fun K => K;
  downsampleK := fun K => K;
  imresize_CUDA := fun _ src _ _ _ w_out h_out _ _ => take (pixels w_out h_out) src;
  image_derivatives_CUDA := fun _ img _ _ _ _ =>
    (map (fun _ => fzero) img, map (fun _ => fzero) img);
  d_transform_points := ref_transform_points;
  d_calculate_jacobian := ref_jacobian;
  d_calculate_residuals := ref_residuals;
  d_squares_sum := fun _ _ src _ size =>
    [fsum (map (fun x => fmul x x) (take (Z.to_nat size) src))];
  d_sum := fun _ _ src _ size => [fsum (take (Z.to_nat size) src)];
  d_set_uniform_weights := fun _ _ _ w h => replicate (pixels w h) fone;
  d_calculate_tdist_variance := fun _ _ _ r w h variance =>
    map (fun x => fmul (tdist_weight variance x) (fmul x x))
        (take (pixels w h) r);
  d_calculate_tdist_weights := fun _ _ _ r w h variance =>
    map (tdist_weight variance) (take (pixels w h) r);
  d_calculate_jtw := fun _ _ _ J W n _ =>
    flat_map (fun i => zip_with fmul (column (Z.to_nat n) i J) W) (seq 0 6);
  d_product_JacT_W_Jac := fun _ _ _ J W size =>
    flat_map
      (fun j => map (fun i => dot3 (column (Z.to_nat size) i J) W
                                   (column (Z.to_nat size) j J))
                    (seq 0 6))
      (seq 0 6);
  d_product_JacT_W_res := fun _ _ _ J W r size =>
    map (fun i => dot3 (column (Z.to_nat size) i J) W r) (seq 0 6);
  d_reduce_pre_M_towards_M := fun l _ _ src _ =>
    take (Z.to_nat (dim_x (grid l) * dim_y (grid l))) src;
  cublasSgemm := ref_sgemm;
  cublasSasum := fun n x _ => fsum (map fabs (take (Z.to_nat n) x))
|}.

End Reference.


(** ** Notions used in the statements *)

Section Notions.

Context `{Ext : External}.

(** The state and the local [variance] after [k] passes through the body
    of the inner loop, with no exit test applied. *)
Fixpoint body_run (k : nat) (level level_width level_height : Z)
    (variance : float) (s : Tracker) : option (Tracker * float) :=
  match k with
  | O => Some (s, variance)
  | S k' =>
      '(s', variance') ←
        body_run k' level level_width level_height variance s;
      iteration level level_width level_height variance' s'
  end.

(** The error read back by pass number [j] (counted from zero). *)
Definition error_at (j : nat) (level level_width level_height : Z)
    (variance : float) (s : Tracker) : option float :=
  '(s', _) ← body_run (S j) level level_width level_height variance s;
  Some (error s').

(** The value of [error_prev] when pass number [j] reaches the exit test. *)
Definition error_prev_at (j : nat) (level level_width level_height : Z)
    (error_prev variance : float) (s : Tracker) : option float :=
  match j with
  | O => Some error_prev
  | S j' => error_at j' level level_width level_height variance s
  end.

(** The outcome of the exit test in pass number [j]. *)
Definition exit_at (j : nat) (level level_width level_height : Z)
    (error_prev variance : float) (s : Tracker) : option bool :=
  e ← error_at j level level_width level_height variance s;
  e_prev ← error_prev_at j level level_width level_height
             error_prev variance s;
  Some (error_test e e_prev).

(** The variance and the device after [k] passes of [variance_pass], with
    no exit test applied. *)
Fixpoint variance_run (k : nat) (level_width level_height : Z)
    (variance : float) (d : Device) : option (float * Device) :=
  match k with
  | O => Some (variance, d)
  | S k' =>
      '(variance', d') ←
        variance_run k' level_width level_height variance d;
      variance_pass level_width level_height variance' d'
  end.

(** The variance after [k] passes. *)
Definition variance_at (k : nat) (level_width level_height : Z)
    (variance : float) (d : Device) : option float :=
  fst <$> variance_run k level_width level_height variance d.

(** The outcome of [std::abs(1/variance - 1/variance_init) > 1e-3] at the
    end of pass number [j] (counted from zero). *)
Definition variance_test_at (j : nat) (level_width level_height : Z)
    (variance : float) (d : Device) : option bool :=
  v_init ← variance_at j level_width level_height variance d;
  v ← variance_at (S j) level_width level_height variance d;
  Some (variance_test v v_init).

(** A history extended only by allocations that are released again, and
    not extended at all in the cuBLAS build. *)
Definition temporaries_only (h h' : list CudaCall) : Prop :=
  exists extra,
    h' = h ++ extra
    /\ length (List.filter is_malloc extra)
       = length (List.filter (fun c => negb (is_malloc c)) extra)
    /\ (ENABLE_CUBLAS = true -> extra = []).

(** The vectors and the level size that one pass through the loop body
    needs at [level]. *)
Definition level_ready (level level_width level_height : Z) (s : Tracker)
    : Prop :=
  0 <= level < Z.of_nat (length (K_inv_pyr s))
  /\ 0 <= level < Z.of_nat (length (d_prev s))
  /\ (ENABLE_CUBLAS = true \/ 1 <= level_width * level_height).

(** The effect of a launch sequence on the device: the globals are left
    alone and the history grows by temporaries only. *)
Definition kernel_step (d d' : Device) : Prop :=
  temporaries_only (calls d) (calls d') /\ globals d' = globals d.

(** The first pass of a level: sizes, texture binding and one pass through
    the loop body from [VARIANCE_INITIAL]. *)
Definition first_iteration (level : Z) (s : Tracker)
    : option (Tracker * float) :=
  level_width ← level_dim (width s) level;
  level_height ← level_dim (height s) level;
  s ← bind_textures level level_width level_height s;
  iteration level level_width level_height VARIANCE_INITIAL s.

(** [b, b - 1, ..., a] *)
Definition levels_descending (a b : Z) : list Z :=
  map (fun i => b - Z.of_nat i) (seq 0 (Z.to_nat (b - a + 1))).

(** Processing a list of levels in order. *)
Fixpoint process_levels (levels : list Z) (s : Tracker) : option Tracker :=
  match levels with
  | [] => Some s
  | level :: rest => s' ← process_level level s; process_levels rest s'
  end.

(** The configuration and the vector lengths under which a call of [align]
    stays inside the model: every processed level exists in the pyramid
    vectors, lies in the range of the shift and has at least one pixel. *)
Definition well_formed (s : Tracker) : Prop :=
  0 <= maxLevel s <= 30
  /\ (minLevel s <= maxLevel s -> 0 <= minLevel s)
  /\ 2 ^ maxLevel s <= width s
  /\ 2 ^ maxLevel s <= height s
  /\ length (d_cur s) = Z.to_nat (maxLevel s + 1)
  /\ length (d_prev s) = Z.to_nat (maxLevel s + 1)
  /\ length (K_inv_pyr s) = Z.to_nat (maxLevel s + 1).

(** The members that the optimisation of a level never assigns. *)
Definition settings (s : Tracker)
    : SolvingMethod * Z * Z * Z * Z * Z * bool
      * list PyramidLevel * list PyramidLevel
      * list Matrix3f * list Matrix3f * Vector6f :=
  (solvingMethod s, maxIterationsPerLevel s, maxLevel s, minLevel s,
   width s, height s, useTDistWeights s, d_cur s, d_prev s,
   K_pyr s, K_inv_pyr s, xi_total s).

(** A tracker with the depth rasters of the current-frame pyramid
    blanked. *)
Definition blank_depth (l : PyramidLevel) : PyramidLevel :=
  mkPyramidLevel (gray l) [] (gray_dx l) (gray_dy l).

Definition without_current_depth (s : Tracker) : Tracker :=
  set_d_cur (map blank_depth (d_cur s)) s.

(** A tracker with the depth rasters of the previous-frame pyramid
    blanked. *)
Definition without_previous_depth (s : Tracker) : Tracker :=
  set_d_prev (map blank_depth (d_prev s)) s.

(** Two pyramids with the same intensity and gradient rasters. *)
Definition same_intensity (p1 p2 : list PyramidLevel) : Prop :=
  map blank_depth p1 = map blank_depth p2.

(** Numbers of allocation and release calls in a history. *)
Definition mallocs (h : list CudaCall) : nat :=
  length (List.filter is_malloc h).

Definition frees (h : list CudaCall) : nat :=
  length (List.filter (fun c => negb (is_malloc c)) h).

(** The byte counts requested by [allocateGPUMemory], in source order. *)
Definition scratch_bytes (w h : Z) : list Z :=
  [6 * w * h * sizeof_float; 6 * w * h * sizeof_float;
   w * h * sizeof_float; w * h * sizeof_float; w * h * sizeof_float;
   w * h * sizeof_float; w * h * sizeof_float; w * h * sizeof_float;
   w * h * sizeof_float; 6 * sizeof_float; 6 * 6 * sizeof_float;
   sizeof_float].

Definition level_bytes (w h : Z) (level : Z) : list Z :=
  replicate 8 (Z.quot w (2 ^ level) * Z.quot h (2 ^ level) * sizeof_float).

Definition reduction_bytes (w h : Z) : list Z :=
  if ENABLE_CUBLAS then []
  else [Z.quot (6 * 6 * w * h * sizeof_float + 1023) 1024;
        Z.quot (6 * 6 * w * h * sizeof_float + 1023) 1024;
        Z.quot (6 * 1 * w * h * sizeof_float + 1023) 1024;
        Z.quot (6 * 1 * w * h * sizeof_float + 1023) 1024].

Definition construction_bytes (w h maxLevel : Z) : list Z :=
  scratch_bytes w h
  ++ flat_map (level_bytes w h)
       (map Z.of_nat (seq 0 (Z.to_nat (maxLevel + 1))))
  ++ reduction_bytes w h.

End Notions.

(** *** Runs over several frames and launch sizes *)

Section Runs.

Context `{Ext : External}.

(** Calls of [align] on a sequence of frames (gray image, depth image),
    with the poses returned, in order. *)
Fixpoint align_all (s : Tracker) (frames : list (Buf * Buf))
    : option (Tracker * list Vector6f) :=
  match frames with
  | [] => Some (s, [])
  | (grayCur, depthCur) :: rest =>
      '(s, r) ← align s grayCur depthCur;
      '(s, rs) ← align_all s rest;
      Some (s, r :: rs)
  end.

(** The intrinsics of level [level]: [K] downsampled [level] times. *)
Definition K_at (K : Matrix3f) (level : nat) : Matrix3f :=
  Nat.iter level downsampleK K.

(** Level [l] of the pyramid [imgs] is the reduction of level [l - 1] of
    the same pyramid: its gray and depth rasters are what
    [imresize_CUDA] returns for the rasters of the level below, the
    source size being given as twice the size of level [l], written over
    the rasters [old] held before. *)
Definition level_resized (s : Tracker) (orig imgs : list PyramidLevel)
    (l : nat) : Prop :=
  exists (below here old : PyramidLevel) (lw lh : Z),
    imgs !! (l - 1)%nat = Some below
    /\ imgs !! l = Some here
    /\ orig !! l = Some old
    /\ level_dim (width s) (Z.of_nat l) = Some lw
    /\ level_dim (height s) (Z.of_nat l) = Some lh
    /\ gray here
       = imresize_CUDA (globals (dev s)) (gray below) (gray old)
           (2 * lw) (2 * lh) lw lh 1 false
    /\ depth here
       = imresize_CUDA (globals (dev s)) (depth below) (depth old)
           (2 * lw) (2 * lh) lw lh 1 true.

(** The gradient rasters of level [l] of [imgs] are what
    [image_derivatives_CUDA] returns for the gray raster of that level,
    written over the gradient rasters [old] held before. *)
Definition level_differentiated (s : Tracker)
    (orig imgs : list PyramidLevel) (l : nat) : Prop :=
  exists (here old : PyramidLevel) (lw lh : Z),
    imgs !! l = Some here
    /\ orig !! l = Some old
    /\ level_dim (width s) (Z.of_nat l) = Some lw
    /\ level_dim (height s) (Z.of_nat l) = Some lh
    /\ (gray_dx here, gray_dy here)
       = image_derivatives_CUDA (globals (dev s)) (gray here)
           (gray_dx old) (gray_dy old) lw lh.

End Runs.

(** [gridVolume = numblocksX * numblocksY * numblocksZ], the number of
    blocks of a launch; each block of the product and reduction kernels
    leaves one [float]. *)
Definition gridVolume (l : Launch) : Z :=
  dim_x (grid l) * dim_y (grid l) * dim_z (grid l).

(** The members that a level without a pass leaves as they are. *)
Definition host_state (s : Tracker)
    : Matrix6f * Vector6f * float * Vector6f * Vector6f * list CudaCall :=
  (A s, b s, error s, xi s, xi_delta s, calls (dev s)).

(** The constant-memory symbols. *)
Definition symbols_of (g : Globals) : Buf * Buf * Buf :=
  (const_K_pyr g, const_RK_inv g, const_translation g).

(** The symbol [const_K_pyr] with contents [c], starting from [c0], after
    the matrices of the levels below [a] have been copied to it: level
    [l] occupies the nine floats from offset [9 * l]. *)
Definition slots_filled (Ks : list Matrix3f) (c0 c : Buf) (a : nat)
    : Prop :=
  length c = length c0
  /\ forall j : nat,
       c !! j
       = if decide (j < 9 * a)%nat
         then Ks !! (j / 9)%nat ≫= (fun Kl => Kl !! (j mod 9)%nat)
         else c0 !! j.

(** The parameters of the three texture references. *)
Definition texture_parameters (g : Globals)
    : list (bool * FilterMode) :=
  map (fun tex => (normalized tex, filterMode tex))
    [texRef_grayImg g; texRef_gray_dx g; texRef_gray_dy g].

(** The rasters to which the three texture references are bound. *)
Definition texture_bindings (g : Globals)
    : list (option (Buf * Z * Z * Z)) :=
  map bound [texRef_grayImg g; texRef_gray_dx g; texRef_gray_dy g].

(** *** Positive definiteness of a 6x6 matrix of floats

    The matrix is read as [LDLT] reads it: column-major, lower triangle
    only.  A matrix with an infinite or NaN entry in that triangle is not
    positive definite. *)

Definition lower_entry (M : Matrix6f) (i j : nat) : option Q :=
  let '(r, c) := if (j <=? i)%nat then (i, j) else (j, i) in
  to_Q (nth (r + 6 * c) M S754_nan).

Definition quadratic_form (M : Matrix6f) (x : list Q) : option Q :=
  foldr
    (fun '(i, j) acc =>
       a ← acc;
       m ← lower_entry M i j;
       Some (a + nth i x 0 * m * nth j x 0)%Q)
    (Some 0%Q)
    (list_prod (seq 0 6) (seq 0 6)).

Definition positive_definite (M : Matrix6f) : Prop :=
  forall x : list Q,
    length x = 6%nat ->
    (exists i, (i < 6)%nat /\ ~ (nth i x 0 == 0)%Q) ->
    exists q, quadratic_form M x = Some q /\ (0 < q)%Q.


(** ** Concrete inputs

    A camera of one pixel, with the reference instance of the external
    code in its two builds. *)
Module Demo.

Definition hand_written : External := Reference.external false.
Definition with_cublas : External := Reference.external true.

(** A frame whose single pixel has the given integer value. *)
Definition pixel (x : Z) : Buf := [float_of_int x].

(** A frame whose single pixel is 2^100, the square of which is beyond
    the range of [float]. *)
Definition bright : Buf := [S754_finite false 8388608 77].

(** Intrinsics with unit focal lengths and the principal point at the
    origin, and a matrix of zeros, which is singular. *)
Definition K : Matrix3f := Reference.identity3.
Definition K_singular : Matrix3f := replicate 9 fzero.

(** The second unit vector of dimension six. *)
Definition e2 : list Q := [0; 1; 0; 0; 0; 0]%Q.

End Demo.

(** [well_formed] of a tracker given in full, by evaluation. *)
Ltac solve_well_formed :=
  unfold well_formed; vm_compute;
  repeat split; intros; try reflexivity; discriminate.


(** ** Shifts, level sizes and vector accesses *)

Lemma shl1_Some (level : Z) :
  0 <= level <= 30 -> shl1 level = Some (2 ^ level).
Proof.
  intros Hl. unfold shl1.
  destruct (0 <=? level) eqn:H0; [|lia].
  destruct (level <? 31) eqn:H1; [|lia].
  simpl. rewrite Z.shiftl_1_l. reflexivity.
Qed.

Lemma shl1_inv (level p : Z) :
  shl1 level = Some p -> 0 <= level <= 30 /\ p = 2 ^ level.
Proof.
  unfold shl1. intros H.
  destruct (0 <=? level) eqn:H0; [|discriminate].
  destruct (level <? 31) eqn:H1; [|discriminate].
  simpl in H. injection H as <-. rewrite Z.shiftl_1_l. lia.
Qed.

Lemma level_dim_Some (dim level : Z) :
  0 <= level <= 30 -> level_dim dim level = Some (Z.quot dim (2 ^ level)).
Proof.
  intros Hl. unfold level_dim. rewrite (shl1_Some level Hl). reflexivity.
Qed.

Lemma level_dim_inv (dim level v : Z) :
  level_dim dim level = Some v ->
  0 <= level <= 30 /\ v = Z.quot dim (2 ^ level).
Proof.
  unfold level_dim. intros H.
  destruct (shl1 level) as [p|] eqn:Hp; [|discriminate].
  simpl in H. injection H as <-.
  apply shl1_inv in Hp as [Hl ->]. auto.
Qed.

(** A level of a feasible pyramid has at least one pixel per side. *)
Lemma level_side_positive (dim level top : Z) :
  0 <= level <= top -> 2 ^ top <= dim -> 1 <= Z.quot dim (2 ^ level).
Proof.
  intros Hl Hd.
  assert (Hp : 0 < 2 ^ level) by (apply Z.pow_pos_nonneg; lia).
  assert (Hle : 2 ^ level <= 2 ^ top) by (apply Z.pow_le_mono_r; lia).
  rewrite Z.quot_div_nonneg by lia.
  apply Z.div_le_lower_bound; lia.
Qed.

(** A level never has more pixels per side than the full image. *)
Lemma level_side_le (dim level : Z) :
  0 <= dim -> 0 <= level -> 0 <= Z.quot dim (2 ^ level) <= dim.
Proof.
  intros Hd Hl.
  assert (Hp : 0 < 2 ^ level) by (apply Z.pow_pos_nonneg; lia).
  rewrite Z.quot_div_nonneg by lia.
  split.
  - apply Z.div_pos; lia.
  - apply Z.div_le_upper_bound; nia.
Qed.

Lemma at_Some {T : Type} (v : list T) (i : Z) :
  0 <= i < Z.of_nat (length v) -> exists x, at_ v i = Some x.
Proof.
  intros Hi. unfold at_.
  destruct (0 <=? i) eqn:H0; [|lia].
  destruct (lookup_lt_is_Some_2 v (Z.to_nat i)) as [x Hx]; [lia|].
  exists x. exact Hx.
Qed.

Lemma at_inv {T : Type} (v : list T) (i : Z) (x : T) :
  at_ v i = Some x -> 0 <= i < Z.of_nat (length v).
Proof.
  unfold at_. destruct (0 <=? i) eqn:H0; [|discriminate].
  intros H. apply lookup_lt_Some in H. lia.
Qed.

Lemma assign_Some {T : Type} (v : list T) (i : Z) (x : T) :
  0 <= i < Z.of_nat (length v) ->
  assign v i x = Some (<[Z.to_nat i := x]> v).
Proof.
  intros Hi. unfold assign.
  destruct (0 <=? i) eqn:H0; [|lia].
  destruct (i <? Z.of_nat (length v)) eqn:H1; [|lia].
  reflexivity.
Qed.

Lemma assign_inv {T : Type} (v v' : list T) (i : Z) (x : T) :
  assign v i x = Some v' ->
  0 <= i < Z.of_nat (length v) /\ v' = <[Z.to_nat i := x]> v.
Proof.
  unfold assign.
  destruct (0 <=? i) eqn:H0; [|discriminate].
  destruct (i <? Z.of_nat (length v)) eqn:H1; [|discriminate].
  simpl. intros H. injection H as <-. split; [lia|reflexivity].
Qed.

Lemma assign_length {T : Type} (v v' : list T) (i : Z) (x : T) :
  assign v i x = Some v' -> length v' = length v.
Proof.
  intros H. apply assign_inv in H as [_ ->]. apply length_insert.
Qed.

(** ** Invariants of the counted loops *)

Lemma for_up_invariant {S : Type} (P : S -> Prop) (body : Z -> S -> option S) :
  forall (n : nat) (a : Z) (s : S),
    P s ->
    (forall l x, a <= l < a + Z.of_nat n -> P x ->
                 exists x', body l x = Some x' /\ P x') ->
    exists s', for_up n a body s = Some s' /\ P s'.
Proof.
  induction n as [|n IH]; intros a s Hs Hbody; simpl.
  - exists s. auto.
  - destruct (Hbody a s) as (s1 & H1 & HP1); [lia|exact Hs|].
    rewrite H1. simpl.
    apply IH; [exact HP1|].
    intros l x Hl Hx. apply Hbody; [lia|exact Hx].
Qed.

Lemma for_up_preserves {S : Type} (P : S -> Prop) (body : Z -> S -> option S) :
  forall (n : nat) (a : Z) (s s' : S),
    P s ->
    (forall l x x', a <= l < a + Z.of_nat n -> P x ->
                    body l x = Some x' -> P x') ->
    for_up n a body s = Some s' -> P s'.
Proof.
  induction n as [|n IH]; intros a s s' Hs Hbody H; simpl in H.
  - injection H as <-. exact Hs.
  - destruct (body a s) as [s1|] eqn:H1; [|discriminate]. simpl in H.
    apply (IH (a + 1) s1 s'); [|intros l x x' Hl; apply Hbody; lia|exact H].
    apply (Hbody a s s1); [lia|exact Hs|exact H1].
Qed.

Lemma for_down_invariant {S : Type} (P : S -> Prop) (body : Z -> S -> option S) :
  forall (n : nat) (b : Z) (s : S),
    P s ->
    (forall l x, b - Z.of_nat n < l <= b -> P x ->
                 exists x', body l x = Some x' /\ P x') ->
    exists s', for_down n b body s = Some s' /\ P s'.
Proof.
  induction n as [|n IH]; intros b s Hs Hbody; simpl.
  - exists s. auto.
  - destruct (Hbody b s) as (s1 & H1 & HP1); [lia|exact Hs|].
    rewrite H1. simpl.
    apply IH; [exact HP1|].
    intros l x Hl Hx. apply Hbody; [lia|exact Hx].
Qed.

Lemma for_down_preserves {S : Type} (P : S -> Prop) (body : Z -> S -> option S) :
  forall (n : nat) (b : Z) (s s' : S),
    P s ->
    (forall l x x', b - Z.of_nat n < l <= b -> P x ->
                    body l x = Some x' -> P x') ->
    for_down n b body s = Some s' -> P s'.
Proof.
  induction n as [|n IH]; intros b s s' Hs Hbody H; simpl in H.
  - injection H as <-. exact Hs.
  - destruct (body b s) as [s1|] eqn:H1; [|discriminate]. simpl in H.
    apply (IH (b - 1) s1 s'); [|intros l x x' Hl; apply Hbody; lia|exact H].
    apply (Hbody b s s1); [lia|exact Hs|exact H1].
Qed.

(** The descending loop visits the levels of [levels_descending]. *)
Lemma for_down_process_levels `{Ext : External} :
  forall (n : nat) (b : Z) (s : Tracker),
    for_down n b process_level s
    = process_levels (map (fun i => b - Z.of_nat i) (seq 0 n)) s.
Proof.
  induction n as [|n IH]; intros b s.
  - reflexivity.
  - cbn [for_down seq map process_levels].
    replace (b - Z.of_nat 0) with b by lia.
    destruct (process_level b s) as [s1|]; [|reflexivity]. simpl.
    rewrite IH. f_equal.
    rewrite <- seq_shift, map_map.
    apply map_ext. intros i. lia.
Qed.

(** ** The reduction loops end when there is at least one element *)

Section Reductions.

Context `{Ext : External}.

Lemma ceil_blocks_bounds (size : Z) :
  1 <= size -> 1 <= ceil_blocks size <= size.
Proof.
  intros Hs. unfold ceil_blocks, blocklength.
  Z.to_euclidean_division_equations. lia.
Qed.

Lemma ceil_blocks_decreases (size : Z) :
  1 <= size -> ceil_blocks size <> 1 -> ceil_blocks size < size.
Proof.
  intros Hs. unfold ceil_blocks, blocklength.
  Z.to_euclidean_division_equations. lia.
Qed.

Lemma ceil_blocks_nonpositive (size : Z) :
  size <= 0 -> ceil_blocks size <= 0.
Proof.
  intros Hs. unfold ceil_blocks, blocklength.
  Z.to_euclidean_division_equations. lia.
Qed.

Lemma sum_passes_ends :
  forall (fuel : nat) (g : Globals) (d_aux d_aux2 : Buf) (size : Z),
    1 <= size -> (Z.to_nat size <= fuel)%nat ->
    exists r, sum_passes fuel g d_aux d_aux2 size (ceil_blocks size) = Some r.
Proof.
  induction fuel as [|fuel IH]; intros g d_aux d_aux2 size Hs Hf; [lia|].
  simpl.
  destruct (ceil_blocks size =? 1) eqn:H1; [eauto|].
  apply Z.eqb_neq in H1.
  pose proof (ceil_blocks_bounds size Hs).
  pose proof (ceil_blocks_decreases size Hs H1).
  apply IH; lia.
Qed.

Lemma reduce_A_passes_ends :
  forall (fuel : nat) (g : Globals) (pre_A pre_A_aux : Buf) (size : Z),
    1 <= size -> (Z.to_nat size <= fuel)%nat ->
    exists r,
      reduce_A_passes fuel g pre_A pre_A_aux size (ceil_blocks size) = Some r.
Proof.
  induction fuel as [|fuel IH]; intros g pre_A pre_A_aux size Hs Hf; [lia|].
  simpl.
  destruct (ceil_blocks size =? 1) eqn:H1; [eauto|].
  apply Z.eqb_neq in H1.
  pose proof (ceil_blocks_bounds size Hs).
  pose proof (ceil_blocks_decreases size Hs H1).
  apply IH; lia.
Qed.

Lemma reduce_b_passes_ends :
  forall (fuel : nat) (p q : BPtr) (size : Z) (d : Device),
    1 <= size -> (Z.to_nat size <= fuel)%nat ->
    exists r,
      reduce_b_passes fuel p q size (ceil_blocks size) d = Some r
      /\ calls (snd r) = calls d.
Proof.
  induction fuel as [|fuel IH]; intros p q size d Hs Hf; [lia|].
  simpl.
  destruct (ceil_blocks size =? 1) eqn:H1.
  - eexists. split; [reflexivity|]. simpl. destruct d; reflexivity.
  - apply Z.eqb_neq in H1.
    pose proof (ceil_blocks_bounds size Hs).
    pose proof (ceil_blocks_decreases size Hs H1).
    edestruct IH as (r & Hr & Hc); [| |rewrite Hr; eexists; split; [reflexivity|]]; try lia.
    rewrite Hc. destruct q, d; reflexivity.
Qed.

(** With no element the loops never reach their exit test. *)
Lemma sum_passes_diverges :
  forall (fuel : nat) (g : Globals) (d_aux d_aux2 : Buf) (size nblocks : Z),
    nblocks <= 0 -> sum_passes fuel g d_aux d_aux2 size nblocks = None.
Proof.
  induction fuel as [|fuel IH]; intros g d_aux d_aux2 size nblocks Hn;
    [reflexivity|].
  simpl. destruct (nblocks =? 1) eqn:H1; [lia|].
  apply IH. apply ceil_blocks_nonpositive. exact Hn.
Qed.

End Reductions.
(** ** What each member function assigns *)

Section Effects.

Context `{Ext : External}.

Lemma temporaries_only_refl (h : list CudaCall) : temporaries_only h h.
Proof.
  exists []. rewrite app_nil_r. repeat split; reflexivity.
Qed.

Lemma temporaries_only_trans (h1 h2 h3 : list CudaCall) :
  temporaries_only h1 h2 -> temporaries_only h2 h3 -> temporaries_only h1 h3.
Proof.
  intros (e1 & -> & Hb1 & Hc1) (e2 & -> & Hb2 & Hc2).
  exists (e1 ++ e2). rewrite app_assoc. split; [reflexivity|]. split.
  - rewrite !List.filter_app, !length_app. lia.
  - intros Hc. rewrite (Hc1 Hc), (Hc2 Hc). reflexivity.
Qed.

(** One block of two temporaries. *)
Lemma temporaries_only_block (h : list CudaCall) (m1 m2 : Z) :
  ENABLE_CUBLAS = false ->
  temporaries_only h
    ((((h ++ [cudaMalloc m1]) ++ [cudaMalloc m2]) ++ [cudaFree]) ++ [cudaFree]).
Proof.
  intros Hc. exists [cudaMalloc m1; cudaMalloc m2; cudaFree; cudaFree].
  rewrite <- !app_assoc. simpl.
  split; [reflexivity|split; [reflexivity|congruence]].
Qed.

Lemma transform_points_inv (level lw lh : Z) (s s' : Tracker) :
  transform_points level lw lh s = Some s' ->
  exists d, s' = set_dev d s /\ calls d = calls (dev s)
            /\ globals d = globals (dev s).
Proof.
  unfold transform_points. intros H.
  destruct (at_ (d_prev s) level) as [prev|]; [|discriminate]. simpl in H.
  destruct (d_transform_points _ _ _ _ _ _ _) as [[[[x y] z] u] v].
  injection H as <-. eexists. split; [reflexivity|].
  destruct s as [? ? ? ? ? ? ? ? ? ? ? ? ? ? ? ? ? ? ? ? ? ? []]. split; reflexivity.
Qed.

Lemma calculate_residuals_inv (level lw lh : Z) (s s' : Tracker) :
  calculate_residuals level lw lh s = Some s' ->
  exists d, s' = set_dev d s /\ calls d = calls (dev s)
            /\ globals d = globals (dev s).
Proof.
  unfold calculate_residuals. intros H.
  destruct (at_ (d_prev s) level) as [prev|]; [|discriminate]. simpl in H.
  injection H as <-. eexists. split; [reflexivity|].
  destruct s as [? ? ? ? ? ? ? ? ? ? ? ? ? ? ? ? ? ? ? ? ? ? []]. split; reflexivity.
Qed.

Lemma calculate_jacobian_inv (level lw lh : Z) (s : Tracker) :
  exists d, calculate_jacobian level lw lh s = set_dev d s
            /\ calls d = calls (dev s) /\ globals d = globals (dev s).
Proof.
  unfold calculate_jacobian. eexists. split; [reflexivity|].
  destruct s as [? ? ? ? ? ? ? ? ? ? ? ? ? ? ? ? ? ? ? ? ? ? []]. split; reflexivity.
Qed.

Lemma calculate_error_inv (level lw lh : Z) (s s' : Tracker) :
  calculate_error level lw lh s = Some s' ->
  exists d, s' = set_dev d s
            /\ temporaries_only (calls (dev s)) (calls d)
            /\ globals d = globals (dev s)
            /\ (ENABLE_CUBLAS = false ->
                calls d = calls (dev s)
                  ++ [cudaMalloc (ceil_blocks (lw * lh) * sizeof_float);
                      cudaMalloc (ceil_blocks (ceil_blocks (lw * lh))
                                  * sizeof_float);
                      cudaFree; cudaFree]).
Proof.
  unfold calculate_error. intros H.
  destruct ENABLE_CUBLAS eqn:Hc.
  - injection H as <-. eexists. split; [reflexivity|].
    destruct s as [? ? ? ? ? ? ? ? ? ? ? ? ? ? ? ? ? ? ? ? ? ? []]. simpl.
    split; [apply temporaries_only_refl|]. split; [reflexivity|]. discriminate.
  - cbn [malloc] in H.
    match type of H with
    | context [sum_passes ?f ?g ?a ?b ?c ?n] =>
        destruct (sum_passes f g a b c n) as [[a1 a2]|]; [|discriminate]
    end.
    simpl in H. injection H as <-. eexists. split; [reflexivity|].
    destruct s as [? ? ? ? ? ? ? ? ? ? ? ? ? ? ? ? ? ? ? ? ? ? []]. simpl.
    split; [apply temporaries_only_block; exact Hc|].
    split; [reflexivity|]. intros _. rewrite <- !app_assoc. reflexivity.
Qed.


Lemma kernel_step_refl (d : Device) : kernel_step d d.
Proof. split; [apply temporaries_only_refl|reflexivity]. Qed.

Lemma kernel_step_trans (d1 d2 d3 : Device) :
  kernel_step d1 d2 -> kernel_step d2 d3 -> kernel_step d1 d3.
Proof.
  intros [H1 G1] [H2 G2]. split.
  - eapply temporaries_only_trans; eassumption.
  - congruence.
Qed.

Lemma reduce_array_GPU_inv (p_out : float) (d_arr : Buf) (size : Z)
    (d d' : Device) (v : float) :
  reduce_array_GPU p_out d_arr size d = Some (v, d') ->
  ENABLE_CUBLAS = false ->
  kernel_step d d'
  /\ d_r d' = d_r d /\ d_W d' = d_W d
  /\ calls d' = calls d
       ++ [cudaMalloc (ceil_blocks size * sizeof_float);
           cudaMalloc (ceil_blocks (ceil_blocks size) * sizeof_float);
           cudaFree; cudaFree].
Proof.
  unfold reduce_array_GPU. intros H Hc. cbn [malloc] in H.
  match type of H with
  | context [sum_passes ?f ?g ?a ?b ?c ?n] =>
      destruct (sum_passes f g a b c n) as [[a1 a2]|]; [|discriminate]
  end.
  simpl in H. injection H as <- <-.
  destruct d. simpl. unfold kernel_step. simpl.
  split; [split; [apply temporaries_only_block; exact Hc|reflexivity]|].
  split; [reflexivity|]. split; [reflexivity|].
  rewrite <- !app_assoc. reflexivity.
Qed.

Lemma variance_pass_inv (lw lh : Z) (v0 v : float) (d d' : Device) :
  variance_pass lw lh v0 d = Some (v, d') ->
  kernel_step d d' /\ d_r d' = d_r d.
Proof.
  unfold variance_pass. intros H.
  destruct ENABLE_CUBLAS eqn:Hc.
  - simpl in H. injection H as <- <-. destruct d. unfold kernel_step. simpl.
    split; [split; [apply temporaries_only_refl|reflexivity]|reflexivity].
  - match type of H with
    | context [reduce_array_GPU ?a ?b ?c ?e] =>
        destruct (reduce_array_GPU a b c e) as [[v1 d1]|] eqn:Hr;
          [|discriminate]
    end.
    simpl in H. injection H as <- <-.
    apply reduce_array_GPU_inv in Hr as ([Ht Hg] & Hr' & _ & _); [|exact Hc].
    destruct d. simpl in *. unfold kernel_step. simpl.
    split; [split; assumption|assumption].
Qed.

Lemma tdist_passes_inv :
  forall (more : nat) (lw lh : Z) (v0 : float) (its : Z) (d : Device)
         (vi v : float) (its' : Z) (d' : Device),
    tdist_passes more lw lh v0 its d = Some (vi, v, its', d') ->
    kernel_step d d' /\ d_r d' = d_r d.
Proof.
  induction more as [|more IH]; intros lw lh v0 its d vi v its' d' H.
  - cbn [tdist_passes] in H.
    destruct (variance_pass lw lh v0 d) as [[v1 d1]|] eqn:Hp; [|discriminate].
    cbn [mbind option_bind] in H. cbv zeta in H.
    apply variance_pass_inv in Hp as [Hk Hr].
    destruct (variance_test v1 v0 && (its + 1 <? 5)); [discriminate H|].
    injection H as <- <- <- <-. split; assumption.
  - cbn [tdist_passes] in H.
    destruct (variance_pass lw lh v0 d) as [[v1 d1]|] eqn:Hp; [|discriminate].
    cbn [mbind option_bind] in H. cbv zeta in H.
    apply variance_pass_inv in Hp as [Hk Hr].
    destruct (variance_test v1 v0 && (its + 1 <? 5)).
    + apply IH in H as [Hk' Hr'].
      split; [eapply kernel_step_trans; eassumption|congruence].
    + injection H as <- <- <- <-. split; assumption.
Qed.

Lemma calculate_weights_inv (level lw lh : Z) (v v' : float) (useTDist : bool)
    (s s' : Tracker) :
  calculate_weights level lw lh v useTDist s = Some (s', v') ->
  exists d, s' = set_dev d s /\ kernel_step (dev s) d.
Proof.
  unfold calculate_weights. intros H.
  destruct useTDist; cbn [negb] in H; cbv iota zeta in H.
  - destruct (tdist_passes 4 lw lh v 0 (dev s)) as [[[[vi v1] its] d1]|] eqn:Hp;
      [|discriminate].
    cbn [mbind option_bind] in H. injection H as <- <-.
    apply tdist_passes_inv in Hp as [[Ht Hg] _].
    eexists. split; [reflexivity|].
    destruct d1. unfold kernel_step. simpl in *. split; assumption.
  - injection H as <- <-. eexists. split; [reflexivity|].
    destruct s as [? ? ? ? ? ? ? ? ? ? ? ? ? ? ? ? ? ? ? ? ? ? []].
    unfold kernel_step. simpl.
    split; [apply temporaries_only_refl|reflexivity].
Qed.

Lemma calculate_jtw_step (level lw lh : Z) (d : Device) :
  kernel_step d (calculate_jtw level lw lh d).
Proof.
  destruct d. unfold kernel_step. simpl.
  split; [apply temporaries_only_refl|reflexivity].
Qed.

Lemma calculate_A_inv (level lw lh : Z) (s s' : Tracker) :
  calculate_A level lw lh s = Some s' ->
  exists d a, s' = set_A a (set_dev d s) /\ kernel_step (dev s) d.
Proof.
  unfold calculate_A. intros H.
  destruct ENABLE_CUBLAS eqn:Hc.
  - injection H as <-. eexists. eexists. split; [reflexivity|].
    destruct (useTDistWeights s);
      destruct s as [? ? ? ? ? ? ? ? ? ? ? ? ? ? ? ? ? ? ? ? ? ? []];
      unfold kernel_step; simpl;
      (split; [apply temporaries_only_refl|reflexivity]).
  - match type of H with
    | context [reduce_A_passes ?f ?g ?a ?b ?c ?n] =>
        destruct (reduce_A_passes f g a b c n) as [[a1 a2]|]; [|discriminate]
    end.
    simpl in H. injection H as <-. eexists. eexists. split; [reflexivity|].
    destruct s as [? ? ? ? ? ? ? ? ? ? ? ? ? ? ? ? ? ? ? ? ? ? []].
    unfold kernel_step. simpl.
    split; [apply temporaries_only_refl|reflexivity].
Qed.

Lemma bstore_step (p : BPtr) (v : Buf) (d : Device) :
  kernel_step d (bstore p v d).
Proof.
  destruct p, d; unfold kernel_step; simpl;
    (split; [apply temporaries_only_refl|reflexivity]).
Qed.

Lemma reduce_b_passes_inv :
  forall (fuel : nat) (p q : BPtr) (size nz : Z) (d : Device)
         (p' q' : BPtr) (d' : Device),
    reduce_b_passes fuel p q size nz d = Some (p', q', d') ->
    kernel_step d d'.
Proof.
  induction fuel as [|fuel IH]; intros p q size nz d p' q' d' H;
    cbn [reduce_b_passes] in H; [discriminate|].
  cbv zeta in H.
  destruct (nz =? 1).
  - injection H as <- <- <-. apply (bstore_step Alloc_b).
  - apply IH in H. eapply kernel_step_trans; [apply (bstore_step q)|exact H].
Qed.

Lemma calculate_b_inv (level lw lh : Z) (s s' : Tracker) :
  calculate_b level lw lh s = Some s' ->
  exists d v p q,
    s' = set_b v (set_d_pre_b_aux q (set_d_pre_b p (set_dev d s)))
    /\ kernel_step (dev s) d.
Proof.
  unfold calculate_b. intros H.
  destruct ENABLE_CUBLAS eqn:Hc.
  - exists (dev s'), (b s'), (d_pre_b s'), (d_pre_b_aux s').
    injection H as <-.
    destruct (negb (useTDistWeights s)); (split; [reflexivity|]);
      destruct s as [? ? ? ? ? ? ? ? ? ? ? ? ? ? ? ? ? ? ? ? ? ? []];
      unfold kernel_step; simpl;
      (split; [apply temporaries_only_refl|reflexivity]).
  - match type of H with
    | context [reduce_b_passes ?f ?p ?q ?c ?n ?e] =>
        destruct (reduce_b_passes f p q c n e) as [[[p1 q1] d1]|] eqn:Hr;
          [|discriminate]
    end.
    simpl in H. injection H as <-.
    apply reduce_b_passes_inv in Hr.
    exists d1. eexists. exists p1, q1. split.
    + destruct s; reflexivity.
    + eapply kernel_step_trans; [apply bstore_step|exact Hr].
Qed.

End Effects.

(** ** One pass through the loop body *)

Section Iteration.

Context `{Ext : External}.

Lemma mallocs_app (h1 h2 : list CudaCall) :
  mallocs (h1 ++ h2) = (mallocs h1 + mallocs h2)%nat.
Proof. unfold mallocs. rewrite List.filter_app, length_app. reflexivity. Qed.

Lemma frees_app (h1 h2 : list CudaCall) :
  frees (h1 ++ h2) = (frees h1 + frees h2)%nat.
Proof. unfold frees. rewrite List.filter_app, length_app. reflexivity. Qed.

Lemma temporaries_only_mallocs (h h' : list CudaCall) :
  temporaries_only h h' -> (mallocs h <= mallocs h')%nat.
Proof. intros (e & -> & _). rewrite mallocs_app. lia. Qed.

Lemma publish_pose_step (s : Tracker) :
  calls (dev (publish_pose s)) = calls (dev s).
Proof. destruct s as [? ? ? ? ? ? ? ? ? ? ? ? ? ? ? ? ? ? ? ? ? ? []]. reflexivity. Qed.

(** What one pass leaves unchanged, what it assigns, and what it does to
    the allocation history. *)
Lemma iteration_inv (level lw lh : Z) (v v' : float) (s s' : Tracker) :
  iteration level lw lh v s = Some (s', v') ->
  settings s' = settings s
  /\ xi_delta s' = vneg (ldlt_solve (A s') (b s'))
  /\ xi s' = compose_left (vneg (ldlt_solve (A s') (b s'))) (xi s)
  /\ error s' = cudaMemcpy_scalar (error s) (d_error (dev s'))
  /\ temporaries_only (calls (dev s)) (calls (dev s'))
  /\ (ENABLE_CUBLAS = false ->
      (mallocs (calls (dev s)) + 2 <= mallocs (calls (dev s')))%nat).
Proof.
  unfold iteration. intros H.
  destruct (convertSE3ToT (xi s)) as [R' t'].
  cbv zeta in H.
  apply bind_Some in H as (K_inv & HK & H).
  apply bind_Some in H as (s1 & H1 & H).
  apply bind_Some in H as (s2 & H2 & H).
  apply bind_Some in H as (s3 & H3 & H).
  apply bind_Some in H as ([s4 v4] & H4 & H).
  apply bind_Some in H as (s5 & H5 & H).
  apply bind_Some in H as (s6 & H6 & H).
  injection H as <- <-.
  apply transform_points_inv in H1 as (d1 & -> & C1 & _).
  apply calculate_residuals_inv in H2 as (d2 & -> & C2 & _).
  destruct (calculate_jacobian_inv level lw lh
              (set_dev d2 (set_dev d1 (publish_pose
                 (set_RK_inv (mat3_mul (R (set_t t' (set_R R' s))) K_inv)
                    (set_t t' (set_R R' s)))))))
    as (d3 & E3 & C3 & _).
  rewrite E3 in H3. clear E3.
  apply calculate_error_inv in H3 as (d4 & -> & T4 & _ & X4).
  apply calculate_weights_inv in H4 as (d5 & -> & [T5 _]).
  apply calculate_A_inv in H5 as (d6 & a6 & -> & [T6 _]).
  apply calculate_b_inv in H6 as (d7 & b7 & p7 & q7 & -> & [T7 _]).
  assert (E0 : calls d3 = calls (dev s)).
  { rewrite C3. cbn [dev set_dev]. rewrite C2. cbn [dev set_dev].
    rewrite C1. rewrite publish_pose_step. destruct s; reflexivity. }
  cbn [dev set_dev set_A] in T4, T5, T6, T7, X4.
  rewrite E0 in T4.
  assert (T : temporaries_only (calls (dev s)) (calls d7)).
  { eapply temporaries_only_trans; [exact T4|].
    eapply temporaries_only_trans; [exact T5|].
    eapply temporaries_only_trans; [exact T6|exact T7]. }
  split; [destruct s; reflexivity|].
  split; [destruct s; reflexivity|].
  split; [destruct s; reflexivity|].
  split; [destruct s; reflexivity|].
  split; [destruct s; exact T|].
  intros Hc. specialize (X4 Hc). rewrite E0 in X4.
  assert (M : (mallocs (calls d4) <= mallocs (calls d7))%nat).
  { apply temporaries_only_mallocs.
    eapply temporaries_only_trans; [exact T5|].
    eapply temporaries_only_trans; [exact T6|exact T7]. }
  rewrite X4, mallocs_app in M.
  destruct s; simpl in *. unfold mallocs at 2 in M. simpl in M. lia.
Qed.

End Iteration.

(** ** The member functions return when the level is ready *)

Section Returns.

Context `{Ext : External}.

Lemma calculate_error_returns (level lw lh : Z) (s : Tracker) :
  ENABLE_CUBLAS = true \/ 1 <= lw * lh ->
  exists s', calculate_error level lw lh s = Some s'.
Proof.
  intros Hr. unfold calculate_error.
  destruct ENABLE_CUBLAS eqn:Hc; [eauto|].
  destruct Hr as [Hr|Hr]; [discriminate|].
  cbn [malloc].
  pose proof (ceil_blocks_bounds _ Hr) as Hb.
  match goal with
  | |- context [sum_passes ?f ?g ?a ?b ?c (ceil_blocks ?c)] =>
      destruct (sum_passes_ends f g a b c) as (r & ->); [lia|lia|]
  end.
  destruct r as [a1 a2]. simpl. eauto.
Qed.

Lemma reduce_array_GPU_returns (p_out : float) (d_arr : Buf) (size : Z)
    (d : Device) :
  1 <= size -> exists r, reduce_array_GPU p_out d_arr size d = Some r.
Proof.
  intros Hr. unfold reduce_array_GPU. cbn [malloc].
  pose proof (ceil_blocks_bounds _ Hr) as Hb.
  match goal with
  | |- context [sum_passes ?f ?g ?a ?b ?c (ceil_blocks ?c)] =>
      destruct (sum_passes_ends f g a b c) as (r & ->); [lia|lia|]
  end.
  destruct r as [a1 a2]. simpl. eauto.
Qed.

Lemma variance_pass_returns (lw lh : Z) (v : float) (d : Device) :
  ENABLE_CUBLAS = true \/ 1 <= lw * lh ->
  exists r, variance_pass lw lh v d = Some r.
Proof.
  intros Hr. unfold variance_pass.
  destruct ENABLE_CUBLAS eqn:Hc; [simpl; eauto|].
  destruct Hr as [Hr|Hr]; [discriminate|].
  match goal with
  | |- context [reduce_array_GPU ?a ?b ?c ?e] =>
      destruct (reduce_array_GPU_returns a b c e Hr) as ([v1 d1] & ->)
  end.
  simpl. eauto.
Qed.

(** The loop of [calculate_weights] makes between one and five passes:
    the count it returns is the number of passes made, at most
    [5] when it starts from [0]. *)
Lemma tdist_passes_returns :
  forall (more : nat) (lw lh : Z) (v : float) (its : Z) (d : Device),
    ENABLE_CUBLAS = true \/ 1 <= lw * lh ->
    4 <= Z.of_nat more + its ->
    exists vi v' its' d',
      tdist_passes more lw lh v its d = Some (vi, v', its', d')
      /\ its < its' /\ (its < 5 -> its' <= 5).
Proof.
  induction more as [|more IH]; intros lw lh v its d Hr Hm;
    cbn [tdist_passes];
    destruct (variance_pass_returns lw lh v d Hr) as ([v1 d1] & ->);
    cbn [mbind option_bind]; cbv zeta;
    destruct (variance_test v1 v && (its + 1 <? 5)) eqn:Ht.
  - apply andb_true_iff in Ht as [_ Ht]. apply Z.ltb_lt in Ht. lia.
  - do 4 eexists. split; [reflexivity|]. lia.
  - destruct (IH lw lh v1 (its + 1) d1 Hr) as (vi & v' & its' & d' & -> & Hi);
      [lia|].
    do 4 eexists. split; [reflexivity|].
    apply andb_true_iff in Ht as [_ Ht]. apply Z.ltb_lt in Ht. lia.
  - do 4 eexists. split; [reflexivity|]. lia.
Qed.

Lemma calculate_weights_returns (level lw lh : Z) (v : float)
    (useTDist : bool) (s : Tracker) :
  ENABLE_CUBLAS = true \/ 1 <= lw * lh ->
  exists r, calculate_weights level lw lh v useTDist s = Some r.
Proof.
  intros Hr. unfold calculate_weights.
  destruct useTDist; cbn [negb]; cbv iota zeta; [|eauto].
  destruct (tdist_passes_returns 4 lw lh v 0 (dev s) Hr)
    as (vi & v' & its' & d' & -> & _); [lia|].
  simpl. eauto.
Qed.

Lemma calculate_A_returns (level lw lh : Z) (s : Tracker) :
  ENABLE_CUBLAS = true \/ 1 <= lw * lh ->
  exists s', calculate_A level lw lh s = Some s'.
Proof.
  intros Hr. unfold calculate_A.
  destruct ENABLE_CUBLAS eqn:Hc; [eauto|].
  destruct Hr as [Hr|Hr]; [discriminate|].
  pose proof (ceil_blocks_bounds _ Hr) as Hb.
  match goal with
  | |- context [reduce_A_passes ?f ?g ?a ?b ?c (ceil_blocks ?c)] =>
      destruct (reduce_A_passes_ends f g a b c) as (r & ->); [lia|lia|]
  end.
  destruct r as [a1 a2]. simpl. eauto.
Qed.

Lemma calculate_b_returns (level lw lh : Z) (s : Tracker) :
  ENABLE_CUBLAS = true \/ 1 <= lw * lh ->
  exists s', calculate_b level lw lh s = Some s'.
Proof.
  intros Hr. unfold calculate_b.
  destruct ENABLE_CUBLAS eqn:Hc; [eauto|].
  destruct Hr as [Hr|Hr]; [discriminate|].
  pose proof (ceil_blocks_bounds _ Hr) as Hb.
  match goal with
  | |- context [reduce_b_passes ?f ?p ?q ?c (ceil_blocks ?c) ?e] =>
      destruct (reduce_b_passes_ends f p q c e) as (r & -> & _); [lia|lia|]
  end.
  destruct r as [[p1 q1] d1]. simpl. eauto.
Qed.

Lemma iteration_returns (level lw lh : Z) (v : float) (s : Tracker) :
  level_ready level lw lh s ->
  exists s' v', iteration level lw lh v s = Some (s', v').
Proof.
  intros (HK & HP & Hr). unfold iteration.
  destruct (convertSE3ToT (xi s)) as [R' t']. cbv zeta.
  destruct (at_Some (K_inv_pyr (set_t t' (set_R R' s))) level) as (K_inv & ->);
    [destruct s; exact HK|].
  cbn [mbind option_bind].
  match goal with
  | |- context [transform_points level lw lh ?x] =>
      destruct (at_Some (d_prev x) level) as (prev & Hprev);
        [destruct s; exact HP|];
      destruct (transform_points level lw lh x) as [s1|] eqn:H1;
        [|unfold transform_points in H1; rewrite Hprev in H1; simpl in H1;
          destruct (d_transform_points _ _ _ _ _ _ _) as [[[[? ?] ?] ?] ?];
          discriminate]
  end.
  cbn [mbind option_bind].
  pose proof H1 as H1'. apply transform_points_inv in H1' as (d1 & E1 & _).
  destruct (calculate_residuals level lw lh s1) as [s2|] eqn:H2.
  2:{ unfold calculate_residuals in H2. subst s1.
      destruct (at_Some (d_prev (set_dev d1 (publish_pose
         (set_RK_inv (mat3_mul (R (set_t t' (set_R R' s))) K_inv)
            (set_t t' (set_R R' s)))))) level) as (p2 & Hp2);
        [destruct s; exact HP|].
      rewrite Hp2 in H2. discriminate. }
  cbn [mbind option_bind].
  destruct (calculate_error_returns level lw lh
              (calculate_jacobian level lw lh s2) Hr) as (s3 & ->).
  cbn [mbind option_bind].
  destruct (calculate_weights_returns level lw lh v (useTDistWeights s3) s3 Hr)
    as ([s4 v4] & ->).
  cbn [mbind option_bind].
  destruct (calculate_A_returns level lw lh s4 Hr) as (s5 & ->).
  cbn [mbind option_bind].
  destruct (calculate_b_returns level lw lh s5 Hr) as (s6 & ->).
  cbn [mbind option_bind]. eauto.
Qed.

Lemma level_ready_settings (level lw lh : Z) (s s' : Tracker) :
  settings s' = settings s -> level_ready level lw lh s ->
  level_ready level lw lh s'.
Proof.
  unfold settings, level_ready. intros E H.
  injection E as _ _ _ _ _ _ _ _ Ep _ Ek _. rewrite Ep, Ek. exact H.
Qed.

End Returns.

(** ** The inner loop *)

Section InnerLoop.

Context `{Ext : External}.

(** [body_run] unfolded at its first pass. *)
Lemma body_run_first :
  forall (k : nat) (level lw lh : Z) (v : float) (s : Tracker),
    body_run (S k) level lw lh v s
    = '(s1, v1) ← iteration level lw lh v s; body_run k level lw lh v1 s1.
Proof.
  induction k as [|k IH]; intros level lw lh v s.
  - simpl. destruct (iteration level lw lh v s) as [[s1 v1]|]; reflexivity.
  - change (body_run (S (S k)) level lw lh v s)
      with ('(s', v') ← body_run (S k) level lw lh v s;
            iteration level lw lh v' s').
    rewrite IH.
    destruct (iteration level lw lh v s) as [[s1 v1]|]; reflexivity.
Qed.

Lemma error_at_first (level lw lh : Z) (v v1 : float) (s s1 : Tracker) :
  iteration level lw lh v s = Some (s1, v1) ->
  error_at 0 level lw lh v s = Some (error s1).
Proof.
  intros H. unfold error_at. simpl. rewrite H. reflexivity.
Qed.

Lemma error_at_next (j : nat) (level lw lh : Z) (v v1 : float)
    (s s1 : Tracker) :
  iteration level lw lh v s = Some (s1, v1) ->
  error_at (S j) level lw lh v s = error_at j level lw lh v1 s1.
Proof.
  intros H. unfold error_at. rewrite (body_run_first (S j)), H. reflexivity.
Qed.

Lemma exit_at_first (level lw lh : Z) (e0 v v1 : float) (s s1 : Tracker) :
  iteration level lw lh v s = Some (s1, v1) ->
  exit_at 0 level lw lh e0 v s = Some (error_test (error s1) e0).
Proof.
  intros H. unfold exit_at. rewrite (error_at_first _ _ _ _ _ _ _ H).
  reflexivity.
Qed.

Lemma exit_at_next (j : nat) (level lw lh : Z) (e0 v v1 : float)
    (s s1 : Tracker) :
  iteration level lw lh v s = Some (s1, v1) ->
  exit_at (S j) level lw lh e0 v s
  = exit_at j level lw lh (error s1) v1 s1.
Proof.
  intros H. unfold exit_at.
  rewrite (error_at_next _ _ _ _ _ _ _ _ H).
  destruct j as [|j]; cbn [error_prev_at].
  - rewrite (error_at_first _ _ _ _ _ _ _ H). reflexivity.
  - rewrite (error_at_next _ _ _ _ _ _ _ _ H). reflexivity.
Qed.

(** The inner loop makes [k] passes, where [k] is the first pass whose
    exit test holds, or the iteration bound when no test holds; the state
    it leaves is the state after the whole of pass [k]. *)
Lemma iterations_spec :
  forall (n : nat) (level lw lh : Z) (e0 v : float) (s s' : Tracker),
    iterations n level lw lh e0 v s = Some s' ->
    exists (k : nat) (v' : float),
      (k <= n)%nat
      /\ body_run k level lw lh v s = Some (s', v')
      /\ (forall j, (S j < k)%nat ->
                    exit_at j level lw lh e0 v s = Some false)
      /\ ((k < n)%nat ->
          exists j, k = S j /\ exit_at j level lw lh e0 v s = Some true).
Proof.
  induction n as [|n IH]; intros level lw lh e0 v s s' H.
  - injection H as <-. exists O, v. repeat split; [lia| |lia].
    intros j Hj. lia.
  - cbn [iterations] in H.
    destruct (iteration level lw lh v s) as [[s1 v1]|] eqn:Hi;
      [|discriminate].
    cbn [mbind option_bind] in H.
    destruct (error_test (error s1) e0) eqn:Ht.
    + injection H as <-. exists 1%nat, v1.
      split; [lia|]. split; [simpl; rewrite Hi; reflexivity|].
      split; [intros j Hj; lia|].
      intros _. exists O. split; [reflexivity|].
      rewrite (exit_at_first _ _ _ _ _ _ _ _ Hi), Ht. reflexivity.
    + apply IH in H as (k & v' & Hk & Hrun & Hbefore & Hexit).
      exists (S k), v'. split; [lia|].
      split; [rewrite body_run_first, Hi; exact Hrun|].
      split.
      * intros [|j] Hj.
        -- rewrite (exit_at_first _ _ _ _ _ _ _ _ Hi), Ht. reflexivity.
        -- rewrite (exit_at_next _ _ _ _ _ _ _ _ _ Hi).
           apply Hbefore. lia.
      * intros Hlt. destruct Hexit as (j & -> & Hj); [lia|].
        exists (S j). split; [reflexivity|].
        rewrite (exit_at_next _ _ _ _ _ _ _ _ _ Hi). exact Hj.
Qed.

(** Every pass keeps the settings, so the whole loop does. *)
Lemma body_run_settings :
  forall (k : nat) (level lw lh : Z) (v v' : float) (s s' : Tracker),
    body_run k level lw lh v s = Some (s', v') ->
    settings s' = settings s
    /\ temporaries_only (calls (dev s)) (calls (dev s')).
Proof.
  induction k as [|k IH]; intros level lw lh v v' s s' H.
  - injection H as <- <-. split; [reflexivity|apply temporaries_only_refl].
  - cbn [body_run] in H.
    apply bind_Some in H as ([s1 v1] & H1 & H2).
    apply IH in H1 as [E1 T1].
    apply iteration_inv in H2 as (E2 & _ & _ & _ & T2 & _).
    split; [congruence|eapply temporaries_only_trans; eassumption].
Qed.

Lemma iterations_returns :
  forall (n : nat) (level lw lh : Z) (e0 v : float) (s : Tracker),
    level_ready level lw lh s ->
    exists s', iterations n level lw lh e0 v s = Some s'.
Proof.
  induction n as [|n IH]; intros level lw lh e0 v s Hr.
  - simpl. eauto.
  - cbn [iterations].
    destruct (iteration_returns level lw lh v s Hr) as (s1 & v1 & Hi).
    rewrite Hi. cbn [mbind option_bind].
    destruct (error_test (error s1) e0); [eauto|].
    apply IH. apply iteration_inv in Hi as (E & _).
    eapply level_ready_settings; eassumption.
Qed.

End InnerLoop.

(** ** One level and the loop over the levels *)

Section Levels.

Context `{Ext : External}.

Lemma bind_textures_inv (level lw lh : Z) (s sb : Tracker) :
  bind_textures level lw lh s = Some sb ->
  0 <= level < Z.of_nat (length (d_cur s))
  /\ exists g, sb = set_dev (set_globals g (dev s)) s.
Proof.
  unfold bind_textures. intros H.
  destruct (at_ (d_cur s) level) as [cur|] eqn:Hc; [|discriminate].
  apply at_inv in Hc. simpl in H. injection H as <-.
  split; [exact Hc|]. eexists. reflexivity.
Qed.

Lemma unbind_textures_inv (s : Tracker) :
  exists g, unbind_textures s = set_dev (set_globals g (dev s)) s.
Proof. eexists. reflexivity. Qed.

(** Replacing the device globals changes nothing else. *)
Lemma set_globals_inv (g : Globals) (s : Tracker) :
  let s' := set_dev (set_globals g (dev s)) s in
  settings s' = settings s /\ xi s' = xi s /\ error s' = error s
  /\ A s' = A s /\ b s' = b s /\ calls (dev s') = calls (dev s).
Proof.
  destruct s as [? ? ? ? ? ? ? ? ? ? ? ? ? ? ? ? ? ? ? ? ? ? []].
  simpl. repeat split; reflexivity.
Qed.

(** A level is: its two sizes, the binding of the textures, the inner
    loop started from [BIG_FLOAT] and [VARIANCE_INITIAL], the release of
    the textures. *)
Lemma process_level_inv (level : Z) (s s' : Tracker) :
  process_level level s = Some s' ->
  exists (lw lh : Z) (sb sk : Tracker),
    level_dim (width s) level = Some lw
    /\ level_dim (height s) level = Some lh
    /\ bind_textures level lw lh s = Some sb
    /\ iterations (Z.to_nat (maxIterationsPerLevel s)) level lw lh
         BIG_FLOAT VARIANCE_INITIAL sb = Some sk
    /\ s' = unbind_textures sk.
Proof.
  unfold process_level. intros H.
  apply bind_Some in H as (lw & Hw & H).
  apply bind_Some in H as (lh & Hh & H).
  cbv zeta in H.
  apply bind_Some in H as (sb & Hb & H).
  apply bind_Some in H as (sk & Hk & H).
  injection H as <-.
  exists lw, lh, sb, sk. repeat split; try assumption.
  apply bind_textures_inv in Hb as (_ & g & ->).
  replace (maxIterationsPerLevel s)
    with (maxIterationsPerLevel (set_dev (set_globals g (dev s)) s))
    by (destruct s; reflexivity).
  exact Hk.
Qed.

Lemma process_level_settings (level : Z) (s s' : Tracker) :
  process_level level s = Some s' ->
  settings s' = settings s
  /\ temporaries_only (calls (dev s)) (calls (dev s')).
Proof.
  intros H.
  apply process_level_inv in H as (lw & lh & sb & sk & _ & _ & Hb & Hk & ->).
  apply bind_textures_inv in Hb as (_ & g & ->).
  apply iterations_spec in Hk as (k & v' & _ & Hrun & _).
  apply body_run_settings in Hrun as [E T].
  destruct (unbind_textures_inv sk) as (g' & ->).
  destruct (set_globals_inv g s) as (E1 & _ & _ & _ & _ & C1).
  destruct (set_globals_inv g' sk) as (E2 & _ & _ & _ & _ & C2).
  cbv zeta in *. split; [congruence|].
  rewrite C2, <- C1. exact T.
Qed.

Lemma process_level_returns (level : Z) (s : Tracker) :
  0 <= level <= 30 ->
  level < Z.of_nat (length (d_cur s)) ->
  level < Z.of_nat (length (d_prev s)) ->
  level < Z.of_nat (length (K_inv_pyr s)) ->
  (ENABLE_CUBLAS = true
   \/ 1 <= Z.quot (width s) (2 ^ level) * Z.quot (height s) (2 ^ level)) ->
  exists s', process_level level s = Some s'.
Proof.
  intros Hl Hc Hp Hk Hr. unfold process_level.
  rewrite !level_dim_Some by exact Hl.
  cbn [mbind option_bind]. cbv zeta.
  destruct (at_Some (d_cur s) level) as (cur & Hcur); [lia|].
  destruct (bind_textures level (Z.quot (width s) (2 ^ level))
              (Z.quot (height s) (2 ^ level)) s) as [sb|] eqn:Hb.
  2:{ unfold bind_textures in Hb. rewrite Hcur in Hb. discriminate. }
  cbn [mbind option_bind].
  pose proof Hb as Hb'. apply bind_textures_inv in Hb' as (_ & g & E).
  destruct (iterations_returns (Z.to_nat (maxIterationsPerLevel sb)) level
              (Z.quot (width s) (2 ^ level)) (Z.quot (height s) (2 ^ level))
              BIG_FLOAT VARIANCE_INITIAL sb) as (sk & ->).
  - subst sb. destruct s. split; [simpl in *; lia|].
    split; [simpl in *; lia|exact Hr].
  - cbn [mbind option_bind]. eauto.
Qed.

(** The loop over the levels visits [maxLevel, ..., minLevel] in this
    order. *)
Lemma for_range_down_levels (s : Tracker) :
  for_range_down (maxLevel s) (minLevel s) process_level s
  = process_levels (levels_descending (minLevel s) (maxLevel s)) s.
Proof.
  unfold for_range_down, levels_descending. apply for_down_process_levels.
Qed.

Lemma well_formed_settings (s s' : Tracker) :
  settings s' = settings s -> well_formed s -> well_formed s'.
Proof.
  unfold settings, well_formed. intros E H.
  injection E as _ _ E1 E2 E3 E4 _ E5 E6 _ E7 _.
  rewrite E1, E2, E3, E4, E5, E6, E7. exact H.
Qed.

Lemma levels_loop_returns (s : Tracker) :
  well_formed s ->
  exists s',
    for_range_down (maxLevel s) (minLevel s) process_level s = Some s'
    /\ settings s' = settings s
    /\ temporaries_only (calls (dev s)) (calls (dev s')).
Proof.
  intros Hwf. unfold for_range_down.
  destruct (for_down_invariant
              (fun x => settings x = settings s
                        /\ temporaries_only (calls (dev s)) (calls (dev x)))
              process_level
              (Z.to_nat (maxLevel s - minLevel s + 1)) (maxLevel s) s)
    as (s' & H & HP); [split; [reflexivity|apply temporaries_only_refl]| |eauto].
  intros l x Hl [Hx Tx].
  pose proof (well_formed_settings s x Hx Hwf) as Hwx.
  destruct Hwx as (HL & Hmin & HW & HH & Lc & Lp & Lk).
  assert (Es : maxLevel x = maxLevel s /\ minLevel x = minLevel s).
  { unfold settings in Hx. injection Hx as _ _ E1 E2 _. auto. }
  destruct Es as [EM Em]. rewrite EM, Em in *.
  assert (Hrange : 0 <= l <= maxLevel s) by lia.
  destruct (process_level_returns l x) as (x' & Hx'); try lia.
  - right.
    pose proof (level_side_positive (width x) l (maxLevel s) Hrange HW).
    pose proof (level_side_positive (height x) l (maxLevel s) Hrange HH).
    nia.
  - exists x'. split; [exact Hx'|].
    apply process_level_settings in Hx' as [E T].
    split; [congruence|eapply temporaries_only_trans; eassumption].
Qed.

End Levels.

(** ** The pyramid of a frame and a whole call of [align] *)

Section Align.

Context `{Ext : External}.

Lemma fill_pyramid_length (s : Tracker) (d_img cur : list PyramidLevel)
    (g d : Buf) :
  fill_pyramid s d_img g d = Some cur -> length cur = length d_img.
Proof.
  unfold fill_pyramid. intros H. cbv zeta in H.
  apply bind_Some in H as (base & _ & H).
  apply bind_Some in H as (img0 & H0 & H).
  apply bind_Some in H as (img1 & H1 & H).
  apply assign_length in H0.
  assert (L1 : length img1 = length d_img).
  { unfold for_range in H1.
    apply (for_up_preserves
             (fun imgs : list PyramidLevel => length imgs = length d_img)
             _ _ _ _ _ H0) in H1; [exact H1|].
    intros l x x' _ Hx Hb.
    apply bind_Some in Hb as (lw & _ & Hb).
    apply bind_Some in Hb as (lh & _ & Hb).
    apply bind_Some in Hb as (src & _ & Hb).
    apply bind_Some in Hb as (dst & _ & Hb).
    apply assign_length in Hb. congruence. }
  unfold for_range in H.
  apply (for_up_preserves
           (fun imgs : list PyramidLevel => length imgs = length d_img)
           _ _ _ _ _ L1) in H; [exact H|].
  intros l x x' _ Hx Hb.
  apply bind_Some in Hb as (lw & _ & Hb).
  apply bind_Some in Hb as (lh & _ & Hb).
  apply bind_Some in Hb as (img & _ & Hb).
  destruct (image_derivatives_CUDA _ _ _ _ _ _) as [dx dy].
  apply assign_length in Hb. congruence.
Qed.

Lemma fill_pyramid_returns (s : Tracker) (d_img : list PyramidLevel)
    (g d : Buf) :
  0 <= maxLevel s <= 30 ->
  length d_img = Z.to_nat (maxLevel s + 1) ->
  exists cur, fill_pyramid s d_img g d = Some cur.
Proof.
  intros HL Hlen. unfold fill_pyramid. cbv zeta.
  destruct (at_Some d_img 0) as (base & ->); [lia|].
  cbn [mbind option_bind].
  rewrite assign_Some by lia. cbn [mbind option_bind].
  match goal with
  | |- context [for_range 1 (maxLevel s) ?body ?x] =>
      destruct (for_up_invariant
                  (fun imgs : list PyramidLevel => length imgs = length d_img)
                  body (Z.to_nat (maxLevel s - 1 + 1)) 1 x)
        as (img1 & H1 & L1)
  end.
  - apply length_insert.
  - intros l x Hl Hx.
    rewrite !level_dim_Some by lia. cbn [mbind option_bind].
    destruct (at_Some x (l - 1)) as (src & ->); [lia|].
    destruct (at_Some x l) as (dst & ->); [lia|].
    cbn [mbind option_bind]. rewrite assign_Some by lia.
    eexists. split; [reflexivity|]. rewrite length_insert. exact Hx.
  - unfold for_range at 2. rewrite H1. cbn [mbind option_bind].
    match goal with
    | |- context [for_range 0 (maxLevel s) ?body ?x] =>
        destruct (for_up_invariant
                    (fun imgs : list PyramidLevel =>
                       length imgs = length d_img)
                    body (Z.to_nat (maxLevel s - 0 + 1)) 0 x)
          as (img2 & H2 & L2)
    end.
    + exact L1.
    + intros l x Hl Hx.
      rewrite !level_dim_Some by lia. cbn [mbind option_bind].
      destruct (at_Some x l) as (img & ->); [lia|].
      cbn [mbind option_bind].
      destruct (image_derivatives_CUDA _ _ _ _ _ _) as [dx dy].
      rewrite assign_Some by lia.
      eexists. split; [reflexivity|]. rewrite length_insert. exact Hx.
    + unfold for_range. rewrite H2. eauto.
Qed.

(** The shape of a call that returns. *)
Lemma align_inv (s s' : Tracker) (grayCur depthCur : Buf) (r : Vector6f) :
  align s grayCur depthCur = Some (s', r) ->
  exists (cur : list PyramidLevel) (so : Tracker),
    fill_pyramid s (d_cur s) grayCur depthCur = Some cur
    /\ process_levels (levels_descending (minLevel s) (maxLevel s))
         (set_d_cur cur s) = Some so
    /\ s' = set_xi_total (accumulate (xi_total so) (xi so))
              (set_d_prev (d_cur so) (set_d_cur (d_prev so) so))
    /\ r = accumulate (xi_total so) (xi so).
Proof.
  unfold align. intros H.
  apply bind_Some in H as (cur & Hf & H). cbv zeta in H.
  apply bind_Some in H as (so & Hl & H).
  injection H as <- <-.
  exists cur, so. split; [exact Hf|]. split.
  - rewrite for_range_down_levels in Hl.
    destruct s; exact Hl.
  - split; destruct so; reflexivity.
Qed.

Lemma process_levels_settings :
  forall (levels : list Z) (s s' : Tracker),
    process_levels levels s = Some s' ->
    settings s' = settings s
    /\ temporaries_only (calls (dev s)) (calls (dev s')).
Proof.
  induction levels as [|l levels IH]; intros s s' H.
  - injection H as <-. split; [reflexivity|apply temporaries_only_refl].
  - cbn [process_levels] in H.
    apply bind_Some in H as (s1 & H1 & H).
    apply process_level_settings in H1 as [E1 T1].
    apply IH in H as [E2 T2].
    split; [congruence|eapply temporaries_only_trans; eassumption].
Qed.

(** A call on a well-formed tracker returns, and leaves a well-formed
    tracker. *)
Lemma align_returns (s : Tracker) (grayCur depthCur : Buf) :
  well_formed s ->
  exists (s' : Tracker) (r : Vector6f),
    align s grayCur depthCur = Some (s', r) /\ well_formed s'.
Proof.
  intros Hwf.
  pose proof Hwf as (HL & Hmin & HW & HH & Lc & Lp & Lk).
  destruct (fill_pyramid_returns s (d_cur s) grayCur depthCur HL Lc)
    as (cur & Hf).
  pose proof (fill_pyramid_length _ _ _ _ _ Hf) as Lcur.
  assert (Hwf1 : well_formed (set_d_cur cur s)).
  { destruct s. unfold well_formed in *. simpl in *. rewrite Lcur.
    repeat split; tauto. }
  destruct (levels_loop_returns _ Hwf1) as (so & Hl & E & _).
  unfold align. rewrite Hf. cbn [mbind option_bind]. cbv zeta.
  rewrite Hl. cbn [mbind option_bind].
  eexists. eexists. split; [reflexivity|].
  pose proof (well_formed_settings _ _ E Hwf1) as Hwo.
  destruct so. unfold well_formed in *. simpl in *. tauto.
Qed.

End Align.

(** ** Construction *)

Create Rewrite HintDb device.

Section Construction.

Context `{Ext : External}.

Lemma resize_Some {T : Type} (count : Z) (x : T) :
  0 <= count -> resize count x = Some (replicate (Z.to_nat count) x).
Proof.
  intros H. unfold resize. destruct (count <? 0) eqn:E; [lia|reflexivity].
Qed.

Lemma malloc_inv (bytes : Z) (d d' : Device) (p : Buf) :
  malloc bytes d = (p, d') ->
  calls d' = calls d ++ [cudaMalloc bytes] /\ globals d' = globals d.
Proof.
  unfold malloc. intros H. injection H as _ <-. destruct d. auto.
Qed.

Lemma calls_set_d_x_prime (v : Buf) (d : Device) :
  calls (set_d_x_prime v d) = calls d.
Proof. reflexivity. Qed.

Lemma globals_set_d_x_prime (v : Buf) (d : Device) :
  globals (set_d_x_prime v d) = globals d.
Proof. reflexivity. Qed.

Lemma calls_set_d_y_prime (v : Buf) (d : Device) :
  calls (set_d_y_prime v d) = calls d.
Proof. reflexivity. Qed.

Lemma globals_set_d_y_prime (v : Buf) (d : Device) :
  globals (set_d_y_prime v d) = globals d.
Proof. reflexivity. Qed.

Lemma calls_set_d_z_prime (v : Buf) (d : Device) :
  calls (set_d_z_prime v d) = calls d.
Proof. reflexivity. Qed.

Lemma globals_set_d_z_prime (v : Buf) (d : Device) :
  globals (set_d_z_prime v d) = globals d.
Proof. reflexivity. Qed.

Lemma calls_set_d_u_warped (v : Buf) (d : Device) :
  calls (set_d_u_warped v d) = calls d.
Proof. reflexivity. Qed.

Lemma globals_set_d_u_warped (v : Buf) (d : Device) :
  globals (set_d_u_warped v d) = globals d.
Proof. reflexivity. Qed.

Lemma calls_set_d_v_warped (v : Buf) (d : Device) :
  calls (set_d_v_warped v d) = calls d.
Proof. reflexivity. Qed.

Lemma globals_set_d_v_warped (v : Buf) (d : Device) :
  globals (set_d_v_warped v d) = globals d.
Proof. reflexivity. Qed.

Lemma calls_set_d_J (v : Buf) (d : Device) :
  calls (set_d_J v d) = calls d.
Proof. reflexivity. Qed.

Lemma globals_set_d_J (v : Buf) (d : Device) :
  globals (set_d_J v d) = globals d.
Proof. reflexivity. Qed.

Lemma calls_set_d_JTW (v : Buf) (d : Device) :
  calls (set_d_JTW v d) = calls d.
Proof. reflexivity. Qed.

Lemma globals_set_d_JTW (v : Buf) (d : Device) :
  globals (set_d_JTW v d) = globals d.
Proof. reflexivity. Qed.

Lemma calls_set_d_W (v : Buf) (d : Device) :
  calls (set_d_W v d) = calls d.
Proof. reflexivity. Qed.

Lemma globals_set_d_W (v : Buf) (d : Device) :
  globals (set_d_W v d) = globals d.
Proof. reflexivity. Qed.

Lemma calls_set_d_r (v : Buf) (d : Device) :
  calls (set_d_r v d) = calls d.
Proof. reflexivity. Qed.

Lemma globals_set_d_r (v : Buf) (d : Device) :
  globals (set_d_r v d) = globals d.
Proof. reflexivity. Qed.

Lemma calls_set_d_b (v : Buf) (d : Device) :
  calls (set_d_b v d) = calls d.
Proof. reflexivity. Qed.

Lemma globals_set_d_b (v : Buf) (d : Device) :
  globals (set_d_b v d) = globals d.
Proof. reflexivity. Qed.

Lemma calls_set_d_A (v : Buf) (d : Device) :
  calls (set_d_A v d) = calls d.
Proof. reflexivity. Qed.

Lemma globals_set_d_A (v : Buf) (d : Device) :
  globals (set_d_A v d) = globals d.
Proof. reflexivity. Qed.

Lemma calls_set_d_error (v : Buf) (d : Device) :
  calls (set_d_error v d) = calls d.
Proof. reflexivity. Qed.

Lemma globals_set_d_error (v : Buf) (d : Device) :
  globals (set_d_error v d) = globals d.
Proof. reflexivity. Qed.

Lemma calls_set_alloc_pre_b (v : Buf) (d : Device) :
  calls (set_alloc_pre_b v d) = calls d.
Proof. reflexivity. Qed.

Lemma globals_set_alloc_pre_b (v : Buf) (d : Device) :
  globals (set_alloc_pre_b v d) = globals d.
Proof. reflexivity. Qed.

Lemma calls_set_alloc_pre_b_aux (v : Buf) (d : Device) :
  calls (set_alloc_pre_b_aux v d) = calls d.
Proof. reflexivity. Qed.

Lemma globals_set_alloc_pre_b_aux (v : Buf) (d : Device) :
  globals (set_alloc_pre_b_aux v d) = globals d.
Proof. reflexivity. Qed.

Lemma calls_set_d_pre_A (v : Buf) (d : Device) :
  calls (set_d_pre_A v d) = calls d.
Proof. reflexivity. Qed.

Lemma globals_set_d_pre_A (v : Buf) (d : Device) :
  globals (set_d_pre_A v d) = globals d.
Proof. reflexivity. Qed.

Lemma calls_set_d_pre_A_aux (v : Buf) (d : Device) :
  calls (set_d_pre_A_aux v d) = calls d.
Proof. reflexivity. Qed.

Lemma globals_set_d_pre_A_aux (v : Buf) (d : Device) :
  globals (set_d_pre_A_aux v d) = globals d.
Proof. reflexivity. Qed.

#[local] Hint Rewrite
  calls_set_d_x_prime
  globals_set_d_x_prime
  calls_set_d_y_prime
  globals_set_d_y_prime
  calls_set_d_z_prime
  globals_set_d_z_prime
  calls_set_d_u_warped
  globals_set_d_u_warped
  calls_set_d_v_warped
  globals_set_d_v_warped
  calls_set_d_J
  globals_set_d_J
  calls_set_d_JTW
  globals_set_d_JTW
  calls_set_d_W
  globals_set_d_W
  calls_set_d_r
  globals_set_d_r
  calls_set_d_b
  globals_set_d_b
  calls_set_d_A
  globals_set_d_A
  calls_set_d_error
  globals_set_d_error
  calls_set_alloc_pre_b
  globals_set_alloc_pre_b
  calls_set_alloc_pre_b_aux
  globals_set_alloc_pre_b_aux
  calls_set_d_pre_A
  globals_set_d_pre_A
  calls_set_d_pre_A_aux
  globals_set_d_pre_A_aux : device.

(** One allocation: name its results and record what it did. *)
Ltac step_malloc :=
  match goal with
  | |- context [malloc ?bytes ?d] =>
      let p := fresh "p" in
      let d' := fresh "d" in
      let E := fresh "E" in
      let C := fresh "C" in
      let G := fresh "G" in
      destruct (malloc bytes d) as [p d'] eqn:E;
      apply malloc_inv in E as [C G];
      autorewrite with device in C, G;
      cbv beta iota
  end.

Lemma allocate_level_returns (w h a : Z) (cur prev : list PyramidLevel)
    (d : Device) :
  0 <= a <= 30 ->
  a < Z.of_nat (length cur) -> a < Z.of_nat (length prev) ->
  exists cur' prev' d',
    allocate_level a w h (cur, prev, d) = Some (cur', prev', d')
    /\ length cur' = length cur /\ length prev' = length prev
    /\ globals d' = globals d
    /\ calls d' = calls d ++ map cudaMalloc (level_bytes w h a).
Proof.
  intros Ha Hc Hp. unfold allocate_level.
  rewrite !level_dim_Some by lia. cbn [mbind option_bind].
  destruct (at_Some cur a) as (c & ->); [lia|].
  destruct (at_Some prev a) as (p & ->); [lia|].
  cbn [mbind option_bind]. cbv zeta.
  do 8 step_malloc.
  rewrite !assign_Some by lia. cbn [mbind option_bind].
  do 3 eexists. split; [reflexivity|].
  rewrite !length_insert.
  split; [reflexivity|]. split; [reflexivity|].
  split; [congruence|].
  rewrite C6, C5, C4, C3, C2, C1, C0, C.
  rewrite <- !app_assoc. reflexivity.
Qed.

(** The allocations of the pyramid levels [a, a + 1, ..., a + n - 1]. *)
Lemma allocate_levels (w h : Z) :
  forall (n : nat) (a : Z) (cur prev : list PyramidLevel) (d : Device),
    0 <= a -> a + Z.of_nat n <= 31 ->
    a + Z.of_nat n <= Z.of_nat (length cur) ->
    a + Z.of_nat n <= Z.of_nat (length prev) ->
    exists cur' prev' d',
      for_up n a (fun level st => allocate_level level w h st) (cur, prev, d)
      = Some (cur', prev', d')
      /\ length cur' = length cur /\ length prev' = length prev
      /\ globals d' = globals d
      /\ calls d'
         = calls d
           ++ map cudaMalloc
                (flat_map (level_bytes w h)
                   (map (fun i => a + Z.of_nat i) (seq 0 n))).
Proof.
  induction n as [|n IH]; intros a cur prev d Ha Hn Hc Hp.
  - exists cur, prev, d. simpl. rewrite app_nil_r. auto.
  - cbn [for_up].
    destruct (allocate_level_returns w h a cur prev d)
      as (c1 & p1 & d1 & -> & L1 & L2 & G1 & C1); [lia|lia|lia|].
    cbn [mbind option_bind].
    destruct (IH (a + 1) c1 p1 d1)
      as (cur' & prev' & d' & -> & L1' & L2' & G & C); [lia|lia|lia|lia|].
    exists cur', prev', d'. split; [reflexivity|].
    split; [congruence|]. split; [congruence|]. split; [congruence|].
    rewrite C, C1. cbn [seq map flat_map].
    rewrite <- !app_assoc, !map_app. f_equal.
    replace (a + Z.of_nat 0) with a by lia. f_equal.
    rewrite <- seq_shift, map_map.
    f_equal. f_equal. apply map_ext. intros i. lia.
Qed.

Lemma allocateGPUMemory_returns (s : Tracker) :
  0 <= maxLevel s <= 30 ->
  length (d_cur s) = Z.to_nat (maxLevel s + 1) ->
  length (d_prev s) = Z.to_nat (maxLevel s + 1) ->
  exists cur prev d p q,
    allocateGPUMemory s
    = Some (set_d_pre_b_aux q (set_d_pre_b p
              (set_dev d (set_d_prev prev (set_d_cur cur s)))))
    /\ length cur = length (d_cur s) /\ length prev = length (d_prev s)
    /\ globals d = globals (dev s)
    /\ calls d
       = calls (dev s)
         ++ map cudaMalloc
              (construction_bytes (width s) (height s) (maxLevel s)).
Proof.
  intros HL Lc Lp. unfold allocateGPUMemory. cbv zeta.
  do 12 step_malloc.
  unfold for_range.
  match goal with
  | |- context [for_up ?n 0 _ (?c, ?p, ?d)] =>
      destruct (allocate_levels (width s) (height s) n 0 c p d)
        as (cur & prev & d' & -> & L1 & L2 & G' & C'); [lia|lia|lia|lia|]
  end.
  cbn [mbind option_bind]. autorewrite with device in C', G'.
  assert (Hlev : map (fun i => 0 + Z.of_nat i)
                   (seq 0 (Z.to_nat (maxLevel s - 0 + 1)))
                 = map Z.of_nat (seq 0 (Z.to_nat (maxLevel s + 1)))).
  { replace (maxLevel s - 0 + 1) with (maxLevel s + 1) by lia.
    apply map_ext. intros i. lia. }
  rewrite Hlev in C'. clear Hlev.
  assert (Cs : calls d'
                = calls (dev s)
                  ++ map cudaMalloc
                       (scratch_bytes (width s) (height s)
                        ++ flat_map (level_bytes (width s) (height s))
                             (map Z.of_nat
                                (seq 0 (Z.to_nat (maxLevel s + 1)))))).
  { rewrite C', C10, C9, C8, C7, C6, C5, C4, C3, C2, C1, C0, C.
    rewrite map_app, <- !app_assoc. reflexivity. }
  assert (Gs : globals d' = globals (dev s)) by congruence.
  unfold construction_bytes, reduction_bytes.
  destruct ENABLE_CUBLAS.
  - exists cur, prev, d', (d_pre_b s), (d_pre_b_aux s).
    split; [destruct s; reflexivity|].
    split; [exact L1|]. split; [exact L2|]. split; [exact Gs|].
    rewrite Cs, app_nil_r. reflexivity.
  - do 4 step_malloc.
    do 5 eexists. split; [destruct s; reflexivity|].
    split; [exact L1|]. split; [exact L2|].
    autorewrite with device.
    split; [congruence|].
    rewrite C14, C13, C12, C11, Cs.
    rewrite !map_app, <- !app_assoc. reflexivity.
Qed.

Lemma fill_K_levels_returns (K : Matrix3f) (s : Tracker) :
  0 <= maxLevel s ->
  length (K_pyr s) = Z.to_nat (maxLevel s + 1) ->
  length (K_inv_pyr s) = Z.to_nat (maxLevel s + 1) ->
  exists Ks K_invs,
    fill_K_levels K s = Some (set_K_inv_pyr K_invs (set_K_pyr Ks s))
    /\ length Ks = length (K_pyr s)
    /\ length K_invs = length (K_inv_pyr s)
    /\ Ks !! 0%nat = Some K.
Proof.
  intros HL L1 L2. unfold fill_K_levels.
  rewrite assign_Some by lia. cbn [mbind option_bind].
  destruct (at_Some (<[Z.to_nat 0 := K]> (K_pyr s)) 0) as (K0 & ->);
    [rewrite length_insert; lia|].
  cbn [mbind option_bind].
  rewrite assign_Some by lia. cbn [mbind option_bind].
  match goal with
  | |- context [for_range 1 (maxLevel s) ?body ?x] =>
      destruct (for_up_invariant
                  (fun st : list Matrix3f * list Matrix3f =>
                     length (fst st) = length (K_pyr s)
                     /\ length (snd st) = length (K_inv_pyr s)
                     /\ fst st !! 0%nat = Some K)
                  body (Z.to_nat (maxLevel s - 1 + 1)) 1 x)
        as ([Ks K_invs] & H1 & LK & LI & H0)
  end.
  - simpl. rewrite !length_insert. repeat split.
    apply list_lookup_insert_eq. lia.
  - intros l [ks kis] Hl (Hk & Hi & H0). simpl in Hk, Hi, H0.
    destruct (at_Some ks (l - 1)) as (Ka & ->); [lia|].
    cbn [mbind option_bind]. rewrite assign_Some by lia.
    cbn [mbind option_bind].
    destruct (at_Some (<[Z.to_nat l := downsampleK Ka]> ks) l) as (Kl & ->);
      [rewrite length_insert; lia|].
    cbn [mbind option_bind]. rewrite assign_Some by lia.
    cbn [mbind option_bind].
    eexists. split; [reflexivity|]. simpl. rewrite !length_insert.
    repeat split; try assumption.
    rewrite list_lookup_insert_ne by lia. exact H0.
  - unfold for_range. rewrite H1. cbn [mbind option_bind].
    exists Ks, K_invs. simpl in *. auto.
Qed.

Lemma load_K_to_device_returns (s : Tracker) :
  0 <= maxLevel s ->
  length (K_pyr s) = Z.to_nat (maxLevel s + 1) ->
  exists g,
    load_K_to_device s = Some (set_dev (set_globals g (dev s)) s).
Proof.
  intros HL L1. unfold load_K_to_device, for_range.
  destruct (for_up_invariant
              (fun x : Tracker =>
                 exists g, x = set_dev (set_globals g (dev s)) s)
              (fun level s0 =>
                 K_level ← at_ (K_pyr s0) level;
                 Some (set_dev (set_globals
                   (mkGlobals
                      (cudaMemcpy_at (const_K_pyr (globals (dev s0)))
                         (9 * level) K_level 9)
                      (const_RK_inv (globals (dev s0)))
                      (const_translation (globals (dev s0)))
                      (texRef_grayImg (globals (dev s0)))
                      (texRef_gray_dx (globals (dev s0)))
                      (texRef_gray_dy (globals (dev s0)))) (dev s0)) s0))
              (Z.to_nat (maxLevel s - 0 + 1)) 0 s)
    as (s' & H & g & ->).
  - exists (globals (dev s)).
    destruct s as [? ? ? ? ? ? ? ? ? ? ? ? ? ? ? ? ? ? ? ? ? ? []]. reflexivity.
  - intros l x Hl (g & ->).
    destruct (at_Some (K_pyr (set_dev (set_globals g (dev s)) s)) l)
      as (Kl & ->); [destruct s; simpl in *; lia|].
    cbn [mbind option_bind]. eexists. split; [reflexivity|].
    eexists.
    destruct s as [? ? ? ? ? ? ? ? ? ? ? ? ? ? ? ? ? ? ? ? ? ? []]. reflexivity.
  - exists g. exact H.
Qed.

Lemma bind_Some_eq {T U : Type} (f : T -> option U) (x : T) :
  Some x ≫= f = f x.
Proof. reflexivity. Qed.

(** Reduction of the binds whose first computation has returned. *)
Ltac returned := repeat (rewrite bind_Some_eq; cbv beta).

(** Reduction of member accesses on a tracker given by assignments. *)
Ltac members :=
  cbn [solvingMethod maxIterationsPerLevel maxLevel minLevel width height useTDistWeights A b error d_cur d_prev d_pre_b d_pre_b_aux R RK_inv t K_pyr K_inv_pyr xi_delta xi xi_total dev set_A set_b set_error set_d_cur set_d_prev set_d_pre_b set_d_pre_b_aux set_R set_RK_inv set_t set_K_pyr set_K_inv_pyr set_xi_delta set_xi set_xi_total set_dev globals calls set_globals set_calls define_texture_parameters set_textures].

Ltac members_in H :=
  cbn [solvingMethod maxIterationsPerLevel maxLevel minLevel width height useTDistWeights A b error d_cur d_prev d_pre_b d_pre_b_aux R RK_inv t K_pyr K_inv_pyr xi_delta xi xi_total dev set_A set_b set_error set_d_cur set_d_prev set_d_pre_b set_d_pre_b_aux set_R set_RK_inv set_t set_K_pyr set_K_inv_pyr set_xi_delta set_xi set_xi_total set_dev globals calls set_globals set_calls define_texture_parameters set_textures] in H.

(** Construction returns for every pyramid height in the range of the
    shift; nothing else about the arguments is examined. *)
Lemma Tracker_new_returns (grayFirstFrame depthFirstFrame : Buf)
    (w h : Z) (K : Matrix3f) (minL maxL : Z) (useTDist : bool)
    (maxIterations : Z) (method : SolvingMethod) :
  0 <= maxL <= 30 ->
  exists s,
    Tracker_new grayFirstFrame depthFirstFrame w h K minL maxL useTDist
      maxIterations method = Some s
    /\ (solvingMethod s, maxIterationsPerLevel s, maxLevel s, minLevel s,
        width s, height s, useTDistWeights s)
       = (method, maxIterations, maxL, minL, w, h, useTDist)
    /\ xi s = replicate 6 fzero /\ xi_total s = replicate 6 fzero
    /\ K_pyr s !! 0%nat = Some K
    /\ length (d_cur s) = Z.to_nat (maxL + 1)
    /\ length (d_prev s) = Z.to_nat (maxL + 1)
    /\ length (K_inv_pyr s) = Z.to_nat (maxL + 1)
    /\ calls (dev s) = map cudaMalloc (construction_bytes w h maxL).
Proof.
  intros HL. unfold Tracker_new. cbv zeta.
  rewrite !resize_Some by lia. returned.
  match goal with
  | |- context [allocateGPUMemory ?s0] =>
      destruct (allocateGPUMemory_returns s0)
        as (cur & prev & d1 & p & q & E1 & Lc & Lp & G1 & C1);
        [exact HL|apply length_replicate|apply length_replicate|]
  end.
  rewrite E1. clear E1. returned.
  members_in Lc. members_in Lp. members_in C1.
  rewrite length_replicate in Lc, Lp. rewrite app_nil_l in C1.
  match goal with
  | |- context [fill_K_levels K ?s1] =>
      destruct (fill_K_levels_returns K s1)
        as (Ks & K_invs & E2 & LK & LI & HK0);
        [members; lia|apply length_replicate|apply length_replicate|]
  end.
  rewrite E2. clear E2. returned.
  members_in LK. members_in LI.
  rewrite length_replicate in LK, LI.
  match goal with
  | |- context [load_K_to_device ?s2] =>
      destruct (load_K_to_device_returns s2) as (g & E3);
        [members; lia|members; exact LK|]
  end.
  rewrite E3. clear E3. returned.
  match goal with
  | |- context [fill_pyramid ?s3 ?img ?a ?b] =>
      destruct (fill_pyramid_returns s3 img a b) as (pyr & Hf);
        [members; exact HL|members; exact Lp|];
      pose proof (fill_pyramid_length _ _ _ _ _ Hf) as Lf;
      rewrite Hf
  end.
  returned. members_in Lf.
  eexists. split; [reflexivity|]. members.
  split; [reflexivity|]. split; [reflexivity|]. split; [reflexivity|].
  split; [exact HK0|]. split; [exact Lc|].
  split; [rewrite Lf; exact Lp|].
  split; [exact LI|]. exact C1.
Qed.

End Construction.

(** ** Independence from the current-frame pyramid

    Apart from [bind_textures], no step of a level reads [d_cur]: with
    another value in that member every step computes the same and passes
    the member through. *)

Create Rewrite HintDb cur.

Section CurrentPyramid.

Context `{Ext : External}.

Implicit Types (s : Tracker) (c : list PyramidLevel).

Lemma solvingMethod_set_d_cur s c : solvingMethod (set_d_cur c s) = solvingMethod s.
Proof. reflexivity. Qed.

Lemma maxIterationsPerLevel_set_d_cur s c : maxIterationsPerLevel (set_d_cur c s) = maxIterationsPerLevel s.
Proof. reflexivity. Qed.

Lemma maxLevel_set_d_cur s c : maxLevel (set_d_cur c s) = maxLevel s.
Proof. reflexivity. Qed.

Lemma minLevel_set_d_cur s c : minLevel (set_d_cur c s) = minLevel s.
Proof. reflexivity. Qed.

Lemma width_set_d_cur s c : width (set_d_cur c s) = width s.
Proof. reflexivity. Qed.

Lemma height_set_d_cur s c : height (set_d_cur c s) = height s.
Proof. reflexivity. Qed.

Lemma useTDistWeights_set_d_cur s c : useTDistWeights (set_d_cur c s) = useTDistWeights s.
Proof. reflexivity. Qed.

Lemma A_set_d_cur s c : A (set_d_cur c s) = A s.
Proof. reflexivity. Qed.

Lemma b_set_d_cur s c : b (set_d_cur c s) = b s.
Proof. reflexivity. Qed.

Lemma error_set_d_cur s c : error (set_d_cur c s) = error s.
Proof. reflexivity. Qed.

Lemma d_prev_set_d_cur s c : d_prev (set_d_cur c s) = d_prev s.
Proof. reflexivity. Qed.

Lemma d_pre_b_set_d_cur s c : d_pre_b (set_d_cur c s) = d_pre_b s.
Proof. reflexivity. Qed.

Lemma d_pre_b_aux_set_d_cur s c : d_pre_b_aux (set_d_cur c s) = d_pre_b_aux s.
Proof. reflexivity. Qed.

Lemma R_set_d_cur s c : R (set_d_cur c s) = R s.
Proof. reflexivity. Qed.

Lemma RK_inv_set_d_cur s c : RK_inv (set_d_cur c s) = RK_inv s.
Proof. reflexivity. Qed.

Lemma t_set_d_cur s c : t (set_d_cur c s) = t s.
Proof. reflexivity. Qed.

Lemma K_pyr_set_d_cur s c : K_pyr (set_d_cur c s) = K_pyr s.
Proof. reflexivity. Qed.

Lemma K_inv_pyr_set_d_cur s c : K_inv_pyr (set_d_cur c s) = K_inv_pyr s.
Proof. reflexivity. Qed.

Lemma xi_delta_set_d_cur s c : xi_delta (set_d_cur c s) = xi_delta s.
Proof. reflexivity. Qed.

Lemma xi_set_d_cur s c : xi (set_d_cur c s) = xi s.
Proof. reflexivity. Qed.

Lemma xi_total_set_d_cur s c : xi_total (set_d_cur c s) = xi_total s.
Proof. reflexivity. Qed.

Lemma dev_set_d_cur s c : dev (set_d_cur c s) = dev s.
Proof. reflexivity. Qed.

Lemma set_A_set_d_cur (v : Matrix6f) s c :
  set_A v (set_d_cur c s) = set_d_cur c (set_A v s).
Proof. reflexivity. Qed.

Lemma set_b_set_d_cur (v : Vector6f) s c :
  set_b v (set_d_cur c s) = set_d_cur c (set_b v s).
Proof. reflexivity. Qed.

Lemma set_error_set_d_cur (v : float) s c :
  set_error v (set_d_cur c s) = set_d_cur c (set_error v s).
Proof. reflexivity. Qed.

Lemma set_d_prev_set_d_cur (v : list PyramidLevel) s c :
  set_d_prev v (set_d_cur c s) = set_d_cur c (set_d_prev v s).
Proof. reflexivity. Qed.

Lemma set_d_pre_b_set_d_cur (v : BPtr) s c :
  set_d_pre_b v (set_d_cur c s) = set_d_cur c (set_d_pre_b v s).
Proof. reflexivity. Qed.

Lemma set_d_pre_b_aux_set_d_cur (v : BPtr) s c :
  set_d_pre_b_aux v (set_d_cur c s) = set_d_cur c (set_d_pre_b_aux v s).
Proof. reflexivity. Qed.

Lemma set_R_set_d_cur (v : Matrix3f) s c :
  set_R v (set_d_cur c s) = set_d_cur c (set_R v s).
Proof. reflexivity. Qed.

Lemma set_RK_inv_set_d_cur (v : Matrix3f) s c :
  set_RK_inv v (set_d_cur c s) = set_d_cur c (set_RK_inv v s).
Proof. reflexivity. Qed.

Lemma set_t_set_d_cur (v : Vector3f) s c :
  set_t v (set_d_cur c s) = set_d_cur c (set_t v s).
Proof. reflexivity. Qed.

Lemma set_xi_delta_set_d_cur (v : Vector6f) s c :
  set_xi_delta v (set_d_cur c s) = set_d_cur c (set_xi_delta v s).
Proof. reflexivity. Qed.

Lemma set_xi_set_d_cur (v : Vector6f) s c :
  set_xi v (set_d_cur c s) = set_d_cur c (set_xi v s).
Proof. reflexivity. Qed.

Lemma set_xi_total_set_d_cur (v : Vector6f) s c :
  set_xi_total v (set_d_cur c s) = set_d_cur c (set_xi_total v s).
Proof. reflexivity. Qed.

Lemma set_dev_set_d_cur (v : Device) s c :
  set_dev v (set_d_cur c s) = set_d_cur c (set_dev v s).
Proof. reflexivity. Qed.

Lemma publish_pose_set_d_cur s c :
  publish_pose (set_d_cur c s) = set_d_cur c (publish_pose s).
Proof. reflexivity. Qed.

Lemma calculate_jacobian_set_d_cur (level lw lh : Z) s c :
  calculate_jacobian level lw lh (set_d_cur c s)
  = set_d_cur c (calculate_jacobian level lw lh s).
Proof. reflexivity. Qed.

Lemma unbind_textures_set_d_cur s c :
  unbind_textures (set_d_cur c s) = set_d_cur c (unbind_textures s).
Proof. reflexivity. Qed.

#[local] Hint Rewrite solvingMethod_set_d_cur
  maxIterationsPerLevel_set_d_cur
  maxLevel_set_d_cur
  minLevel_set_d_cur
  width_set_d_cur
  height_set_d_cur
  useTDistWeights_set_d_cur
  A_set_d_cur
  b_set_d_cur
  error_set_d_cur
  d_prev_set_d_cur
  d_pre_b_set_d_cur
  d_pre_b_aux_set_d_cur
  R_set_d_cur
  RK_inv_set_d_cur
  t_set_d_cur
  K_pyr_set_d_cur
  K_inv_pyr_set_d_cur
  xi_delta_set_d_cur
  xi_set_d_cur
  xi_total_set_d_cur
  dev_set_d_cur
  set_A_set_d_cur
  set_b_set_d_cur
  set_error_set_d_cur
  set_d_prev_set_d_cur
  set_d_pre_b_set_d_cur
  set_d_pre_b_aux_set_d_cur
  set_R_set_d_cur
  set_RK_inv_set_d_cur
  set_t_set_d_cur
  set_xi_delta_set_d_cur
  set_xi_set_d_cur
  set_xi_total_set_d_cur
  set_dev_set_d_cur
  publish_pose_set_d_cur calculate_jacobian_set_d_cur
  unbind_textures_set_d_cur : cur.

Lemma transform_points_set_d_cur (level lw lh : Z) s c :
  transform_points level lw lh (set_d_cur c s)
  = set_d_cur c <$> transform_points level lw lh s.
Proof.
  unfold transform_points. autorewrite with cur.
  destruct (at_ (d_prev s) level) as [prev|]; [|reflexivity].
  cbn [mbind option_bind].
  destruct (d_transform_points _ _ _ _ _ _ _) as [[[[x y] z] u] v].
  reflexivity.
Qed.

Lemma calculate_residuals_set_d_cur (level lw lh : Z) s c :
  calculate_residuals level lw lh (set_d_cur c s)
  = set_d_cur c <$> calculate_residuals level lw lh s.
Proof.
  unfold calculate_residuals. autorewrite with cur.
  destruct (at_ (d_prev s) level) as [prev|]; reflexivity.
Qed.

Lemma calculate_error_set_d_cur (level lw lh : Z) s c :
  calculate_error level lw lh (set_d_cur c s)
  = set_d_cur c <$> calculate_error level lw lh s.
Proof.
  unfold calculate_error. autorewrite with cur.
  destruct ENABLE_CUBLAS; [reflexivity|].
  cbn [malloc].
  match goal with
  | |- context [sum_passes ?f ?g ?a ?b ?x ?n] =>
      destruct (sum_passes f g a b x n) as [[a1 a2]|]; reflexivity
  end.
Qed.

Lemma calculate_weights_set_d_cur (level lw lh : Z) (v : float) (u : bool)
    s c :
  calculate_weights level lw lh v u (set_d_cur c s)
  = (fun r => (set_d_cur c (fst r), snd r))
      <$> calculate_weights level lw lh v u s.
Proof.
  unfold calculate_weights. autorewrite with cur.
  destruct u; cbn [negb]; cbv iota zeta; [|reflexivity].
  destruct (tdist_passes 4 lw lh v 0 (dev s)) as [[[[vi v1] its] d1]|];
    reflexivity.
Qed.

Lemma calculate_A_set_d_cur (level lw lh : Z) s c :
  calculate_A level lw lh (set_d_cur c s)
  = set_d_cur c <$> calculate_A level lw lh s.
Proof.
  unfold calculate_A. autorewrite with cur.
  destruct ENABLE_CUBLAS; [reflexivity|].
  match goal with
  | |- context [reduce_A_passes ?f ?g ?a ?b ?x ?n] =>
      destruct (reduce_A_passes f g a b x n) as [[a1 a2]|]; reflexivity
  end.
Qed.

Lemma calculate_b_set_d_cur (level lw lh : Z) s c :
  calculate_b level lw lh (set_d_cur c s)
  = set_d_cur c <$> calculate_b level lw lh s.
Proof.
  unfold calculate_b. autorewrite with cur.
  destruct ENABLE_CUBLAS; [reflexivity|].
  match goal with
  | |- context [reduce_b_passes ?f ?p ?q ?x ?n ?e] =>
      destruct (reduce_b_passes f p q x n e) as [[[p1 q1] d1]|]; reflexivity
  end.
Qed.

Lemma iteration_set_d_cur (level lw lh : Z) (v : float) s c :
  iteration level lw lh v (set_d_cur c s)
  = (fun r => (set_d_cur c (fst r), snd r)) <$> iteration level lw lh v s.
Proof.
  unfold iteration. autorewrite with cur.
  destruct (convertSE3ToT (xi s)) as [R' t']. cbv zeta.
  autorewrite with cur.
  destruct (at_ (K_inv_pyr (set_t t' (set_R R' s))) level) as [K_inv|];
    [|reflexivity].
  cbn [mbind option_bind]. autorewrite with cur.
  rewrite transform_points_set_d_cur.
  destruct (transform_points level lw lh _) as [s1|]; [|reflexivity].
  cbn [mbind option_bind fmap option_map option_fmap].
  rewrite calculate_residuals_set_d_cur.
  destruct (calculate_residuals level lw lh s1) as [s2|]; [|reflexivity].
  cbn [mbind option_bind fmap option_map option_fmap].
  autorewrite with cur.
  rewrite calculate_error_set_d_cur.
  destruct (calculate_error level lw lh _) as [s3|]; [|reflexivity].
  cbn [mbind option_bind fmap option_map option_fmap].
  autorewrite with cur.
  rewrite calculate_weights_set_d_cur.
  destruct (calculate_weights level lw lh v _ s3) as [[s4 v4]|];
    [|reflexivity].
  cbn [mbind option_bind fmap option_map option_fmap fst snd].
  rewrite calculate_A_set_d_cur.
  destruct (calculate_A level lw lh s4) as [s5|]; [|reflexivity].
  cbn [mbind option_bind fmap option_map option_fmap].
  rewrite calculate_b_set_d_cur.
  destruct (calculate_b level lw lh s5) as [s6|]; [|reflexivity].
  cbn [mbind option_bind fmap option_map option_fmap].
  autorewrite with cur. reflexivity.
Qed.

Lemma iterations_set_d_cur :
  forall (n : nat) (level lw lh : Z) (e0 v : float) s c,
    iterations n level lw lh e0 v (set_d_cur c s)
    = set_d_cur c <$> iterations n level lw lh e0 v s.
Proof.
  induction n as [|n IH]; intros level lw lh e0 v s c; [reflexivity|].
  cbn [iterations]. rewrite iteration_set_d_cur.
  destruct (iteration level lw lh v s) as [[s1 v1]|]; [|reflexivity].
  cbn [mbind option_bind fmap option_map option_fmap fst snd].
  autorewrite with cur.
  destruct (error_test (error s1) e0); [reflexivity|].
  apply IH.
Qed.

Lemma d_cur_set_d_cur s c : d_cur (set_d_cur c s) = c.
Proof. reflexivity. Qed.

Lemma bind_textures_blank (level lw lh : Z) s :
  bind_textures level lw lh (without_current_depth s)
  = without_current_depth <$> bind_textures level lw lh s.
Proof.
  unfold bind_textures, without_current_depth.
  rewrite d_cur_set_d_cur. unfold at_.
  destruct (0 <=? level); [|reflexivity].
  rewrite list_lookup_fmap.
  destruct (d_cur s !! Z.to_nat level) as [cur|]; reflexivity.
Qed.

Lemma iterations_d_cur (n : nat) (level lw lh : Z) (e0 v : float) s s' :
  iterations n level lw lh e0 v s = Some s' -> d_cur s' = d_cur s.
Proof.
  intros H. apply iterations_spec in H as (k & v' & _ & Hrun & _).
  apply body_run_settings in Hrun as [E _].
  unfold settings in E. injection E as _ _ _ _ _ _ _ E _. exact E.
Qed.

Lemma process_level_blank (level : Z) s :
  process_level level (without_current_depth s)
  = without_current_depth <$> process_level level s.
Proof.
  unfold process_level.
  change (width (without_current_depth s)) with (width s).
  change (height (without_current_depth s)) with (height s).
  destruct (level_dim (width s) level) as [lw|]; [|reflexivity].
  destruct (level_dim (height s) level) as [lh|]; [|reflexivity].
  cbn [mbind option_bind]. cbv zeta.
  rewrite bind_textures_blank.
  destruct (bind_textures level lw lh s) as [sb|]; [|reflexivity].
  cbn [mbind option_bind fmap option_map option_fmap].
  change (maxIterationsPerLevel (without_current_depth sb))
    with (maxIterationsPerLevel sb).
  unfold without_current_depth at 1. rewrite iterations_set_d_cur.
  destruct (iterations _ level lw lh BIG_FLOAT VARIANCE_INITIAL sb)
    as [sk|] eqn:Hk; [|reflexivity].
  cbn [mbind option_bind fmap option_map option_fmap].
  apply iterations_d_cur in Hk.
  unfold without_current_depth.
  change (d_cur (unbind_textures sk)) with (d_cur sk).
  rewrite Hk. reflexivity.
Qed.

Lemma process_levels_blank :
  forall (levels : list Z) s,
    process_levels levels (without_current_depth s)
    = without_current_depth <$> process_levels levels s.
Proof.
  induction levels as [|l levels IH]; intros s; [reflexivity|].
  cbn [process_levels]. rewrite process_level_blank.
  destruct (process_level l s) as [s1|]; [|reflexivity].
  cbn [mbind option_bind fmap option_map option_fmap]. apply IH.
Qed.

(** *** The pyramid of the new frame *)

Lemma blank_depth_eq (a1 a2 : PyramidLevel) :
  blank_depth a1 = blank_depth a2 ->
  gray a1 = gray a2 /\ gray_dx a1 = gray_dx a2 /\ gray_dy a1 = gray_dy a2.
Proof. unfold blank_depth. intros H. injection H as -> -> ->. auto. Qed.

Lemma same_intensity_at (p1 p2 : list PyramidLevel) (i : Z) :
  same_intensity p1 p2 ->
  option_Forall2 (fun a1 a2 => blank_depth a1 = blank_depth a2)
    (at_ p1 i) (at_ p2 i).
Proof.
  unfold same_intensity, at_. intros H.
  destruct (0 <=? i); [|constructor].
  assert (E : blank_depth <$> p1 !! Z.to_nat i
              = blank_depth <$> p2 !! Z.to_nat i)
    by (rewrite <- !list_lookup_fmap; f_equal; exact H).
  destruct (p1 !! Z.to_nat i), (p2 !! Z.to_nat i);
    cbn [fmap option_fmap option_map] in E;
    try discriminate; constructor.
  congruence.
Qed.

Lemma same_intensity_assign (p1 p2 : list PyramidLevel) (i : Z)
    (a1 a2 : PyramidLevel) :
  same_intensity p1 p2 -> blank_depth a1 = blank_depth a2 ->
  option_Forall2 same_intensity (assign p1 i a1) (assign p2 i a2).
Proof.
  unfold same_intensity, assign. intros H Ha.
  assert (L : length p1 = length p2)
    by (rewrite <- (length_map blank_depth p1), H; apply length_map).
  rewrite L.
  destruct ((0 <=? i) && (i <? Z.of_nat (length p2))); constructor.
  change (blank_depth <$> <[Z.to_nat i:=a1]> p1
          = blank_depth <$> <[Z.to_nat i:=a2]> p2).
  rewrite !list_fmap_insert. change (map blank_depth p1) with (blank_depth <$> p1) in H.
  change (map blank_depth p2) with (blank_depth <$> p2) in H.
  rewrite H, Ha. reflexivity.
Qed.

Lemma option_Forall2_bind {T1 T2 U1 U2 : Type} (RT : T1 -> T2 -> Prop)
    (RU : U1 -> U2 -> Prop) (m1 : option T1) (m2 : option T2)
    (f1 : T1 -> option U1) (f2 : T2 -> option U2) :
  option_Forall2 RT m1 m2 ->
  (forall x1 x2, RT x1 x2 -> option_Forall2 RU (f1 x1) (f2 x2)) ->
  option_Forall2 RU (m1 ≫= f1) (m2 ≫= f2).
Proof.
  intros Hm Hf. destruct Hm as [x1 x2 Hx|]; [|constructor].
  cbn [mbind option_bind]. apply Hf. exact Hx.
Qed.

Lemma for_up_related {T : Type} (RT : T -> T -> Prop)
    (body : Z -> T -> option T) :
  (forall l x1 x2, RT x1 x2 -> option_Forall2 RT (body l x1) (body l x2)) ->
  forall (n : nat) (a : Z) (x1 x2 : T),
    RT x1 x2 ->
    option_Forall2 RT (for_up n a body x1) (for_up n a body x2).
Proof.
  intros Hbody. induction n as [|n IH]; intros a x1 x2 Hx.
  - constructor. exact Hx.
  - cbn [for_up]. eapply option_Forall2_bind; [apply Hbody; exact Hx|].
    intros y1 y2 Hy. apply IH. exact Hy.
Qed.

(** The intensity and gradient rasters of the pyramid do not depend on the
    depth image, and neither does the success of [fill_pyramid]. *)
Lemma fill_pyramid_same_intensity s (d_img : list PyramidLevel)
    (grayImg depth1 depth2 : Buf) :
  option_Forall2 same_intensity
    (fill_pyramid s d_img grayImg depth1)
    (fill_pyramid s d_img grayImg depth2).
Proof.
  unfold fill_pyramid. cbv zeta.
  destruct (at_ d_img 0) as [base|]; [|constructor].
  cbn [mbind option_bind].
  eapply option_Forall2_bind.
  { apply same_intensity_assign; reflexivity. }
  intros p1 p2 Hp.
  eapply option_Forall2_bind.
  { unfold for_range. apply for_up_related; [|exact Hp].
    intros l x1 x2 Hx.
    destruct (level_dim (width s) l) as [lw|]; [|constructor].
    destruct (level_dim (height s) l) as [lh|]; [|constructor].
    cbn [mbind option_bind].
    eapply option_Forall2_bind; [apply same_intensity_at; exact Hx|].
    intros src1 src2 Hsrc.
    eapply option_Forall2_bind; [apply same_intensity_at; exact Hx|].
    intros dst1 dst2 Hdst.
    apply same_intensity_assign; [exact Hx|].
    apply blank_depth_eq in Hsrc as (-> & _ & _).
    apply blank_depth_eq in Hdst as (-> & -> & ->).
    reflexivity. }
  intros q1 q2 Hq.
  unfold for_range. apply for_up_related; [|exact Hq].
  intros l x1 x2 Hx.
  destruct (level_dim (width s) l) as [lw|]; [|constructor].
  destruct (level_dim (height s) l) as [lh|]; [|constructor].
  cbn [mbind option_bind].
  eapply option_Forall2_bind; [apply same_intensity_at; exact Hx|].
  intros img1 img2 Himg.
  apply blank_depth_eq in Himg as (-> & -> & ->).
  destruct (image_derivatives_CUDA _ _ _ _ _ _) as [dx dy].
  apply same_intensity_assign; [exact Hx|reflexivity].
Qed.

(** Two calls that differ in the depth image only: both return or neither
    does, they return the same vector, and they leave the same tracker up
    to the depth rasters of the frame just stored. *)
Lemma align_depth_independent s (grayCur depth1 depth2 : Buf) :
  (fun r => (without_previous_depth (fst r), snd r))
    <$> align s grayCur depth1
  = (fun r => (without_previous_depth (fst r), snd r))
      <$> align s grayCur depth2.
Proof.
  unfold align.
  destruct (fill_pyramid_same_intensity s (d_cur s) grayCur depth1 depth2)
    as [cur1 cur2 Hcur|]; [|reflexivity].
  cbn [mbind option_bind]. cbv zeta.
  rewrite !for_range_down_levels.
  change (levels_descending (minLevel (set_d_cur cur1 s))
            (maxLevel (set_d_cur cur1 s)))
    with (levels_descending (minLevel s) (maxLevel s)).
  change (levels_descending (minLevel (set_d_cur cur2 s))
            (maxLevel (set_d_cur cur2 s)))
    with (levels_descending (minLevel s) (maxLevel s)).
  pose proof (process_levels_blank
                (levels_descending (minLevel s) (maxLevel s))
                (set_d_cur cur1 s)) as H1.
  pose proof (process_levels_blank
                (levels_descending (minLevel s) (maxLevel s))
                (set_d_cur cur2 s)) as H2.
  assert (E : without_current_depth (set_d_cur cur1 s)
              = without_current_depth (set_d_cur cur2 s)).
  { unfold without_current_depth. rewrite !d_cur_set_d_cur.
    unfold same_intensity in Hcur. rewrite Hcur. reflexivity. }
  rewrite E, H2 in H1. clear E H2.
  destruct (process_levels _ (set_d_cur cur1 s)) as [so1|],
           (process_levels _ (set_d_cur cur2 s)) as [so2|];
    try discriminate; [|reflexivity].
  cbn [mbind option_bind fmap option_map option_fmap fst snd] in *.
  assert (H1' : without_current_depth so1 = without_current_depth so2)
    by congruence.
  clear H1.
  pose (finish := fun x : Tracker =>
          (set_xi_total (accumulate (xi_total x) (xi x))
             (set_d_prev (d_cur x) (set_d_cur (d_prev x) x)),
           accumulate (xi_total x) (xi x))).
  transitivity (Some (finish (without_current_depth so1)));
    [destruct so1; reflexivity|].
  rewrite H1'. destruct so2; reflexivity.
Qed.

End CurrentPyramid.

(** ** The scale estimation of the Student-t weights *)

Section Weights.

Context `{Ext : External}.

(** [variance_run] unfolded at its first pass. *)
Lemma variance_run_first :
  forall (k : nat) (lw lh : Z) (v : float) (d : Device),
    variance_run (S k) lw lh v d
    = '(v1, d1) ← variance_pass lw lh v d; variance_run k lw lh v1 d1.
Proof.
  induction k as [|k IH]; intros lw lh v d.
  - simpl. destruct (variance_pass lw lh v d) as [[v1 d1]|]; reflexivity.
  - change (variance_run (S (S k)) lw lh v d)
      with ('(v', d') ← variance_run (S k) lw lh v d;
            variance_pass lw lh v' d').
    rewrite IH.
    destruct (variance_pass lw lh v d) as [[v1 d1]|]; reflexivity.
Qed.

Lemma variance_at_next (k : nat) (lw lh : Z) (v v1 : float)
    (d d1 : Device) :
  variance_pass lw lh v d = Some (v1, d1) ->
  variance_at (S k) lw lh v d = variance_at k lw lh v1 d1.
Proof.
  intros H. unfold variance_at. rewrite variance_run_first, H. reflexivity.
Qed.

Lemma variance_test_at_first (lw lh : Z) (v v1 : float) (d d1 : Device) :
  variance_pass lw lh v d = Some (v1, d1) ->
  variance_test_at 0 lw lh v d = Some (variance_test v1 v).
Proof.
  intros H. unfold variance_test_at, variance_at. simpl. rewrite H.
  reflexivity.
Qed.

Lemma variance_test_at_next (j : nat) (lw lh : Z) (v v1 : float)
    (d d1 : Device) :
  variance_pass lw lh v d = Some (v1, d1) ->
  variance_test_at (S j) lw lh v d = variance_test_at j lw lh v1 d1.
Proof.
  intros H. unfold variance_test_at.
  rewrite !(variance_at_next _ _ _ _ _ _ _ H). reflexivity.
Qed.

(** The [do ... while] loop makes [p] passes, [1 <= p], and counts them in
    [iterations]; every pass before the last one ended with the test
    true; the last pass ended with the count at [5] or the test false.
    The results are the variances after [p - 1] and after [p] passes. *)
Lemma tdist_passes_spec :
  forall (more : nat) (lw lh : Z) (v : float) (its : Z) (d : Device)
         (vi v' : float) (its' : Z) (d' : Device),
    tdist_passes more lw lh v its d = Some (vi, v', its', d') ->
    exists p : nat,
      its' = its + Z.of_nat (S p)
      /\ variance_run (S p) lw lh v d = Some (v', d')
      /\ variance_at p lw lh v d = Some vi
      /\ (forall j, (j < p)%nat ->
                    variance_test_at j lw lh v d = Some true)
      /\ (variance_test v' vi = false \/ 5 <= its').
Proof.
  induction more as [|more IH]; intros lw lh v its d vi v' its' d' H;
    cbn [tdist_passes] in H;
    (destruct (variance_pass lw lh v d) as [[v1 d1]|] eqn:Hp;
       [|discriminate]);
    cbn [mbind option_bind] in H; cbv zeta in H;
    destruct (variance_test v1 v && (its + 1 <? 5)) eqn:Ht.
  - discriminate.
  - injection H as <- <- <- <-. exists O.
    split; [lia|]. split; [simpl; rewrite Hp; reflexivity|].
    split; [reflexivity|]. split; [intros j Hj; lia|].
    apply andb_false_iff in Ht as [Ht|Ht]; [left; exact Ht|].
    right. apply Z.ltb_ge in Ht. lia.
  - apply IH in H as (p & E & Hrun & Hat & Hbefore & Hlast).
    apply andb_true_iff in Ht as [Ht _].
    exists (S p). split; [lia|].
    split; [rewrite variance_run_first, Hp; exact Hrun|].
    split; [rewrite (variance_at_next _ _ _ _ _ _ _ Hp); exact Hat|].
    split; [|exact Hlast].
    intros [|j] Hj.
    + rewrite (variance_test_at_first _ _ _ _ _ _ Hp), Ht. reflexivity.
    + rewrite (variance_test_at_next _ _ _ _ _ _ _ Hp). apply Hbefore. lia.
  - injection H as <- <- <- <-. exists O.
    split; [lia|]. split; [simpl; rewrite Hp; reflexivity|].
    split; [reflexivity|]. split; [intros j Hj; lia|].
    apply andb_false_iff in Ht as [Ht|Ht]; [left; exact Ht|].
    right. apply Z.ltb_ge in Ht. lia.
Qed.

(** With the Student-t weights, [calculate_weights] is this loop started
    from the variance passed in, and the reference parameter receives the
    last variance. *)
Lemma calculate_weights_tdist (level lw lh : Z) (v v' : float)
    (s s' : Tracker) :
  calculate_weights level lw lh v true s = Some (s', v') ->
  exists (vi : float) (its : Z) (d' : Device),
    tdist_passes 4 lw lh v 0 (dev s) = Some (vi, v', its, d').
Proof.
  unfold calculate_weights. cbn [negb]. cbv iota zeta. intros H.
  destruct (tdist_passes 4 lw lh v 0 (dev s)) as [[[[vi v1] its] d1]|];
    [|discriminate].
  cbn [mbind option_bind] in H. injection H as _ <-. eauto.
Qed.

(** Without them the reference parameter keeps its value. *)
Lemma calculate_weights_uniform (level lw lh : Z) (v v' : float)
    (s s' : Tracker) :
  calculate_weights level lw lh v false s = Some (s', v') -> v' = v.
Proof.
  unfold calculate_weights. cbn [negb]. cbv iota. intros H.
  injection H as _ <-. reflexivity.
Qed.

(** The variance that a pass of the inner loop hands on is the one that
    its call of [calculate_weights] left in the reference parameter. *)
Lemma iteration_weights (level lw lh : Z) (v v' : float) (s s' : Tracker) :
  iteration level lw lh v s = Some (s', v') ->
  exists sw sw',
    calculate_weights level lw lh v (useTDistWeights s) sw = Some (sw', v').
Proof.
  unfold iteration. intros H.
  destruct (convertSE3ToT (xi s)) as [R' t'].
  cbv zeta in H.
  apply bind_Some in H as (K_inv & HK & H).
  apply bind_Some in H as (s1 & H1 & H).
  apply bind_Some in H as (s2 & H2 & H).
  apply bind_Some in H as (s3 & H3 & H).
  apply bind_Some in H as ([s4 v4] & H4 & H).
  apply bind_Some in H as (s5 & H5 & H).
  apply bind_Some in H as (s6 & H6 & H).
  injection H as _ <-.
  apply transform_points_inv in H1 as (d1 & -> & _).
  apply calculate_residuals_inv in H2 as (d2 & -> & _).
  destruct (calculate_jacobian_inv level lw lh
              (set_dev d2 (set_dev d1 (publish_pose
                 (set_RK_inv (mat3_mul (R (set_t t' (set_R R' s))) K_inv)
                    (set_t t' (set_R R' s)))))))
    as (d3 & E3 & _).
  rewrite E3 in H3. clear E3.
  apply calculate_error_inv in H3 as (d4 & -> & _).
  exists (set_dev d4 (set_dev d3 (set_dev d2 (set_dev d1 (publish_pose
            (set_RK_inv (mat3_mul (R (set_t t' (set_R R' s))) K_inv)
               (set_t t' (set_R R' s)))))))), s4.
  replace (useTDistWeights s)
    with (useTDistWeights
            (set_dev d4 (set_dev d3 (set_dev d2 (set_dev d1 (publish_pose
               (set_RK_inv (mat3_mul (R (set_t t' (set_R R' s))) K_inv)
                  (set_t t' (set_R R' s)))))))))
    by (destruct s; reflexivity).
  exact H4.
Qed.

End Weights.

(** ** Allocation during a level *)

Section LevelAllocations.

Context `{Ext : External}.

Lemma iterations_mallocs :
  forall (n : nat) (level lw lh : Z) (e0 v : float) (s s' : Tracker),
    iterations (S n) level lw lh e0 v s = Some s' ->
    ENABLE_CUBLAS = false ->
    (mallocs (calls (dev s)) + 2 <= mallocs (calls (dev s')))%nat.
Proof.
  intros n level lw lh e0 v s s' H Hc.
  cbn [iterations] in H.
  destruct (iteration level lw lh v s) as [[s1 v1]|] eqn:Hi; [|discriminate].
  cbn [mbind option_bind] in H.
  apply iteration_inv in Hi as (_ & _ & _ & _ & _ & M).
  specialize (M Hc).
  destruct (error_test (error s1) e0).
  - injection H as <-. exact M.
  - apply iterations_spec in H as (k & v' & _ & Hrun & _).
    apply body_run_settings in Hrun as [_ T].
    apply temporaries_only_mallocs in T. lia.
Qed.

Lemma process_level_mallocs (level : Z) (s s' : Tracker) :
  process_level level s = Some s' ->
  ENABLE_CUBLAS = false -> 1 <= maxIterationsPerLevel s ->
  (mallocs (calls (dev s)) + 2 <= mallocs (calls (dev s')))%nat.
Proof.
  intros H Hc Hn.
  apply process_level_inv in H as (lw & lh & sb & sk & _ & _ & Hb & Hk & ->).
  apply bind_textures_inv in Hb as (_ & g & ->).
  destruct (Z.to_nat (maxIterationsPerLevel s)) as [|n] eqn:En; [lia|].
  apply iterations_mallocs in Hk; [|exact Hc].
  destruct (unbind_textures_inv sk) as (g' & ->).
  destruct (set_globals_inv g s) as (_ & _ & _ & _ & _ & C1).
  destruct (set_globals_inv g' sk) as (_ & _ & _ & _ & _ & C2).
  cbv zeta in *. rewrite C2, <- C1. exact Hk.
Qed.

Lemma levels_descending_cons (a b : Z) :
  a <= b ->
  levels_descending a b = b :: levels_descending a (b - 1).
Proof.
  intros H. unfold levels_descending.
  replace (Z.to_nat (b - a + 1)) with (S (Z.to_nat (b - 1 - a + 1))) by lia.
  cbn [seq map]. f_equal; [lia|].
  rewrite <- seq_shift, map_map. apply map_ext. intros i. lia.
Qed.

End LevelAllocations.

(** ** The depth image is stored at the base of the pyramid *)

Section Upload.

Context `{Ext : External}.

Lemma fill_pyramid_base (s : Tracker) (d_img cur : list PyramidLevel)
    (g d : Buf) :
  fill_pyramid s d_img g d = Some cur ->
  exists base stored,
    d_img !! 0%nat = Some base
    /\ cur !! 0%nat = Some stored
    /\ depth stored = cudaMemcpy (depth base) d (width s * height s).
Proof.
  unfold fill_pyramid. intros H. cbv zeta in H.
  apply bind_Some in H as (base & Hb & H).
  apply bind_Some in H as (img0 & H0 & H).
  apply bind_Some in H as (img1 & H1 & H).
  exists base.
  pose (P := fun imgs : list PyramidLevel =>
               exists stored, imgs !! 0%nat = Some stored
                 /\ depth stored
                    = cudaMemcpy (depth base) d (width s * height s)).
  assert (P0 : P img0).
  { apply assign_inv in H0 as [Hi ->]. eexists. split.
    - apply list_lookup_insert_eq. lia.
    - reflexivity. }
  assert (P1 : P img1).
  { unfold for_range in H1.
    apply (for_up_preserves P _ _ _ _ _ P0) in H1; [exact H1|].
    intros l x x' Hl (st & Hst & Hd) Hbody.
    apply bind_Some in Hbody as (lw & _ & Hbody).
    apply bind_Some in Hbody as (lh & _ & Hbody).
    apply bind_Some in Hbody as (src & _ & Hbody).
    apply bind_Some in Hbody as (dst & _ & Hbody).
    apply assign_inv in Hbody as [Hi ->].
    exists st. split; [|exact Hd].
    rewrite list_lookup_insert_ne by lia. exact Hst. }
  assert (P2 : P cur).
  { unfold for_range in H.
    apply (for_up_preserves P _ _ _ _ _ P1) in H; [exact H|].
    intros l x x' Hl (st & Hst & Hd) Hbody.
    apply bind_Some in Hbody as (lw & _ & Hbody).
    apply bind_Some in Hbody as (lh & _ & Hbody).
    apply bind_Some in Hbody as (img & Himg & Hbody).
    destruct (image_derivatives_CUDA _ _ _ _ _ _) as [dx dy].
    apply assign_inv in Hbody as [Hi ->].
    destruct (Z.eq_dec l 0) as [->|Hne].
    - change (at_ x 0) with (x !! 0%nat) in Himg.
      assert (img = st) by congruence. subst img.
      eexists. split; [apply list_lookup_insert_eq; lia|exact Hd].
    - exists st. split; [|exact Hd].
      rewrite list_lookup_insert_ne by lia. exact Hst. }
  destruct P2 as (stored & Hs & Hd). exists stored.
  split; [|split; [exact Hs|exact Hd]].
  exact Hb.
Qed.

End Upload.

(** ** Passes of a level *)

Section Passes.

Context `{Ext : External}.

(** A level makes [k] passes, at most [maxIterationsPerLevel] and at
    least one when that bound is positive; [k] is the first pass whose
    exit test holds.  The loop starts from [BIG_FLOAT] and
    [VARIANCE_INITIAL] at every level. *)
Lemma process_level_passes (level : Z) (s s2 : Tracker) :
  process_level level s = Some s2 ->
  exists (lw lh : Z) (sb sk : Tracker) (k : nat) (v : float),
    level_dim (width s) level = Some lw
    /\ level_dim (height s) level = Some lh
    /\ bind_textures level lw lh s = Some sb
    /\ (k <= Z.to_nat (maxIterationsPerLevel s))%nat
    /\ (1 <= maxIterationsPerLevel s -> (1 <= k)%nat)
    /\ body_run k level lw lh VARIANCE_INITIAL sb = Some (sk, v)
    /\ s2 = unbind_textures sk
    /\ (forall j, (S j < k)%nat ->
          exit_at j level lw lh BIG_FLOAT VARIANCE_INITIAL sb = Some false)
    /\ ((k < Z.to_nat (maxIterationsPerLevel s))%nat ->
        exists j, k = S j
          /\ exit_at j level lw lh BIG_FLOAT VARIANCE_INITIAL sb = Some true).
Proof.
  intros H.
  apply process_level_inv in H as (lw & lh & sb & sk & Hw & Hh & Hb & Hk & ->).
  apply iterations_spec in Hk as (k & v & Hle & Hrun & Hbefore & Hexit).
  exists lw, lh, sb, sk, k, v.
  repeat split; try assumption.
  intros Hn. destruct k as [|k]; [|lia].
  destruct Hexit as (j & Hj & _); [lia|discriminate].
Qed.

(** The last pass of [k + 1] passes is a pass of [iteration]. *)
Lemma body_run_last (k : nat) (level lw lh : Z) (v v' : float)
    (s s' : Tracker) :
  body_run (S k) level lw lh v s = Some (s', v') ->
  exists sk vk,
    body_run k level lw lh v s = Some (sk, vk)
    /\ iteration level lw lh vk sk = Some (s', v').
Proof.
  cbn [body_run]. intros H.
  apply bind_Some in H as ([sk vk] & Hrun & Hi). eauto.
Qed.

(** Every pass below the number of passes made is a pass of
    [iteration] from the state left by the passes before it. *)
Lemma body_run_pass :
  forall (k : nat) (level lw lh : Z) (v vk : float) (s sk : Tracker),
    body_run k level lw lh v s = Some (sk, vk) ->
    forall j, (j < k)%nat ->
      exists sj vj sj' vj',
        body_run j level lw lh v s = Some (sj, vj)
        /\ iteration level lw lh vj sj = Some (sj', vj')
        /\ body_run (S j) level lw lh v s = Some (sj', vj').
Proof.
  induction k as [|k IH]; intros level lw lh v vk s sk H j Hj; [lia|].
  pose proof H as Hlast.
  apply body_run_last in Hlast as (s0 & v0 & Hrun & Hi).
  destruct (Nat.eq_dec j k) as [E|NE].
  - subst j. exists s0, v0, sk, vk. auto.
  - apply (IH _ _ _ _ _ _ _ Hrun). lia.
Qed.

(** A level whose first pass passes the exit test makes that pass and
    no other. *)
Lemma first_iteration_ends_level (level : Z) (s s1 : Tracker) (v1 : float) :
  first_iteration level s = Some (s1, v1) ->
  error_test (error s1) BIG_FLOAT = true ->
  1 <= maxIterationsPerLevel s ->
  process_level level s = Some (unbind_textures s1).
Proof.
  unfold first_iteration, process_level. intros H Ht Hn.
  apply bind_Some in H as (lw & Hw & H).
  apply bind_Some in H as (lh & Hh & H).
  apply bind_Some in H as (sb & Hb & H).
  rewrite Hw. cbn [mbind option_bind]. rewrite Hh. cbn [mbind option_bind].
  cbv zeta. rewrite Hb. cbn [mbind option_bind].
  pose proof Hb as Hg. apply bind_textures_inv in Hg as (_ & g & Eg).
  replace (maxIterationsPerLevel sb) with (maxIterationsPerLevel s)
    by (rewrite Eg; destruct s; reflexivity).
  destruct (Z.to_nat (maxIterationsPerLevel s)) as [|n] eqn:En; [lia|].
  cbn [iterations]. rewrite H. cbn [mbind option_bind]. rewrite Ht.
  reflexivity.
Qed.

(** The first pass of a level composes its step with the estimate the
    level was entered with. *)
Lemma first_iteration_inv (level : Z) (s s1 : Tracker) (v1 : float) :
  first_iteration level s = Some (s1, v1) ->
  xi s1 = compose_left (vneg (ldlt_solve (A s1) (b s1))) (xi s)
  /\ (ENABLE_CUBLAS = false ->
      (mallocs (calls (dev s)) + 2 <= mallocs (calls (dev s1)))%nat).
Proof.
  unfold first_iteration. intros H.
  apply bind_Some in H as (lw & Hw & H).
  apply bind_Some in H as (lh & Hh & H).
  apply bind_Some in H as (sb & Hb & H).
  apply bind_textures_inv in Hb as (_ & g & ->).
  apply iteration_inv in H as (_ & _ & Hx & _ & _ & M).
  destruct (set_globals_inv g s) as (_ & Ex & _ & _ & _ & Ec).
  cbv zeta in Ex, Ec. rewrite Ex in Hx. rewrite Ec in M. auto.
Qed.

(** The number of passes of the [do ... while] loop. *)
Lemma tdist_passes_bound :
  forall (more : nat) (lw lh : Z) (v : float) (its : Z) (d : Device)
         (vi v' : float) (its' : Z) (d' : Device),
    tdist_passes more lw lh v its d = Some (vi, v', its', d') ->
    its < its' <= Z.max (its + 1) 5.
Proof.
  induction more as [|more IH]; intros lw lh v its d vi v' its' d' H;
    cbn [tdist_passes] in H;
    (destruct (variance_pass lw lh v d) as [[v1 d1]|] eqn:Hp;
       [|discriminate]);
    cbn [mbind option_bind] in H; cbv zeta in H;
    destruct (variance_test v1 v && (its + 1 <? 5)) eqn:Ht.
  - discriminate.
  - injection H as <- <- <- <-. lia.
  - apply IH in H. apply andb_true_iff in Ht as [_ Ht].
    apply Z.ltb_lt in Ht. lia.
  - injection H as <- <- <- <-. lia.
Qed.

(** The levels visited, in order. *)
Lemma levels_descending_length (a b : Z) :
  length (levels_descending a b) = Z.to_nat (b - a + 1).
Proof. unfold levels_descending. rewrite length_map, length_seq. reflexivity. Qed.

Lemma levels_descending_lookup (a b : Z) (i : nat) (level : Z) :
  levels_descending a b !! i = Some level -> level = b - Z.of_nat i.
Proof.
  unfold levels_descending.
  change (map ?f ?l) with (f <$> l).
  rewrite list_lookup_fmap. intros H.
  destruct (seq 0 (Z.to_nat (b - a + 1)) !! i) as [k|] eqn:Hk;
    [|discriminate].
  apply lookup_seq in Hk as [-> _].
  cbn in H. injection H as <-. reflexivity.
Qed.

(** In the build without cuBLAS every processed level allocates. *)
Lemma process_levels_mallocs (level : Z) (rest : list Z) (s s' : Tracker) :
  process_levels (level :: rest) s = Some s' ->
  ENABLE_CUBLAS = false -> 1 <= maxIterationsPerLevel s ->
  (mallocs (calls (dev s)) + 2 <= mallocs (calls (dev s')))%nat.
Proof.
  cbn [process_levels]. intros H Hc Hn.
  apply bind_Some in H as (s1 & H1 & H).
  apply process_level_mallocs in H1; [|exact Hc|exact Hn].
  apply process_levels_settings in H as [_ T].
  apply temporaries_only_mallocs in T. lia.
Qed.

Lemma temporaries_only_cublas (h h' : list CudaCall) :
  ENABLE_CUBLAS = true -> temporaries_only h h' -> h' = h.
Proof.
  intros Hc (extra & -> & _ & E). rewrite (E Hc). apply app_nil_r.
Qed.

(** What a call of [align] computes and what it does to the allocation
    history. *)
Lemma align_result (s : Tracker) (grayCur depthCur : Buf) :
  well_formed s ->
  exists (s' so : Tracker) (cur : list PyramidLevel),
    align s grayCur depthCur = Some (s', xi_total s')
    /\ well_formed s'
    /\ fill_pyramid s (d_cur s) grayCur depthCur = Some cur
    /\ process_levels (levels_descending (minLevel s) (maxLevel s))
         (set_d_cur cur s) = Some so
    /\ xi s' = xi so
    /\ xi_total s' = accumulate (xi_total s) (xi so)
    /\ calls (dev s') = calls (dev so).
Proof.
  intros Hwf.
  destruct (align_returns s grayCur depthCur Hwf) as (s' & r & H & Hwf').
  pose proof H as Hinv.
  apply align_inv in Hinv as (cur & so & Hf & Hl & Es & Er).
  pose proof Hl as Hset.
  apply process_levels_settings in Hset as [E _].
  assert (Et : xi_total so = xi_total s).
  { unfold settings in E. injection E as _ _ _ _ _ _ _ _ _ _ _ E.
    rewrite E. destruct s; reflexivity. }
  exists s', so, cur.
  assert (Ex : xi_total s' = r) by (subst s' r; destruct so; reflexivity).
  split; [rewrite Ex; exact H|]. split; [exact Hwf'|].
  split; [exact Hf|]. split; [exact Hl|].
  split; [subst s'; destruct so; reflexivity|].
  split; [rewrite Ex, Er, Et; reflexivity|].
  subst s'. destruct so; reflexivity.
Qed.

(** A negative [maxLevel] makes the constructor throw
    [std::length_error] from [resize], or index an empty vector in
    [fill_K_levels] when it is [-1]. *)
Lemma resize_negative {T : Type} (count : Z) (x : T) :
  count < 0 -> resize count x = None.
Proof.
  intros H. unfold resize.
  replace (count <? 0) with true by (symmetry; apply Z.ltb_lt; lia).
  reflexivity.
Qed.

Lemma fill_K_levels_empty (K : Matrix3f) (s : Tracker) :
  K_pyr s = [] -> fill_K_levels K s = None.
Proof. intros E. unfold fill_K_levels. rewrite E. reflexivity. Qed.

Lemma Tracker_new_negative_level (g0 d0 : Buf) (w h : Z) (K : Matrix3f)
    (minL maxL : Z) (useTDist : bool) (maxIterations : Z)
    (method : SolvingMethod) :
  maxL < 0 ->
  Tracker_new g0 d0 w h K minL maxL useTDist maxIterations method = None.
Proof.
  intros H. unfold Tracker_new. cbv zeta.
  destruct (Z.eq_dec (maxL + 1) 0) as [E|NE].
  - rewrite E.
    assert (R0 : forall (T : Type) (x : T), resize 0 x = Some [])
      by reflexivity.
    rewrite !R0. repeat (rewrite bind_Some_eq; cbv beta).
    destruct (allocateGPUMemory _) as [s1|]; [|reflexivity].
    repeat (rewrite bind_Some_eq; cbv beta).
    rewrite fill_K_levels_empty; [reflexivity|].
    destruct s1; reflexivity.
  - rewrite (resize_negative (maxL + 1) null_level) by lia. reflexivity.
Qed.

End Passes.

(** * The claims *)

(** ** C1 *)

(** C1: after the optimisation over the levels, [align] stores
    [xi_total = log(exp(xi_total) * exp(xi)^-1)], where [xi] is the
    inter-frame estimate left by the levels, and returns that
    [xi_total]. *)
Theorem align_accumulates_inverse_increment `{Ext : External}
    (s : Tracker) (grayCur depthCur : Buf) :
  well_formed s ->
  exists (s' so : Tracker) (cur : list PyramidLevel),
    align s grayCur depthCur = Some (s', xi_total s')
    /\ fill_pyramid s (d_cur s) grayCur depthCur = Some cur
    /\ process_levels (levels_descending (minLevel s) (maxLevel s))
         (set_d_cur cur s) = Some so
    /\ xi s' = xi so
    /\ xi_total s'
       = lieLog (mat4_mul (lieExp (xi_total s))
                          (mat4_inverse (lieExp (xi so)))).
Proof.
  intros Hwf.
  destruct (align_returns s grayCur depthCur Hwf) as (s' & r & H & _).
  pose proof H as Hinv.
  apply align_inv in Hinv as (cur & so & Hf & Hl & Es & Er).
  pose proof Hl as Hset.
  apply process_levels_settings in Hset as [E _].
  assert (Et : xi_total so = xi_total s).
  { unfold settings in E. injection E as _ _ _ _ _ _ _ _ _ _ _ E.
    rewrite E. destruct s; reflexivity. }
  exists s', so, cur.
  assert (Ex : xi_total s' = r) by (subst s' r; destruct so; reflexivity).
  split; [rewrite Ex; exact H|].
  split; [exact Hf|]. split; [exact Hl|].
  split; [subst s'; destruct so; reflexivity|].
  rewrite Ex, Er, Et. reflexivity.
Qed.

Lemma align_accumulates_inverse_increment_witness :
  exists s0 : Tracker,
    Tracker_new (Ext := Demo.hand_written) (Demo.pixel 1) (Demo.pixel 1)
      1 1 Demo.K 0 0 false 20 GAUSS_NEWTON = Some s0
    /\ well_formed s0
    /\ exists (s' so : Tracker) (cur : list PyramidLevel),
         align (Ext := Demo.hand_written) s0 (Demo.pixel 3) (Demo.pixel 0)
         = Some (s', xi_total s')
         /\ fill_pyramid (Ext := Demo.hand_written) s0 (d_cur s0)
              (Demo.pixel 3) (Demo.pixel 0) = Some cur
         /\ process_levels (Ext := Demo.hand_written)
              (levels_descending (minLevel s0) (maxLevel s0))
              (set_d_cur cur s0) = Some so
         /\ xi s' = xi so
         /\ xi_total s'
            = lieLog (External := Demo.hand_written)
                (mat4_mul (External := Demo.hand_written)
                   (lieExp (External := Demo.hand_written) (xi_total s0))
                   (mat4_inverse (External := Demo.hand_written)
                      (lieExp (External := Demo.hand_written) (xi so)))).
Proof.
  eexists. split; [vm_compute; reflexivity|].
  match goal with
  | |- well_formed ?s /\ _ =>
      assert (W : well_formed s) by solve_well_formed
  end.
  split; [exact W|].
  exact (align_accumulates_inverse_increment (Ext := Demo.hand_written)
           _ (Demo.pixel 3) (Demo.pixel 0) W).
Defined.

(** ** C2 *)


Section OnePixelPasses.

#[local] Existing Instance Demo.hand_written.


End OnePixelPasses.

(** ** C9 *)

(** C9: a pass assigns [xi] before its exit test is evaluated, so the
    state a level leaves is the state after the former; with
    [maxIterationsPerLevel >= 1] a level ends after a last pass [j],
    [xi] is then the left composition computed by that pass, and if the
    level ended before the bound it ended because the exit test of that
    pass held. *)
Theorem level_keeps_last_update `{Ext : External}
    (level : Z) (s s2 : Tracker) :
  process_level level s = Some s2 ->
  1 <= maxIterationsPerLevel s ->
  (forall (n : nat) (lw lh : Z) (e v v' : float) (sa sa' : Tracker),
     iteration level lw lh v sa = Some (sa', v') ->
     iterations (S n) level lw lh e v sa
     = if error_test (error sa') e then Some sa'
       else iterations n level lw lh (error sa') v' sa')
  /\ exists (lw lh : Z) (sb sj sl : Tracker) (j : nat) (vj vl : float),
       bind_textures level lw lh s = Some sb
       /\ (S j <= Z.to_nat (maxIterationsPerLevel s))%nat
       /\ body_run j level lw lh VARIANCE_INITIAL sb = Some (sj, vj)
       /\ iteration level lw lh vj sj = Some (sl, vl)
       /\ s2 = unbind_textures sl
       /\ xi s2
          = lieLog (mat4_mul (lieExp (vneg (ldlt_solve (A sl) (b sl))))
                             (lieExp (xi sj)))
       /\ ((S j < Z.to_nat (maxIterationsPerLevel s))%nat ->
           exit_at j level lw lh BIG_FLOAT VARIANCE_INITIAL sb = Some true).
Proof.
  intros H Hmax. split.
  { intros n lw lh e v v' sa sa' Hi. cbn [iterations]. rewrite Hi.
    reflexivity. }
  apply process_level_passes in H
    as (lw & lh & sb & sk & k & v & _ & _ & Hb & Hle & Hone & Hrun & E
        & _ & Hexit).
  specialize (Hone Hmax). destruct k as [|j]; [lia|].
  pose proof Hrun as Hlast.
  apply body_run_last in Hlast as (sj & vj & Hj & Hi).
  exists lw, lh, sb, sj, sk, j, vj, v.
  split; [exact Hb|]. split; [exact Hle|]. split; [exact Hj|].
  split; [exact Hi|]. split; [exact E|]. split.
  - apply iteration_inv in Hi as (_ & _ & Hx & _).
    rewrite E. transitivity (xi sk); [destruct sk; reflexivity|exact Hx].
  - intros Hlt. destruct (Hexit Hlt) as (j' & Ej & Ht).
    injection Ej as <-. exact Ht.
Qed.

Section OnePixelLastUpdate.

#[local] Existing Instance Demo.hand_written.

Lemma level_keeps_last_update_witness :
  exists (s0 s2 : Tracker) (cur : list PyramidLevel),
    Tracker_new (Demo.pixel 1) (Demo.pixel 1) 1 1 Demo.K 0 0 false 20
      GAUSS_NEWTON = Some s0
    /\ fill_pyramid s0 (d_cur s0) (Demo.pixel 5) (Demo.pixel 0) = Some cur
    /\ process_level 0 (set_d_cur cur s0) = Some s2
    /\ 1 <= maxIterationsPerLevel (set_d_cur cur s0)
    /\ exists (lw lh : Z) (sb sj sl : Tracker) (j : nat) (vj vl : float),
         bind_textures 0 lw lh (set_d_cur cur s0) = Some sb
         /\ (S j <= Z.to_nat (maxIterationsPerLevel (set_d_cur cur s0)))%nat
         /\ body_run j 0 lw lh VARIANCE_INITIAL sb = Some (sj, vj)
         /\ iteration 0 lw lh vj sj = Some (sl, vl)
         /\ s2 = unbind_textures sl
         /\ xi s2
            = lieLog (mat4_mul
                        (lieExp (vneg (ldlt_solve (A sl) (b sl))))
                        (lieExp (xi sj)))
         /\ ((S j < Z.to_nat (maxIterationsPerLevel (set_d_cur cur s0)))%nat
             -> exit_at j 0 lw lh BIG_FLOAT VARIANCE_INITIAL sb = Some true).
Proof.
  do 3 eexists.
  split; [vm_compute; reflexivity|].
  split; [vm_compute; reflexivity|].
  match goal with
  | |- ?P /\ ?Q /\ _ =>
      assert (H : P) by (vm_compute; reflexivity);
      assert (Hmax : Q) by (vm_compute; discriminate)
  end.
  split; [exact H|]. split; [exact Hmax|].
  exact (proj2 (level_keeps_last_update 0 _ _ H Hmax)).
Defined.

End OnePixelLastUpdate.

(** ** C10 *)

(** C10: [align] copies its depth argument into level 0 of the pyramid
    that becomes [d_prev] when it returns, and reads it nowhere else: two
    calls on the same tracker that differ in the depth argument only
    return the same pose and leave trackers that differ at most in the
    depth rasters of [d_prev], which the warping of the next call
    reads. *)
Theorem align_ignores_depth_argument `{Ext : External}
    (s s1 : Tracker) (grayCur depth1 depth2 : Buf) (r1 : Vector6f) :
  align s grayCur depth1 = Some (s1, r1) ->
  (exists s2,
     align s grayCur depth2 = Some (s2, r1)
     /\ without_previous_depth s1 = without_previous_depth s2)
  /\ exists base stored,
       d_cur s !! 0%nat = Some base
       /\ d_prev s1 !! 0%nat = Some stored
       /\ depth stored
          = cudaMemcpy (depth base) depth1 (width s * height s).
Proof.
  intros H. split.
  - pose proof (align_depth_independent s grayCur depth1 depth2) as E.
    rewrite H in E.
    destruct (align s grayCur depth2) as [[s2 r2]|]; [|discriminate].
    cbn [fmap option_fmap option_map fst snd] in E.
    assert (E' : (without_previous_depth s1, r1)
                 = (without_previous_depth s2, r2)) by congruence.
    pose proof (f_equal fst E') as E1. pose proof (f_equal snd E') as E2.
    cbn [fst snd] in E1, E2.
    exists s2. rewrite <- E2. auto.
  - apply align_inv in H as (cur & so & Hf & Hl & Es & _).
    apply fill_pyramid_base in Hf as (base & stored & Hb & Hs & Hd).
    apply process_levels_settings in Hl as [E _].
    assert (Ec : d_cur so = cur).
    { unfold settings in E. injection E as _ _ _ _ _ _ _ Ec _ _ _ _.
      rewrite Ec.
      destruct s; reflexivity. }
    exists base, stored.
    split; [exact Hb|]. split; [|exact Hd].
    subst s1. rewrite <- Ec in Hs. destruct so; exact Hs.
Qed.

Section OnePixelDepth.

#[local] Existing Instance Demo.hand_written.

Lemma align_ignores_depth_argument_witness :
  exists (s0 s1 : Tracker) (r1 : Vector6f),
    Tracker_new (Demo.pixel 1) (Demo.pixel 1) 1 1 Demo.K 0 0 false 20
      GAUSS_NEWTON = Some s0
    /\ align s0 (Demo.pixel 3) (Demo.pixel 7) = Some (s1, r1)
    /\ (exists s2,
          align s0 (Demo.pixel 3) (Demo.pixel 0) = Some (s2, r1)
          /\ without_previous_depth s1 = without_previous_depth s2)
    /\ exists base stored,
         d_cur s0 !! 0%nat = Some base
         /\ d_prev s1 !! 0%nat = Some stored
         /\ depth stored
            = cudaMemcpy (depth base) (Demo.pixel 7) (width s0 * height s0).
Proof.
  do 3 eexists.
  split; [vm_compute; reflexivity|].
  match goal with
  | |- ?P /\ _ => assert (H : P) by (vm_compute; reflexivity)
  end.
  split; [exact H|].
  exact (align_ignores_depth_argument _ _ _ _ (Demo.pixel 0) _ H).
Defined.

End OnePixelDepth.

(** ** C3 *)

Section OnePixelIndefinite.

#[local] Existing Instance Demo.hand_written.

(** C3, as the specification has it, fails: the first pass over a frame
    brighter than the first one assembles [A = diag(1, 0, 0, 0, 0, 0)],
    which is not positive definite, yet the pass replaces [xi] and the
    level goes on to its second pass from the replaced estimate. *)
Lemma indefinite_system_not_rejected :
  exists (s0 sb s1 : Tracker) (cur : list PyramidLevel) (v1 : float),
    Tracker_new (Demo.pixel 1) (Demo.pixel 1) 1 1 Demo.K 0 0 false 20
      GAUSS_NEWTON = Some s0
    /\ fill_pyramid s0 (d_cur s0) (Demo.pixel 3) (Demo.pixel 0) = Some cur
    /\ bind_textures 0 1 1 (set_d_cur cur s0) = Some sb
    /\ iteration 0 1 1 VARIANCE_INITIAL sb = Some (s1, v1)
    /\ ~ positive_definite (A s1)
    /\ xi s1 <> xi sb
    /\ iterations 20 0 1 1 BIG_FLOAT VARIANCE_INITIAL sb
       = iterations 19 0 1 1 (error s1) v1 s1.
Proof.
  do 5 eexists.
  split; [vm_compute; reflexivity|].
  split; [vm_compute; reflexivity|].
  split; [vm_compute; reflexivity|].
  split; [vm_compute; reflexivity|].
  split.
  { intros H.
    destruct (H Demo.e2) as (q & Hq & Hpos).
    - reflexivity.
    - exists 1%nat. split; [lia|]. vm_compute. intros E. discriminate E.
    - vm_compute in Hq. injection Hq as <-.
      vm_compute in Hpos. discriminate Hpos. }
  split; [vm_compute; intros E; discriminate E|].
  vm_compute. reflexivity.
Qed.

End OnePixelIndefinite.

(** C3, amended: nothing tests [A] or the factorisation.  When the
    assembled [A] is not positive definite the pass still replaces [xi]
    by [log(exp(-ldlt_solve(A, b)) * exp(xi))], and whether the level
    ends is decided by the error test alone, as in every other pass. *)
Theorem indefinite_system_step_is_applied `{Ext : External}
    (level lw lh : Z) (v v' : float) (s s' : Tracker) :
  iteration level lw lh v s = Some (s', v') ->
  ~ positive_definite (A s') ->
  xi s'
  = lieLog (mat4_mul (lieExp (vneg (ldlt_solve (A s') (b s'))))
                     (lieExp (xi s)))
  /\ forall (n : nat) (e : float),
       iterations (S n) level lw lh e v s
       = if error_test (error s') e then Some s'
         else iterations n level lw lh (error s') v' s'.
Proof.
  intros H _. split.
  - apply iteration_inv in H as (_ & _ & Hx & _). exact Hx.
  - intros n e. cbn [iterations]. rewrite H. reflexivity.
Qed.

Section OnePixelStep.

#[local] Existing Instance Demo.hand_written.

Lemma indefinite_system_step_is_applied_witness :
  exists (s0 sb s1 : Tracker) (cur : list PyramidLevel) (v1 : float),
    Tracker_new (Demo.pixel 1) (Demo.pixel 1) 1 1 Demo.K 0 0 false 20
      GAUSS_NEWTON = Some s0
    /\ fill_pyramid s0 (d_cur s0) (Demo.pixel 3) (Demo.pixel 0) = Some cur
    /\ bind_textures 0 1 1 (set_d_cur cur s0) = Some sb
    /\ iteration 0 1 1 VARIANCE_INITIAL sb = Some (s1, v1)
    /\ ~ positive_definite (A s1)
    /\ xi s1
       = lieLog (mat4_mul (lieExp (vneg (ldlt_solve (A s1) (b s1))))
                          (lieExp (xi sb)))
    /\ forall (n : nat) (e : float),
         iterations (S n) 0 1 1 e VARIANCE_INITIAL sb
         = if error_test (error s1) e then Some s1
           else iterations n 0 1 1 (error s1) v1 s1.
Proof.
  do 5 eexists.
  split; [vm_compute; reflexivity|].
  split; [vm_compute; reflexivity|].
  split; [vm_compute; reflexivity|].
  match goal with
  | |- ?P /\ _ => assert (H : P) by (vm_compute; reflexivity)
  end.
  split; [exact H|].
  match goal with
  | |- ?P /\ _ => assert (N : P)
  end.
  { intros D.
    destruct (D Demo.e2) as (q & Hq & Hpos).
    - reflexivity.
    - exists 1%nat. split; [lia|]. vm_compute. intros E. discriminate E.
    - vm_compute in Hq. injection Hq as <-.
      vm_compute in Hpos. discriminate Hpos. }
  split; [exact N|].
  exact (indefinite_system_step_is_applied 0 1 1 _ _ _ _ H N).
Defined.

End OnePixelStep.

(** ** C4 *)

Section OnePixelOverflow.

#[local] Existing Instance Demo.hand_written.


End OnePixelOverflow.


Section OnePixelLevels.

#[local] Existing Instance Demo.hand_written.


End OnePixelLevels.

(** ** C5 *)

Section OnePixelScale.

#[local] Existing Instance Demo.hand_written.


End OnePixelScale.


Section OnePixelWeights.

#[local] Existing Instance Demo.hand_written.


End OnePixelWeights.

(** ** C6 *)

Section OnePixelZeroDepth.

#[local] Existing Instance Demo.hand_written.

(** C6, as the specification has it, fails: the frame before left a
    pyramid whose depth is zero everywhere, so the next call has no
    valid pixel, and yet that call makes a pass at the level, with its
    two temporary allocations, and returns a pose other than the
    [xi_total] held before the call, the estimate [xi] kept from the
    frame before being composed into it once more. *)
Lemma zero_depth_changes_accumulated_pose :
  exists (s0 s1 s2 : Tracker) (r1 r2 : Vector6f),
    Tracker_new (Demo.pixel 1) (Demo.pixel 1) 1 1 Demo.K 0 0 false 20
      GAUSS_NEWTON = Some s0
    /\ align s0 (Demo.pixel 3) (Demo.pixel 0) = Some (s1, r1)
    /\ depth <$> d_prev s1 = [Demo.pixel 0]
    /\ align s1 (Demo.pixel 9) (Demo.pixel 0) = Some (s2, r2)
    /\ r2 <> xi_total s1
    /\ (mallocs (calls (dev s1)) + 2 <= mallocs (calls (dev s2)))%nat.
Proof.
  do 5 eexists.
  split; [vm_compute; reflexivity|].
  split; [vm_compute; reflexivity|].
  split; [vm_compute; reflexivity|].
  split; [vm_compute; reflexivity|].
  split; [vm_compute; intros E; discriminate E|].
  vm_compute. repeat constructor.
Qed.

End OnePixelZeroDepth.

(** C6, amended: a level is never skipped.  A level whose first pass
    reads back a zero error, which is what a level without a valid pixel
    gives when the kernels zero the residuals of invalid pixels, makes
    that one pass, [xi] is replaced by the composition with the solved
    step as in any pass, and the level ends by [error == 0].  A call on
    a well-formed tracker returns a pose, which is
    [log(exp(xi_total) * exp(xi)^-1)] for the [xi] left by the levels
    and not the [xi_total] held before. *)
Theorem zero_error_level_runs_one_pass `{Ext : External}
    (s : Tracker) (grayCur depthCur : Buf) :
  well_formed s ->
  (exists (s' so : Tracker) (cur : list PyramidLevel),
     align s grayCur depthCur = Some (s', xi_total s')
     /\ fill_pyramid s (d_cur s) grayCur depthCur = Some cur
     /\ process_levels (levels_descending (minLevel s) (maxLevel s))
          (set_d_cur cur s) = Some so
     /\ xi_total s' = accumulate (xi_total s) (xi so))
  /\ forall (level : Z) (sl s1 : Tracker) (v1 : float),
       first_iteration level sl = Some (s1, v1) ->
       feq (error s1) (float_of_int 0) = true ->
       1 <= maxIterationsPerLevel sl ->
       process_level level sl = Some (unbind_textures s1)
       /\ xi (unbind_textures s1)
          = compose_left (vneg (ldlt_solve (A s1) (b s1))) (xi sl)
       /\ (ENABLE_CUBLAS = false ->
           (mallocs (calls (dev sl)) + 2
            <= mallocs (calls (dev (unbind_textures s1))))%nat).
Proof.
  intros Hwf. split.
  - destruct (align_result s grayCur depthCur Hwf)
      as (s' & so & cur & H & _ & Hf & Hl & _ & Ht & _).
    exists s', so, cur. auto.
  - intros level sl s1 v1 H1 He Hn.
    split.
    + apply (first_iteration_ends_level level sl s1 v1 H1); [|exact Hn].
      unfold error_test. rewrite He. apply orb_true_r.
    + apply first_iteration_inv in H1 as [Hx M].
      destruct (unbind_textures_inv s1) as (g & ->).
      destruct (set_globals_inv g s1) as (_ & Ex & _ & _ & _ & Ec).
      cbv zeta in Ex, Ec. rewrite Ex, Ec. auto.
Qed.

Section OnePixelDegenerate.

#[local] Existing Instance Demo.hand_written.

Lemma zero_error_level_runs_one_pass_witness :
  exists (s0 s1 sa : Tracker) (r1 : Vector6f) (cur : list PyramidLevel)
         (va : float),
    Tracker_new (Demo.pixel 1) (Demo.pixel 1) 1 1 Demo.K 0 0 false 20
      GAUSS_NEWTON = Some s0
    /\ align s0 (Demo.pixel 3) (Demo.pixel 0) = Some (s1, r1)
    /\ well_formed s1
    /\ fill_pyramid s1 (d_cur s1) (Demo.pixel 9) (Demo.pixel 0) = Some cur
    /\ first_iteration 0 (set_d_cur cur s1) = Some (sa, va)
    /\ feq (error sa) (float_of_int 0) = true
    /\ 1 <= maxIterationsPerLevel (set_d_cur cur s1)
    /\ (exists (s' so : Tracker) (cur' : list PyramidLevel),
          align s1 (Demo.pixel 9) (Demo.pixel 0) = Some (s', xi_total s')
          /\ fill_pyramid s1 (d_cur s1) (Demo.pixel 9) (Demo.pixel 0)
             = Some cur'
          /\ process_levels
               (levels_descending (minLevel s1) (maxLevel s1))
               (set_d_cur cur' s1) = Some so
          /\ xi_total s' = accumulate (xi_total s1) (xi so))
    /\ process_level 0 (set_d_cur cur s1) = Some (unbind_textures sa).
Proof.
  do 6 eexists.
  split; [vm_compute; reflexivity|].
  split; [vm_compute; reflexivity|].
  match goal with
  | |- well_formed ?s /\ _ =>
      assert (W : well_formed s) by solve_well_formed
  end.
  split; [exact W|].
  split; [vm_compute; reflexivity|].
  match goal with
  | |- ?P /\ ?Q /\ ?R /\ _ =>
      assert (H1 : P) by (vm_compute; reflexivity);
      assert (H2 : Q) by (vm_compute; reflexivity);
      assert (H3 : R) by (vm_compute; intros E; discriminate E)
  end.
  split; [exact H1|]. split; [exact H2|]. split; [exact H3|].
  pose proof (zero_error_level_runs_one_pass _ (Demo.pixel 9) (Demo.pixel 0)
                W) as [P1 P2].
  split; [exact P1|].
  exact (proj1 (P2 0 _ _ _ H1 H2 H3)).
Defined.

End OnePixelDegenerate.

(** ** C7 *)

Section OnePixelConstruction.

#[local] Existing Instance Demo.hand_written.


End OnePixelConstruction.


Section SingularIntrinsics.

#[local] Existing Instance Demo.with_cublas.


End SingularIntrinsics.

(** ** C8 *)

Section OnePixelAllocations.

#[local] Existing Instance Demo.hand_written.


End OnePixelAllocations.


Section OnePixelHistory.

#[local] Existing Instance Demo.with_cublas.


End OnePixelHistory.

(** * Further properties of the controller *)

(** ** The destructor and the allocations of a lifetime *)

Section Lifetime.

Context `{Ext : External}.

Lemma free_calls (d : Device) : calls (free d) = calls d ++ [cudaFree].
Proof. destruct d; reflexivity. Qed.

Lemma free_globals (d : Device) : globals (free d) = globals d.
Proof. destruct d; reflexivity. Qed.

Lemma frees_replicate (n : nat) :
  frees (replicate n cudaFree) = n /\ mallocs (replicate n cudaFree) = O.
Proof.
  induction n as [|n [IH1 IH2]]; [split; reflexivity|].
  unfold frees, mallocs in *. cbn. rewrite IH1, IH2. split; reflexivity.
Qed.

Lemma mallocs_map (l : list Z) :
  mallocs (map cudaMalloc l) = length l /\ frees (map cudaMalloc l) = O.
Proof.
  induction l as [|x l [IH1 IH2]]; [split; reflexivity|].
  unfold frees, mallocs in *. cbn. rewrite IH1, IH2. split; reflexivity.
Qed.

(** The loop of [deallocateGPUMemory] over [n] levels from [a]. *)
Lemma free_levels (cur prev : list PyramidLevel) :
  forall (n : nat) (a : Z) (d : Device),
    0 <= a ->
    (Z.to_nat a + n <= length cur)%nat ->
    (Z.to_nat a + n <= length prev)%nat ->
    exists d',
      for_up n a
        (fun level d =>
           _ ← at_ cur level;
           _ ← at_ prev level;
           Some (free (free (free (free (free (free (free (free d)))))))))
        d = Some d'
      /\ calls d' = calls d ++ replicate (8 * n) cudaFree
      /\ globals d' = globals d.
Proof.
  induction n as [|n IH]; intros a d Ha Hc Hp.
  - exists d. cbn. rewrite app_nil_r. auto.
  - cbn [for_up].
    destruct (at_Some cur a) as (x & ->); [lia|].
    destruct (at_Some prev a) as (y & ->); [lia|].
    cbn [mbind option_bind].
    destruct (IH (a + 1) (free (free (free (free (free (free (free
                (free d))))))))) as (d' & H & Hcalls & Hg); try lia.
    exists d'. split; [exact H|]. split.
    + rewrite Hcalls, !free_calls, <- !app_assoc.
      f_equal. replace (8 * S n)%nat with (8 + 8 * n)%nat by lia.
      reflexivity.
    + rewrite Hg, !free_globals. reflexivity.
Qed.

(** [deallocateGPUMemory] returns on every tracker whose pyramid vectors
    have [maxLevel + 1] levels and records one release per working array
    and per raster. *)
Lemma deallocateGPUMemory_returns (s : Tracker) :
  0 <= maxLevel s ->
  length (d_cur s) = Z.to_nat (maxLevel s + 1) ->
  length (d_prev s) = Z.to_nat (maxLevel s + 1) ->
  exists d,
    deallocateGPUMemory s = Some (set_dev d s)
    /\ calls d
       = calls (dev s)
         ++ replicate (12 + 8 * Z.to_nat (maxLevel s + 1)) cudaFree
    /\ globals d = globals (dev s).
Proof.
  intros HL Hc Hp. unfold deallocateGPUMemory. cbv zeta.
  unfold for_range.
  destruct (free_levels (d_cur s) (d_prev s)
              (Z.to_nat (maxLevel s - 0 + 1)) 0
              (free (free (free (free (free (free (free (free (free (free
                 (free (free (dev s))))))))))))))
    as (d & H & Hcalls & Hg); try lia.
  rewrite H. cbn [mbind option_bind].
  exists d. split; [reflexivity|]. split.
  - rewrite Hcalls, !free_calls, <- !app_assoc. f_equal.
    replace (maxLevel s - 0 + 1) with (maxLevel s + 1) by lia.
    reflexivity.
  - rewrite Hg, !free_globals. reflexivity.
Qed.

(** A call of [align] on a well-formed tracker returns a well-formed
    tracker with the same [maxLevel] and a history extended by balanced
    temporaries. *)
Lemma align_keeps_balance (s : Tracker) (grayCur depthCur : Buf) :
  well_formed s ->
  exists (s' : Tracker) (r : Vector6f),
    align s grayCur depthCur = Some (s', r)
    /\ well_formed s'
    /\ maxLevel s' = maxLevel s
    /\ temporaries_only (calls (dev s)) (calls (dev s')).
Proof.
  intros Hwf.
  destruct (align_result s grayCur depthCur Hwf)
    as (s' & so & cur & H & Hwf' & Hf & Hl & _ & _ & Ec).
  exists s', (xi_total s').
  split; [exact H|]. split; [exact Hwf'|].
  pose proof H as Hi.
  apply align_inv in Hi as (cur' & so' & Hf' & Hl' & Es & _).
  apply process_levels_settings in Hl' as [E T].
  split.
  - unfold settings in E. injection E as _ _ EM _.
    subst s'. transitivity (maxLevel so'); [destruct so'; reflexivity|].
    rewrite EM. destruct s; reflexivity.
  - subst s'.
    replace (calls (dev (set_d_cur cur' s))) with (calls (dev s)) in T
      by (destruct s; reflexivity).
    destruct so'; exact T.
Qed.

Lemma align_all_returns :
  forall (frames : list (Buf * Buf)) (s : Tracker),
    well_formed s ->
    exists (s' : Tracker) (poses : list Vector6f),
      align_all s frames = Some (s', poses)
      /\ length poses = length frames
      /\ well_formed s'
      /\ maxLevel s' = maxLevel s
      /\ temporaries_only (calls (dev s)) (calls (dev s')).
Proof.
  induction frames as [|[g d] rest IH]; intros s Hwf.
  - exists s, []. split; [reflexivity|]. split; [reflexivity|].
    split; [exact Hwf|]. split; [reflexivity|apply temporaries_only_refl].
  - destruct (align_keeps_balance s g d Hwf) as (s1 & r & H & Hwf1 & EM & T).
    destruct (IH s1 Hwf1) as (s' & rs & H' & Hlen & Hwf' & EM' & T').
    exists s', (r :: rs). cbn [align_all]. rewrite H.
    cbn [mbind option_bind]. rewrite H'. cbn [mbind option_bind].
    split; [reflexivity|]. split; [cbn; rewrite Hlen; reflexivity|].
    split; [exact Hwf'|]. split; [congruence|].
    eapply temporaries_only_trans; eassumption.
Qed.

End Lifetime.


Section OnePixelDestructor.

#[local] Existing Instance Demo.hand_written.


End OnePixelDestructor.


Section OnePixelLifetime.

#[local] Existing Instance Demo.hand_written.


End OnePixelLifetime.

(** ** The two pyramids across a call *)

Section Pyramids.

Context `{Ext : External}.

(** The members of the tracker after [align], read off the state [so]
    left by the levels. *)
Lemma align_members (s s' : Tracker) (grayCur depthCur : Buf)
    (r : Vector6f) :
  align s grayCur depthCur = Some (s', r) ->
  exists (cur : list PyramidLevel) (so : Tracker),
    fill_pyramid s (d_cur s) grayCur depthCur = Some cur
    /\ process_levels (levels_descending (minLevel s) (maxLevel s))
         (set_d_cur cur s) = Some so
    /\ d_prev s' = cur /\ d_cur s' = d_prev s
    /\ (solvingMethod s', maxIterationsPerLevel s', maxLevel s',
        minLevel s', width s', height s', useTDistWeights s')
       = (solvingMethod s, maxIterationsPerLevel s, maxLevel s,
          minLevel s, width s, height s, useTDistWeights s)
    /\ K_pyr s' = K_pyr s /\ K_inv_pyr s' = K_inv_pyr s
    /\ xi s' = xi so /\ r = xi_total s'
    /\ host_state s' = host_state so
    /\ globals (dev s') = globals (dev so).
Proof.
  intros H.
  apply align_inv in H as (cur & so & Hf & Hl & -> & ->).
  exists cur, so. split; [exact Hf|]. split; [exact Hl|].
  apply process_levels_settings in Hl as [E _].
  unfold settings in E.
  injection E as E1 E2 E3 E4 E5 E6 E7 E8 E9 E10 E11 E12.
  replace (d_cur (set_d_cur cur s)) with cur in E8
    by (destruct s; reflexivity).
  replace (d_prev (set_d_cur cur s)) with (d_prev s) in E9
    by (destruct s; reflexivity).
  replace (solvingMethod (set_d_cur cur s)) with (solvingMethod s) in E1
    by (destruct s; reflexivity).
  replace (maxIterationsPerLevel (set_d_cur cur s))
    with (maxIterationsPerLevel s) in E2 by (destruct s; reflexivity).
  replace (maxLevel (set_d_cur cur s)) with (maxLevel s) in E3
    by (destruct s; reflexivity).
  replace (minLevel (set_d_cur cur s)) with (minLevel s) in E4
    by (destruct s; reflexivity).
  replace (width (set_d_cur cur s)) with (width s) in E5
    by (destruct s; reflexivity).
  replace (height (set_d_cur cur s)) with (height s) in E6
    by (destruct s; reflexivity).
  replace (useTDistWeights (set_d_cur cur s)) with (useTDistWeights s) in E7
    by (destruct s; reflexivity).
  replace (K_pyr (set_d_cur cur s)) with (K_pyr s) in E10
    by (destruct s; reflexivity).
  replace (K_inv_pyr (set_d_cur cur s)) with (K_inv_pyr s) in E11
    by (destruct s; reflexivity).
  destruct so. cbn in *. subst.
  repeat split; reflexivity.
Qed.

End Pyramids.

(** X3: [align] exchanges the two pyramids: when it returns, [d_prev] is
    the pyramid filled from the frame just given, with the gray and depth
    arguments copied into level 0, and [d_cur] is the pyramid that was
    [d_prev] before the call, unchanged. *)
Theorem align_exchanges_pyramids `{Ext : External}
    (s s' : Tracker) (grayCur depthCur : Buf) (r : Vector6f) :
  align s grayCur depthCur = Some (s', r) ->
  fill_pyramid s (d_cur s) grayCur depthCur = Some (d_prev s')
  /\ d_cur s' = d_prev s
  /\ length (d_prev s') = length (d_cur s)
  /\ exists base stored,
       d_cur s !! 0%nat = Some base
       /\ d_prev s' !! 0%nat = Some stored
       /\ gray stored = cudaMemcpy (gray base) grayCur (width s * height s)
       /\ depth stored
          = cudaMemcpy (depth base) depthCur (width s * height s).
Proof.
  intros H.
  apply align_members in H
    as (cur & so & Hf & _ & Ep & Ec & _).
  rewrite Ep. split; [exact Hf|]. split; [exact Ec|].
  split; [apply (fill_pyramid_length _ _ _ _ _ Hf)|].
  pose proof Hf as Hb. unfold fill_pyramid in Hb. cbv zeta in Hb.
  apply bind_Some in Hb as (base & Hbase & Hb).
  apply bind_Some in Hb as (img0 & H0 & Hb).
  apply bind_Some in Hb as (img1 & H1 & H2).
  apply assign_inv in H0 as [Hr0 ->].
  assert (I1 : exists l, img1 !! 0%nat = Some l
               /\ gray l = cudaMemcpy (gray base) grayCur
                             (width s * height s)
               /\ depth l = cudaMemcpy (depth base) depthCur
                              (width s * height s)).
  { unfold for_range in H1.
    refine (for_up_preserves
              (fun imgs : list PyramidLevel =>
                 exists l, imgs !! 0%nat = Some l
                   /\ gray l = cudaMemcpy (gray base) grayCur
                                 (width s * height s)
                   /\ depth l = cudaMemcpy (depth base) depthCur
                                  (width s * height s))
              _ _ 1 _ _ _ _ H1).
    - eexists. split; [apply list_lookup_insert_eq; lia|].
      split; reflexivity.
    - intros l x x' Hl (l0 & Hx & Hg & Hd) Hbody.
      apply bind_Some in Hbody as (lw & _ & Hbody).
      apply bind_Some in Hbody as (lh & _ & Hbody).
      apply bind_Some in Hbody as (src & _ & Hbody).
      apply bind_Some in Hbody as (dst & _ & Hbody).
      cbv zeta in Hbody. apply assign_inv in Hbody as [_ ->].
      exists l0. split; [|auto].
      rewrite list_lookup_insert_ne by lia. exact Hx. }
  assert (I2 : exists l, cur !! 0%nat = Some l
               /\ gray l = cudaMemcpy (gray base) grayCur
                             (width s * height s)
               /\ depth l = cudaMemcpy (depth base) depthCur
                              (width s * height s)).
  { unfold for_range in H2.
    refine (for_up_preserves
              (fun imgs : list PyramidLevel =>
                 exists l, imgs !! 0%nat = Some l
                   /\ gray l = cudaMemcpy (gray base) grayCur
                                 (width s * height s)
                   /\ depth l = cudaMemcpy (depth base) depthCur
                                  (width s * height s))
              _ _ 0 _ _ I1 _ H2).
    intros l x x' Hl (l0 & Hx & Hg & Hd) Hbody.
    apply bind_Some in Hbody as (lw & _ & Hbody).
    apply bind_Some in Hbody as (lh & _ & Hbody).
    apply bind_Some in Hbody as (img & Himg & Hbody).
    destruct (image_derivatives_CUDA _ _ _ _ _ _) as [dx dy].
    apply assign_inv in Hbody as [Hr ->].
    destruct (Z.eq_dec l 0) as [->|Hne].
    - change (at_ x 0) with (x !! 0%nat) in Himg.
      rewrite Hx in Himg. injection Himg as <-.
      eexists. split; [apply list_lookup_insert_eq; lia|].
      cbn [gray depth]. auto.
    - exists l0. split; [|auto].
      rewrite list_lookup_insert_ne by lia. exact Hx. }
  destruct I2 as (stored & Hs & Hg & Hd).
  exists base, stored. auto.
Qed.

Section OnePixelExchange.

#[local] Existing Instance Demo.hand_written.

Lemma align_exchanges_pyramids_witness :
  exists (s0 s1 : Tracker) (r1 : Vector6f),
    Tracker_new (Demo.pixel 1) (Demo.pixel 2) 1 1 Demo.K 0 0 false 20
      GAUSS_NEWTON = Some s0
    /\ align s0 (Demo.pixel 3) (Demo.pixel 7) = Some (s1, r1)
    /\ fill_pyramid s0 (d_cur s0) (Demo.pixel 3) (Demo.pixel 7)
       = Some (d_prev s1)
    /\ d_cur s1 = d_prev s0
    /\ length (d_prev s1) = length (d_cur s0)
    /\ exists base stored,
         d_cur s0 !! 0%nat = Some base
         /\ d_prev s1 !! 0%nat = Some stored
         /\ gray stored
            = cudaMemcpy (gray base) (Demo.pixel 3) (width s0 * height s0)
         /\ depth stored
            = cudaMemcpy (depth base) (Demo.pixel 7) (width s0 * height s0).
Proof.
  do 3 eexists.
  split; [vm_compute; reflexivity|].
  match goal with
  | |- ?P /\ _ => assert (H : P) by (vm_compute; reflexivity)
  end.
  split; [exact H|].
  exact (align_exchanges_pyramids _ _ _ _ _ H).
Defined.

End OnePixelExchange.

(** X4: [align] assigns none of [solvingMethod],
    [maxIterationsPerLevel], [maxLevel], [minLevel], [width], [height],
    [useTDistWeights], [K_pyr] and [K_inv_pyr], and it returns the
    [xi_total] that it stores. *)
Theorem align_keeps_configuration `{Ext : External}
    (s s' : Tracker) (grayCur depthCur : Buf) (r : Vector6f) :
  align s grayCur depthCur = Some (s', r) ->
  (solvingMethod s', maxIterationsPerLevel s', maxLevel s', minLevel s',
   width s', height s', useTDistWeights s')
  = (solvingMethod s, maxIterationsPerLevel s, maxLevel s, minLevel s,
     width s, height s, useTDistWeights s)
  /\ K_pyr s' = K_pyr s /\ K_inv_pyr s' = K_inv_pyr s
  /\ r = xi_total s'.
Proof.
  intros H.
  apply align_members in H
    as (cur & so & _ & _ & _ & _ & Ecfg & EK & EKi & _ & Er & _).
  auto.
Qed.

Section OnePixelConfiguration.

#[local] Existing Instance Demo.with_cublas.

Lemma align_keeps_configuration_witness :
  exists (s0 s1 : Tracker) (r1 : Vector6f),
    Tracker_new (Demo.pixel 1) (Demo.pixel 2) 1 1 Demo.K 0 0 true 3
      GAUSS_NEWTON = Some s0
    /\ align s0 (Demo.pixel 3) (Demo.pixel 7) = Some (s1, r1)
    /\ (solvingMethod s1, maxIterationsPerLevel s1, maxLevel s1,
        minLevel s1, width s1, height s1, useTDistWeights s1)
       = (solvingMethod s0, maxIterationsPerLevel s0, maxLevel s0,
          minLevel s0, width s0, height s0, useTDistWeights s0)
    /\ K_pyr s1 = K_pyr s0 /\ K_inv_pyr s1 = K_inv_pyr s0
    /\ r1 = xi_total s1.
Proof.
  do 3 eexists.
  split; [vm_compute; reflexivity|].
  match goal with
  | |- ?P /\ _ => assert (H : P) by (vm_compute; reflexivity)
  end.
  split; [exact H|].
  exact (align_keeps_configuration _ _ _ _ _ H).
Defined.

End OnePixelConfiguration.

(** ** Levels without a pass *)

Section IdleLevels.

Context `{Ext : External}.

(** With [maxIterationsPerLevel <= 0] a level binds the textures and
    unbinds them again. *)
Lemma process_level_idle (level : Z) (s : Tracker) :
  maxIterationsPerLevel s <= 0 ->
  0 <= level <= 30 ->
  level < Z.of_nat (length (d_cur s)) ->
  exists s',
    process_level level s = Some s'
    /\ settings s' = settings s
    /\ host_state s' = host_state s
    /\ symbols_of (globals (dev s')) = symbols_of (globals (dev s))
    /\ texture_parameters (globals (dev s'))
       = texture_parameters (globals (dev s))
    /\ texture_bindings (globals (dev s')) = [None; None; None].
Proof.
  intros Hn Hl Hc. unfold process_level.
  rewrite !level_dim_Some by exact Hl. cbn [mbind option_bind]. cbv zeta.
  unfold bind_textures.
  destruct (at_Some (d_cur s) level) as (cur & ->); [lia|].
  cbn [mbind option_bind]. cbv zeta.
  match goal with
  | |- context [iterations (Z.to_nat (maxIterationsPerLevel ?x))] =>
      replace (Z.to_nat (maxIterationsPerLevel x)) with O
        by (destruct s; cbn; cbn in Hn; lia)
  end.
  cbn [iterations mbind option_bind].
  eexists. split; [reflexivity|].
  destruct s as [? ? ? ? ? ? ? ? ? ? ? ? ? ? ? ? ? ? ? ? ? ? [? ? ? ? ? ? ? ? ? ? ? ? ? ? ? ? [] ?]].
  repeat split; reflexivity.
Qed.

Lemma process_levels_idle :
  forall (levels : list Z) (s : Tracker),
    (levels <> [] -> maxIterationsPerLevel s <= 0) ->
    Forall (fun l => 0 <= l <= 30 /\ l < Z.of_nat (length (d_cur s)))
      levels ->
    exists s',
      process_levels levels s = Some s'
      /\ settings s' = settings s
      /\ host_state s' = host_state s
      /\ symbols_of (globals (dev s')) = symbols_of (globals (dev s))
      /\ texture_parameters (globals (dev s'))
         = texture_parameters (globals (dev s))
      /\ (levels <> [] ->
          texture_bindings (globals (dev s')) = [None; None; None]).
Proof.
  induction levels as [|l levels IH]; intros s Hn Hall.
  - exists s. repeat split; try reflexivity. intros H. contradiction.
  - apply Forall_cons in Hall as [[Hl Hc] Hall].
    assert (Hn0 : maxIterationsPerLevel s <= 0) by (apply Hn; discriminate).
    destruct (process_level_idle l s Hn0 Hl Hc)
      as (s1 & H1 & E1 & Eh1 & Es1 & Ep1 & Eb1).
    assert (Ecfg : maxIterationsPerLevel s1 = maxIterationsPerLevel s
                   /\ d_cur s1 = d_cur s).
    { unfold settings in E1. injection E1 as _ E2 _ _ _ _ _ E8 _. auto. }
    destruct Ecfg as [En Ec].
    destruct (IH s1) as (s' & H & E & Eh & Es & Ep & Eb).
    + intros _. rewrite En. exact Hn0.
    + rewrite Ec. exact Hall.
    + exists s'. cbn [process_levels]. rewrite H1. cbn [mbind option_bind].
      split; [exact H|]. split; [congruence|]. split; [congruence|].
      split; [congruence|]. split; [congruence|].
      intros _. destruct levels as [|l' levels'].
      * injection H as <-. exact Eb1.
      * apply Eb. discriminate.
Qed.

Lemma levels_descending_range (a b : Z) :
  Forall (fun l => a <= l <= b) (levels_descending a b).
Proof.
  unfold levels_descending. apply List.Forall_forall. intros l Hin.
  apply in_map_iff in Hin as (i & <- & Hi). apply in_seq in Hi. lia.
Qed.

Lemma levels_descending_empty (a b : Z) :
  b < a -> levels_descending a b = [].
Proof.
  intros H. unfold levels_descending.
  replace (Z.to_nat (b - a + 1)) with O by lia. reflexivity.
Qed.

(** A call whose levels make no pass. *)
Lemma align_idle (s : Tracker) (grayCur depthCur : Buf) :
  0 <= maxLevel s <= 30 ->
  length (d_cur s) = Z.to_nat (maxLevel s + 1) ->
  (minLevel s <= maxLevel s ->
   maxIterationsPerLevel s <= 0 /\ 0 <= minLevel s) ->
  exists s',
    align s grayCur depthCur = Some (s', accumulate (xi_total s) (xi s))
    /\ xi_total s' = accumulate (xi_total s) (xi s)
    /\ host_state s' = host_state s
    /\ symbols_of (globals (dev s')) = symbols_of (globals (dev s))
    /\ texture_parameters (globals (dev s'))
       = texture_parameters (globals (dev s))
    /\ (minLevel s <= maxLevel s ->
        texture_bindings (globals (dev s')) = [None; None; None])
    /\ (maxLevel s < minLevel s -> globals (dev s') = globals (dev s)).
Proof.
  intros HL Lc Hmin.
  destruct (fill_pyramid_returns s (d_cur s) grayCur depthCur HL Lc)
    as (cur & Hf).
  pose proof (fill_pyramid_length _ _ _ _ _ Hf) as Lcur.
  destruct (process_levels_idle
              (levels_descending (minLevel s) (maxLevel s))
              (set_d_cur cur s))
    as (so & Hl & E & Eh & Es & Ep & Eb).
  { intros Hne.
    replace (maxIterationsPerLevel (set_d_cur cur s))
      with (maxIterationsPerLevel s) by (destruct s; reflexivity).
    destruct (Z_le_gt_dec (minLevel s) (maxLevel s)) as [Hle|Hgt];
      [apply Hmin; exact Hle|].
    rewrite levels_descending_empty in Hne by lia. contradiction. }
  { eapply Forall_impl; [apply levels_descending_range|].
    intros l Hl. cbn beta in Hl.
    replace (length (d_cur (set_d_cur cur s))) with (length cur)
      by (destruct s; reflexivity).
    rewrite Lcur, Lc.
    destruct (Z_le_gt_dec (minLevel s) (maxLevel s)) as [Hle|Hgt];
      [destruct (Hmin Hle)|]; lia. }
  unfold align. rewrite Hf. cbn [mbind option_bind]. cbv zeta.
  rewrite for_range_down_levels.
  replace (minLevel (set_d_cur cur s)) with (minLevel s)
    by (destruct s; reflexivity).
  replace (maxLevel (set_d_cur cur s)) with (maxLevel s)
    by (destruct s; reflexivity).
  rewrite Hl. cbn [mbind option_bind].
  assert (Ex : xi so = xi s /\ xi_total so = xi_total s).
  { unfold host_state in Eh. injection Eh as _ _ _ Ex _ _.
    unfold settings in E. injection E as _ _ _ _ _ _ _ _ _ _ _ Et.
    split; [rewrite Ex|rewrite Et]; destruct s; reflexivity. }
  destruct Ex as [Ex Et].
  eexists. split.
  { f_equal. f_equal. transitivity (accumulate (xi_total so) (xi so));
      [destruct so; reflexivity|rewrite Ex, Et; reflexivity]. }
  match goal with
  | |- context [xi_total ?f = _] =>
      assert (Ed : dev f = dev so) by (destruct so; reflexivity);
      assert (Eh' : host_state f = host_state so)
        by (destruct so; reflexivity);
      assert (Et' : xi_total f = accumulate (xi_total so) (xi so))
        by (destruct so; reflexivity)
  end.
  assert (Ed0 : dev (set_d_cur cur s) = dev s) by (destruct s; reflexivity).
  rewrite Ed0 in Es, Ep.
  split; [rewrite Et', Ex, Et; reflexivity|].
  split; [rewrite Eh', Eh; destruct s; reflexivity|].
  rewrite Ed.
  split; [exact Es|]. split; [exact Ep|].
  split.
  - intros Hle. apply Eb.
    rewrite levels_descending_cons by exact Hle. discriminate.
  - intros Hgt. rewrite levels_descending_empty in Hl by exact Hgt.
    injection Hl as <-. rewrite Ed0. reflexivity.
Qed.

End IdleLevels.


Section OnePixelEmptyRange.

#[local] Existing Instance Demo.hand_written.


End OnePixelEmptyRange.


Section OnePixelNoPass.

#[local] Existing Instance Demo.hand_written.


End OnePixelNoPass.

(** ** Levels without a pixel *)

Section EmptyLevels.

Context `{Ext : External}.

(** Without cuBLAS the reduction of [calculate_error] never reaches its
    exit test on a level without a pixel. *)
Lemma calculate_error_empty (level lw lh : Z) (s : Tracker) :
  ENABLE_CUBLAS = false -> lw * lh <= 0 ->
  calculate_error level lw lh s = None.
Proof.
  intros Hc Hn. unfold calculate_error. rewrite Hc. cbv zeta.
  unfold malloc. cbv beta iota zeta.
  rewrite sum_passes_diverges; [reflexivity|].
  apply ceil_blocks_nonpositive, ceil_blocks_nonpositive. exact Hn.
Qed.

Lemma iteration_empty (level lw lh : Z) (v : float) (s : Tracker) :
  ENABLE_CUBLAS = false -> lw * lh <= 0 ->
  iteration level lw lh v s = None.
Proof.
  intros Hc Hn. unfold iteration.
  destruct (convertSE3ToT (xi s)) as [R' t']. cbv zeta.
  destruct (at_ _ level) as [K_inv|]; [|reflexivity].
  cbn [mbind option_bind].
  destruct (transform_points _ _ _ _) as [s1|]; [|reflexivity].
  cbn [mbind option_bind].
  destruct (calculate_residuals _ _ _ _) as [s2|]; [|reflexivity].
  cbn [mbind option_bind].
  rewrite calculate_error_empty by assumption. reflexivity.
Qed.

Lemma process_level_empty (level : Z) (s : Tracker) :
  ENABLE_CUBLAS = false -> 1 <= maxIterationsPerLevel s ->
  Z.quot (width s) (2 ^ level) * Z.quot (height s) (2 ^ level) <= 0 ->
  process_level level s = None.
Proof.
  intros Hc Hn Hz. unfold process_level.
  destruct (level_dim (width s) level) as [lw|] eqn:Hw; [|reflexivity].
  destruct (level_dim (height s) level) as [lh|] eqn:Hh; [|reflexivity].
  apply level_dim_inv in Hw as [_ ->]. apply level_dim_inv in Hh as [_ ->].
  cbn [mbind option_bind]. cbv zeta.
  destruct (bind_textures _ _ _ s) as [sb|] eqn:Hb; [|reflexivity].
  cbn [mbind option_bind].
  apply bind_textures_inv in Hb as (_ & g & ->).
  replace (maxIterationsPerLevel (set_dev (set_globals g (dev s)) s))
    with (maxIterationsPerLevel s) by (destruct s; reflexivity).
  destruct (Z.to_nat (maxIterationsPerLevel s)) as [|n] eqn:En; [lia|].
  cbn [iterations]. rewrite iteration_empty by assumption. reflexivity.
Qed.

(** With cuBLAS the loop over the levels returns whatever the level sizes
    are. *)
Lemma levels_loop_returns_cublas (s : Tracker) :
  ENABLE_CUBLAS = true ->
  0 <= maxLevel s <= 30 ->
  (minLevel s <= maxLevel s -> 0 <= minLevel s) ->
  length (d_cur s) = Z.to_nat (maxLevel s + 1) ->
  length (d_prev s) = Z.to_nat (maxLevel s + 1) ->
  length (K_inv_pyr s) = Z.to_nat (maxLevel s + 1) ->
  exists s',
    for_range_down (maxLevel s) (minLevel s) process_level s = Some s'
    /\ settings s' = settings s.
Proof.
  intros Hc HL Hmin Lc Lp Lk. unfold for_range_down.
  destruct (for_down_invariant
              (fun x => settings x = settings s)
              process_level
              (Z.to_nat (maxLevel s - minLevel s + 1)) (maxLevel s) s)
    as (s' & H & HP); [reflexivity| |eauto].
  intros l x Hl Hx.
  assert (Es : d_cur x = d_cur s /\ d_prev x = d_prev s
               /\ K_inv_pyr x = K_inv_pyr s).
  { unfold settings in Hx.
    injection Hx as _ _ _ _ _ _ _ E8 E9 _ E11 _. auto. }
  destruct Es as (Ec & Ep & Ek).
  destruct (process_level_returns l x) as (x' & Hx');
    try (rewrite ?Ec, ?Ep, ?Ek, ?Lc, ?Lp, ?Lk; lia).
  - left. exact Hc.
  - exists x'. split; [exact Hx'|].
    apply process_level_settings in Hx' as [E _]. congruence.
Qed.

End EmptyLevels.


Section CoarseLevelWithoutPixel.

#[local] Existing Instance Demo.hand_written.


End CoarseLevelWithoutPixel.


Section CoarseLevelWithCublas.

#[local] Existing Instance Demo.with_cublas.


End CoarseLevelWithCublas.

(** ** The pyramid of intrinsics *)

Section Intrinsics.

Context `{Ext : External}.

Lemma K_at_next (K : Matrix3f) (l : nat) :
  K_at K (S l) = downsampleK (K_at K l).
Proof. reflexivity. Qed.

(** The loop of [fill_K_levels] from level [a], the levels below [a]
    being filled. *)
Lemma K_levels_loop (K : Matrix3f)
    (body : Z -> list Matrix3f * list Matrix3f
            -> option (list Matrix3f * list Matrix3f)) :
  (forall level ks kis,
     body level (ks, kis)
     = (K_above ← at_ ks (level - 1);
        ks' ← assign ks level (downsampleK K_above);
        K_level ← at_ ks' level;
        kis' ← assign kis level (invertKMat K_level);
        Some (ks', kis'))) ->
  forall (n : nat) (a : Z) (st st' : list Matrix3f * list Matrix3f),
    1 <= a ->
    (forall l : nat, Z.of_nat l < a ->
       fst st !! l = Some (K_at K l)
       /\ snd st !! l = Some (invertKMat (K_at K l))) ->
    for_up n a body st = Some st' ->
    forall l : nat, Z.of_nat l < a + Z.of_nat n ->
      fst st' !! l = Some (K_at K l)
      /\ snd st' !! l = Some (invertKMat (K_at K l)).
Proof.
  intros Hbody. induction n as [|n IH]; intros a [ks kis] st' Ha Hst H l Hl.
  - cbn in H. injection H as <-. apply Hst. lia.
  - cbn [for_up] in H.
    apply bind_Some in H as ([ks1 kis1] & H1 & H).
    rewrite Hbody in H1.
    apply bind_Some in H1 as (K_above & Habove & H1).
    apply bind_Some in H1 as (ks' & Hks & H1).
    apply bind_Some in H1 as (K_level & Hlevel & H1).
    apply bind_Some in H1 as (kis' & Hkis & H1).
    injection H1 as <- <-.
    apply assign_inv in Hks as [Hr1 ->].
    apply assign_inv in Hkis as [Hr2 ->].
    assert (Ea : K_above = K_at K (Z.to_nat (a - 1))).
    { destruct (Hst (Z.to_nat (a - 1))) as [E _]; [lia|].
      unfold at_ in Habove.
      destruct (0 <=? a - 1) eqn:H0; [|discriminate].
      cbn [fst] in E. congruence. }
    assert (El : K_level = K_at K (Z.to_nat a)).
    { unfold at_ in Hlevel. destruct (0 <=? a) eqn:H0; [|discriminate].
      rewrite list_lookup_insert_eq in Hlevel by lia.
      injection Hlevel as <-. rewrite Ea.
      replace (Z.to_nat a) with (S (Z.to_nat (a - 1))) by lia.
      reflexivity. }
    apply (IH (a + 1) _ st' ltac:(lia)) with (l := l) in H; [exact H| |lia].
    intros j Hj. cbn [fst snd].
    destruct (Nat.eq_dec j (Z.to_nat a)) as [->|Hne].
    + rewrite !list_lookup_insert_eq by lia.
      split; [|rewrite El; reflexivity].
      rewrite Ea.
      replace (Z.to_nat a) with (S (Z.to_nat (a - 1))) by lia.
      reflexivity.
    + rewrite !list_lookup_insert_ne by lia.
      apply (Hst j). lia.
Qed.

(** [fill_K_levels] leaves at level [l] the intrinsics downsampled [l]
    times and their inverse. *)
Lemma fill_K_levels_closed (K : Matrix3f) (s s' : Tracker) :
  fill_K_levels K s = Some s' ->
  forall l : nat, Z.of_nat l <= maxLevel s ->
    K_pyr s' !! l = Some (K_at K l)
    /\ K_inv_pyr s' !! l = Some (invertKMat (K_at K l)).
Proof.
  unfold fill_K_levels. intros H l Hl.
  apply bind_Some in H as (ks0 & H0 & H).
  apply bind_Some in H as (K0 & HK0 & H).
  apply bind_Some in H as (kis0 & Hi0 & H).
  apply bind_Some in H as ([ks kis] & Hloop & H).
  injection H as <-.
  apply assign_inv in H0 as [Hr0 ->].
  apply assign_inv in Hi0 as [Hr1 ->].
  change (at_ (<[Z.to_nat 0 := K]> (K_pyr s)) 0)
    with (<[Z.to_nat 0 := K]> (K_pyr s) !! 0%nat) in HK0.
  rewrite list_lookup_insert_eq in HK0 by lia. injection HK0 as <-.
  unfold for_range in Hloop.
  assert (Hl' : Z.of_nat l < 1 + Z.of_nat (Z.to_nat (maxLevel s - 1 + 1)))
    by lia.
  assert (Hinit : forall j : nat, Z.of_nat j < 1 ->
            fst (<[Z.to_nat 0 := K]> (K_pyr s),
                 <[Z.to_nat 0 := invertKMat K]> (K_inv_pyr s)) !! j
            = Some (K_at K j)
            /\ snd (<[Z.to_nat 0 := K]> (K_pyr s),
                    <[Z.to_nat 0 := invertKMat K]> (K_inv_pyr s)) !! j
               = Some (invertKMat (K_at K j))).
  { intros j Hj. cbn [fst snd].
    assert (j = O) by lia. subst j.
    rewrite !list_lookup_insert_eq by lia. auto. }
  pose proof (K_levels_loop K _ (fun _ _ _ => eq_refl) _ 1 _ _
                ltac:(lia) Hinit Hloop l Hl') as Hrec.
  destruct s; exact Hrec.
Qed.

End Intrinsics.

(** ** Constant memory and textures during a call *)

Section DeviceGlobals.

Context `{Ext : External}.

(** A pass publishes the pose and changes nothing else of the device
    globals. *)
Lemma iteration_globals (level lw lh : Z) (v v' : float) (s s' : Tracker) :
  iteration level lw lh v s = Some (s', v') ->
  exists K_inv,
    at_ (K_inv_pyr s) level = Some K_inv
    /\ globals (dev s')
       = mkGlobals
           (const_K_pyr (globals (dev s)))
           (cudaMemcpy (const_RK_inv (globals (dev s)))
              (mat3_mul (fst (convertSE3ToT (xi s))) K_inv) 9)
           (cudaMemcpy (const_translation (globals (dev s)))
              (snd (convertSE3ToT (xi s))) 3)
           (texRef_grayImg (globals (dev s)))
           (texRef_gray_dx (globals (dev s)))
           (texRef_gray_dy (globals (dev s))).
Proof.
  unfold iteration. intros H.
  destruct (convertSE3ToT (xi s)) as [R' t'].
  cbv zeta in H.
  apply bind_Some in H as (K_inv & HK & H).
  apply bind_Some in H as (s1 & H1 & H).
  apply bind_Some in H as (s2 & H2 & H).
  apply bind_Some in H as (s3 & H3 & H).
  apply bind_Some in H as ([s4 v4] & H4 & H).
  apply bind_Some in H as (s5 & H5 & H).
  apply bind_Some in H as (s6 & H6 & H).
  injection H as <- <-.
  apply transform_points_inv in H1 as (d1 & -> & _ & G1).
  apply calculate_residuals_inv in H2 as (d2 & -> & _ & G2).
  destruct (calculate_jacobian_inv level lw lh
              (set_dev d2 (set_dev d1 (publish_pose
                 (set_RK_inv (mat3_mul (R (set_t t' (set_R R' s))) K_inv)
                    (set_t t' (set_R R' s)))))))
    as (d3 & E3 & _ & G3).
  rewrite E3 in H3. clear E3.
  apply calculate_error_inv in H3 as (d4 & -> & _ & G4 & _).
  apply calculate_weights_inv in H4 as (d5 & -> & [_ G5]).
  apply calculate_A_inv in H5 as (d6 & a6 & -> & [_ G6]).
  apply calculate_b_inv in H6 as (d7 & b7 & p7 & q7 & -> & [_ G7]).
  exists K_inv. split; [destruct s; exact HK|].
  cbn [dev set_dev set_A] in G2, G3, G4, G5, G6, G7.
  transitivity (globals d7); [reflexivity|].
  rewrite G7, G6, G5, G4, G3, G2, G1.
  destruct s as [? ? ? ? ? ? ? ? ? ? ? ? ? ? ? ? ? ? ? ? ? ? []].
  reflexivity.
Qed.

(** The passes of a level leave the intrinsics in constant memory and the
    texture references as the level found them. *)
Lemma body_run_globals :
  forall (k : nat) (level lw lh : Z) (v v' : float) (s s' : Tracker),
    body_run k level lw lh v s = Some (s', v') ->
    const_K_pyr (globals (dev s')) = const_K_pyr (globals (dev s))
    /\ texture_parameters (globals (dev s'))
       = texture_parameters (globals (dev s))
    /\ texture_bindings (globals (dev s'))
       = texture_bindings (globals (dev s)).
Proof.
  induction k as [|k IH]; intros level lw lh v v' s s' H.
  - injection H as <- <-. auto.
  - apply body_run_last in H as (sk & vk & Hk & Hi).
    apply IH in Hk as (E1 & E2 & E3).
    apply iteration_globals in Hi as (K_inv & _ & G).
    rewrite <- E1, <- E2, <- E3, G. repeat split; reflexivity.
Qed.

End DeviceGlobals.

Section LevelTextures.

Context `{Ext : External}.

Lemma bind_textures_bindings (level lw lh : Z) (s sb : Tracker) :
  bind_textures level lw lh s = Some sb ->
  exists cur,
    at_ (d_cur s) level = Some cur
    /\ texture_bindings (globals (dev sb))
       = map (fun raster => Some (raster, lw, lh, lw * sizeof_float))
           [gray cur; gray_dx cur; gray_dy cur]
    /\ texture_parameters (globals (dev sb))
       = texture_parameters (globals (dev s))
    /\ const_K_pyr (globals (dev sb)) = const_K_pyr (globals (dev s)).
Proof.
  unfold bind_textures. intros H.
  apply bind_Some in H as (cur & Hc & H). cbv zeta in H.
  injection H as <-. exists cur. split; [exact Hc|].
  destruct s as [? ? ? ? ? ? ? ? ? ? ? ? ? ? ? ? ? ? ? ? ? ? [? ? ? ? ? ? ? ? ? ? ? ? ? ? ? ? [] ?]].
  repeat split; reflexivity.
Qed.

Lemma unbind_textures_bindings (s : Tracker) :
  texture_bindings (globals (dev (unbind_textures s))) = [None; None; None]
  /\ texture_parameters (globals (dev (unbind_textures s)))
     = texture_parameters (globals (dev s))
  /\ const_K_pyr (globals (dev (unbind_textures s)))
     = const_K_pyr (globals (dev s)).
Proof.
  destruct s as [? ? ? ? ? ? ? ? ? ? ? ? ? ? ? ? ? ? ? ? ? ? [? ? ? ? ? ? ? ? ? ? ? ? ? ? ? ? [] ?]].
  repeat split; reflexivity.
Qed.

Lemma process_level_textures (level : Z) (s s2 : Tracker) :
  process_level level s = Some s2 ->
  const_K_pyr (globals (dev s2)) = const_K_pyr (globals (dev s))
  /\ texture_parameters (globals (dev s2))
     = texture_parameters (globals (dev s))
  /\ texture_bindings (globals (dev s2)) = [None; None; None].
Proof.
  intros H.
  apply process_level_passes in H
    as (lw & lh & sb & sk & k & v & _ & _ & Hb & _ & _ & Hrun & -> & _).
  apply bind_textures_bindings in Hb as (cur & _ & _ & Ep & Ek).
  apply body_run_globals in Hrun as (E1 & E2 & _).
  destruct (unbind_textures_bindings sk) as (U1 & U2 & U3).
  rewrite U1, U2, U3. repeat split; congruence.
Qed.

Lemma process_levels_textures :
  forall (levels : list Z) (s s' : Tracker),
    process_levels levels s = Some s' ->
    const_K_pyr (globals (dev s')) = const_K_pyr (globals (dev s))
    /\ texture_parameters (globals (dev s'))
       = texture_parameters (globals (dev s))
    /\ (levels <> [] ->
        texture_bindings (globals (dev s')) = [None; None; None]).
Proof.
  induction levels as [|l levels IH]; intros s s' H.
  - injection H as <-. repeat split; try reflexivity.
    intros Hne. contradiction.
  - cbn [process_levels] in H.
    apply bind_Some in H as (s1 & H1 & H).
    apply process_level_textures in H1 as (E1 & E2 & E3).
    pose proof H as Hrest. apply IH in Hrest as (F1 & F2 & F3).
    split; [congruence|]. split; [congruence|].
    intros _. destruct levels as [|l' levels'].
    + injection H as <-. exact E3.
    + apply F3. discriminate.
Qed.

End LevelTextures.

(** X9: in every pass of a level the three texture references are bound
    to the gray image and the two gradient images of [d_cur[level]], with
    the width and the height of the level and a pitch of
    [level_width * sizeof(float)] bytes; when the level ends they are
    unbound, their parameters and the intrinsics in constant memory being
    as the level found them. *)
Theorem level_samples_current_frame `{Ext : External}
    (level : Z) (s s2 : Tracker) :
  process_level level s = Some s2 ->
  exists (lw lh : Z) (cur : PyramidLevel) (sb : Tracker),
    level_dim (width s) level = Some lw
    /\ level_dim (height s) level = Some lh
    /\ at_ (d_cur s) level = Some cur
    /\ bind_textures level lw lh s = Some sb
    /\ (forall (j : nat) (sj : Tracker) (vj : float),
          body_run j level lw lh VARIANCE_INITIAL sb = Some (sj, vj) ->
          texture_bindings (globals (dev sj))
          = [Some (gray cur, lw, lh, lw * sizeof_float);
             Some (gray_dx cur, lw, lh, lw * sizeof_float);
             Some (gray_dy cur, lw, lh, lw * sizeof_float)])
    /\ texture_bindings (globals (dev s2)) = [None; None; None]
    /\ texture_parameters (globals (dev s2))
       = texture_parameters (globals (dev s))
    /\ const_K_pyr (globals (dev s2)) = const_K_pyr (globals (dev s)).
Proof.
  intros H.
  pose proof H as Ht. apply process_level_textures in Ht as (E1 & E2 & E3).
  apply process_level_passes in H
    as (lw & lh & sb & sk & k & v & Hw & Hh & Hb & _).
  pose proof Hb as Hc.
  apply bind_textures_bindings in Hc as (cur & Hc & Eb & _).
  exists lw, lh, cur, sb.
  split; [exact Hw|]. split; [exact Hh|]. split; [exact Hc|].
  split; [exact Hb|]. split; [|auto].
  intros j sj vj Hrun.
  apply body_run_globals in Hrun as (_ & _ & F). rewrite F. exact Eb.
Qed.

Section OnePixelTextures.

#[local] Existing Instance Demo.hand_written.

Lemma level_samples_current_frame_witness :
  exists (s0 s2 : Tracker) (cur : list PyramidLevel),
    Tracker_new (Demo.pixel 1) (Demo.pixel 1) 1 1 Demo.K 0 0 false 20
      GAUSS_NEWTON = Some s0
    /\ fill_pyramid s0 (d_cur s0) (Demo.pixel 3) (Demo.pixel 0) = Some cur
    /\ process_level 0 (set_d_cur cur s0) = Some s2
    /\ texture_bindings (globals (dev s2)) = [None; None; None]
    /\ texture_parameters (globals (dev s2))
       = texture_parameters (globals (dev (set_d_cur cur s0))).
Proof.
  do 3 eexists.
  split; [vm_compute; reflexivity|].
  split; [vm_compute; reflexivity|].
  match goal with
  | |- ?P /\ _ => assert (H : P) by (vm_compute; reflexivity)
  end.
  split; [exact H|].
  destruct (level_samples_current_frame 0 _ _ H)
    as (lw & lh & c & sb & _ & _ & _ & _ & _ & E1 & E2 & _).
  exact (conj E1 E2).
Defined.

End OnePixelTextures.

(** X10: [align] leaves the parameters of the three texture references
    and the intrinsics in constant memory as they were, and when it has
    processed at least one level it returns with the three textures
    unbound. *)
Theorem align_leaves_textures_unbound `{Ext : External}
    (s s' : Tracker) (grayCur depthCur : Buf) (r : Vector6f) :
  align s grayCur depthCur = Some (s', r) ->
  texture_parameters (globals (dev s'))
  = texture_parameters (globals (dev s))
  /\ const_K_pyr (globals (dev s')) = const_K_pyr (globals (dev s))
  /\ (minLevel s <= maxLevel s ->
      texture_bindings (globals (dev s')) = [None; None; None])
  /\ (maxLevel s < minLevel s ->
      texture_bindings (globals (dev s'))
      = texture_bindings (globals (dev s))).
Proof.
  intros H.
  apply align_members in H
    as (cur & so & _ & Hl & _ & _ & _ & _ & _ & _ & _ & _ & Eg).
  rewrite Eg.
  assert (E0 : dev (set_d_cur cur s) = dev s) by (destruct s; reflexivity).
  pose proof Hl as Ht. apply process_levels_textures in Ht as (E1 & E2 & E3).
  rewrite E0 in E1, E2.
  split; [exact E2|]. split; [exact E1|]. split.
  - intros Hle. apply E3.
    rewrite levels_descending_cons by exact Hle. discriminate.
  - intros Hgt. rewrite levels_descending_empty in Hl by exact Hgt.
    injection Hl as <-. rewrite E0. reflexivity.
Qed.

Section OnePixelUnbound.

#[local] Existing Instance Demo.with_cublas.

Lemma align_leaves_textures_unbound_witness :
  exists (s0 s1 : Tracker) (r1 : Vector6f),
    Tracker_new (Demo.pixel 1) (Demo.pixel 2) 1 1 Demo.K 0 0 true 3
      GAUSS_NEWTON = Some s0
    /\ align s0 (Demo.pixel 3) (Demo.pixel 7) = Some (s1, r1)
    /\ texture_parameters (globals (dev s1))
       = texture_parameters (globals (dev s0))
    /\ const_K_pyr (globals (dev s1)) = const_K_pyr (globals (dev s0)).
Proof.
  do 3 eexists.
  split; [vm_compute; reflexivity|].
  match goal with
  | |- ?P /\ _ => assert (H : P) by (vm_compute; reflexivity)
  end.
  split; [exact H|].
  destruct (align_leaves_textures_unbound _ _ _ _ _ H) as (E1 & E2 & _).
  exact (conj E1 E2).
Defined.

End OnePixelUnbound.

(** ** The state left by the constructor *)

Section Constructed.

Context `{Ext : External}.

Ltac bound := repeat (rewrite bind_Some_eq; cbv beta).

Ltac fields :=
  cbn [solvingMethod maxIterationsPerLevel maxLevel minLevel width height useTDistWeights A b error d_cur d_prev d_pre_b d_pre_b_aux R RK_inv t K_pyr K_inv_pyr xi_delta xi xi_total dev set_A set_b set_error set_d_cur set_d_prev set_d_pre_b set_d_pre_b_aux set_R set_RK_inv set_t set_K_pyr set_K_inv_pyr set_xi_delta set_xi set_xi_total set_dev].

Ltac fields_in H :=
  cbn [solvingMethod maxIterationsPerLevel maxLevel minLevel width height useTDistWeights A b error d_cur d_prev d_pre_b d_pre_b_aux R RK_inv t K_pyr K_inv_pyr xi_delta xi xi_total dev set_A set_b set_error set_d_cur set_d_prev set_d_pre_b set_d_pre_b_aux set_R set_RK_inv set_t set_K_pyr set_K_inv_pyr set_xi_delta set_xi set_xi_total set_dev] in H.

Lemma define_texture_parameters_inv (s : Tracker) :
  texture_parameters (globals (dev (define_texture_parameters s)))
  = replicate 3 (false, cudaFilterModeLinear)
  /\ texture_bindings (globals (dev (define_texture_parameters s)))
     = texture_bindings (globals (dev s))
  /\ K_pyr (define_texture_parameters s) = K_pyr s
  /\ K_inv_pyr (define_texture_parameters s) = K_inv_pyr s
  /\ (A (define_texture_parameters s), b (define_texture_parameters s))
     = (A s, b s).
Proof.
  destruct s as [? ? ? ? ? ? ? ? ? ? ? ? ? ? ? ? ? ? ? ? ? ? [? ? ? ? ? ? ? ? ? ? ? ? ? ? ? ? [] ?]].
  repeat split; reflexivity.
Qed.

(** The constructor leaves the pyramid of intrinsics, the zero system and
    the texture parameters. *)
Lemma Tracker_new_state (grayFirstFrame depthFirstFrame : Buf)
    (w h : Z) (K : Matrix3f) (minL maxL : Z) (useTDist : bool)
    (maxIterations : Z) (method : SolvingMethod) :
  0 <= maxL <= 30 ->
  exists s,
    Tracker_new grayFirstFrame depthFirstFrame w h K minL maxL useTDist
      maxIterations method = Some s
    /\ length (K_pyr s) = Z.to_nat (maxL + 1)
    /\ length (K_inv_pyr s) = Z.to_nat (maxL + 1)
    /\ (forall l : nat, Z.of_nat l <= maxL ->
          K_pyr s !! l = Some (K_at K l)
          /\ K_inv_pyr s !! l = Some (invertKMat (K_at K l)))
    /\ (A s, b s) = (replicate 36 fzero, replicate 6 fzero)
    /\ texture_parameters (globals (dev s))
       = replicate 3 (false, cudaFilterModeLinear).
Proof.
  intros HL. unfold Tracker_new. cbv zeta.
  rewrite !resize_Some by lia. bound.
  match goal with
  | |- context [allocateGPUMemory ?s0] =>
      destruct (allocateGPUMemory_returns s0)
        as (cur & prev & d1 & p & q & E1 & Lc & Lp & G1 & C1);
        [exact HL|apply length_replicate|apply length_replicate|]
  end.
  rewrite E1. clear E1. bound.
  fields_in Lc. fields_in Lp. clear C1.
  rewrite length_replicate in Lc, Lp.
  match goal with
  | |- context [fill_K_levels K ?s1] =>
      destruct (fill_K_levels_returns K s1)
        as (Ks & K_invs & E2 & LK & LI & HK0);
        [fields; lia|apply length_replicate|apply length_replicate|];
      pose proof (fill_K_levels_closed K s1 _ E2) as Hclosed
  end.
  rewrite E2. clear E2. bound.
  fields_in LK. fields_in LI. fields_in Hclosed.
  rewrite length_replicate in LK, LI.
  match goal with
  | |- context [load_K_to_device ?s2] =>
      destruct (load_K_to_device_returns s2) as (g & E3);
        [fields; lia|fields; exact LK|]
  end.
  rewrite E3. clear E3. bound.
  match goal with
  | |- context [fill_pyramid ?s3 ?img ?a ?b] =>
      destruct (fill_pyramid_returns s3 img a b) as (pyr & Hf);
        [fields; exact HL|fields; exact Lp|];
      rewrite Hf
  end.
  bound.
  eexists. split; [reflexivity|].
  match goal with
  | |- context [define_texture_parameters ?x] =>
      destruct (define_texture_parameters_inv x) as (T1 & _ & T3 & T4 & T5)
  end.
  rewrite T1, T3, T4, T5. fields.
  split; [exact LK|]. split; [exact LI|]. split; [exact Hclosed|].
  split; reflexivity.
Qed.

Lemma align_all_keeps :
  forall (frames : list (Buf * Buf)) (s s' : Tracker)
         (poses : list Vector6f),
    align_all s frames = Some (s', poses) ->
    K_pyr s' = K_pyr s /\ K_inv_pyr s' = K_inv_pyr s
    /\ texture_parameters (globals (dev s'))
       = texture_parameters (globals (dev s))
    /\ const_K_pyr (globals (dev s')) = const_K_pyr (globals (dev s))
    /\ length poses = length frames.
Proof.
  induction frames as [|[g d] rest IH]; intros s s' poses H.
  - injection H as <- <-. repeat split; reflexivity.
  - cbn [align_all] in H.
    apply bind_Some in H as ([s1 r1] & H1 & H).
    apply bind_Some in H as ([s2 rs] & H2 & H).
    injection H as <- <-.
    apply IH in H2 as (E1 & E2 & E3 & E4 & E5).
    pose proof H1 as Hm.
    apply align_members in Hm
      as (cur & so & _ & _ & _ & _ & _ & F1 & F2 & _).
    pose proof H1 as Ht.
    apply align_leaves_textures_unbound in Ht as (G1 & G2 & _).
    repeat split; try congruence.
    cbn [length]. rewrite E5. reflexivity.
Qed.

End Constructed.

(** X11: the constructor fills the pyramid of intrinsics so that level
    [l] holds [K] downsampled [l] times and [K_inv_pyr[l]] holds
    [invertKMat] of it, for every level up to [maxLevel]; no later call
    of [align] changes these vectors. *)
Theorem intrinsics_pyramid_of_tracker `{Ext : External}
    (grayFirstFrame depthFirstFrame : Buf) (w h : Z) (K : Matrix3f)
    (minL maxL : Z) (useTDist : bool) (maxIterations : Z)
    (method : SolvingMethod) :
  0 <= maxL <= 30 ->
  exists s0,
    Tracker_new grayFirstFrame depthFirstFrame w h K minL maxL useTDist
      maxIterations method = Some s0
    /\ forall (frames : list (Buf * Buf)) (s1 : Tracker)
              (poses : list Vector6f),
         align_all s0 frames = Some (s1, poses) ->
         length (K_pyr s1) = Z.to_nat (maxL + 1)
         /\ length (K_inv_pyr s1) = Z.to_nat (maxL + 1)
         /\ forall l : nat, Z.of_nat l <= maxL ->
              K_pyr s1 !! l = Some (K_at K l)
              /\ K_inv_pyr s1 !! l = Some (invertKMat (K_at K l)).
Proof.
  intros HL.
  destruct (Tracker_new_state grayFirstFrame depthFirstFrame w h K minL
              maxL useTDist maxIterations method HL)
    as (s0 & H0 & LK & LI & Hclosed & _).
  exists s0. split; [exact H0|].
  intros frames s1 poses H1.
  apply align_all_keeps in H1 as (E1 & E2 & _).
  rewrite E1, E2. auto.
Qed.

Section TwoLevelIntrinsics.

#[local] Existing Instance Demo.hand_written.

Lemma intrinsics_pyramid_of_tracker_witness :
  exists s0,
    Tracker_new (Demo.pixel 1) (Demo.pixel 2) 2 2 Demo.K 0 1 true 20
      GAUSS_NEWTON = Some s0
    /\ forall (frames : list (Buf * Buf)) (s1 : Tracker)
              (poses : list Vector6f),
         align_all s0 frames = Some (s1, poses) ->
         length (K_pyr s1) = Z.to_nat (1 + 1)
         /\ length (K_inv_pyr s1) = Z.to_nat (1 + 1)
         /\ forall l : nat, Z.of_nat l <= 1 ->
              K_pyr s1 !! l = Some (K_at Demo.K l)
              /\ K_inv_pyr s1 !! l = Some (invertKMat (K_at Demo.K l)).
Proof.
  refine (intrinsics_pyramid_of_tracker (Demo.pixel 1) (Demo.pixel 2) 2 2
            Demo.K 0 1 true 20 GAUSS_NEWTON _).
  lia.
Defined.

End TwoLevelIntrinsics.

(** X12: the constructor sets the three texture references to
    unnormalised coordinates and linear filtering, and they keep these
    parameters through every later call of [align]; the system [A], [b]
    starts as zero. *)
Theorem texture_parameters_of_tracker `{Ext : External}
    (grayFirstFrame depthFirstFrame : Buf) (w h : Z) (K : Matrix3f)
    (minL maxL : Z) (useTDist : bool) (maxIterations : Z)
    (method : SolvingMethod) :
  0 <= maxL <= 30 ->
  exists s0,
    Tracker_new grayFirstFrame depthFirstFrame w h K minL maxL useTDist
      maxIterations method = Some s0
    /\ (A s0, b s0) = (replicate 36 fzero, replicate 6 fzero)
    /\ forall (frames : list (Buf * Buf)) (s1 : Tracker)
              (poses : list Vector6f),
         align_all s0 frames = Some (s1, poses) ->
         texture_parameters (globals (dev s1))
         = replicate 3 (false, cudaFilterModeLinear)
         /\ const_K_pyr (globals (dev s1)) = const_K_pyr (globals (dev s0))
         /\ length poses = length frames.
Proof.
  intros HL.
  destruct (Tracker_new_state grayFirstFrame depthFirstFrame w h K minL
              maxL useTDist maxIterations method HL)
    as (s0 & H0 & _ & _ & _ & HA & HT).
  exists s0. split; [exact H0|]. split; [exact HA|].
  intros frames s1 poses H1.
  apply align_all_keeps in H1 as (_ & _ & E3 & E4 & E5).
  rewrite E3, E4. auto.
Qed.

Section OnePixelParameters.

#[local] Existing Instance Demo.with_cublas.

Lemma texture_parameters_of_tracker_witness :
  exists s0,
    Tracker_new (Demo.pixel 1) (Demo.pixel 2) 1 1 Demo.K 0 0 false 20
      GAUSS_NEWTON = Some s0
    /\ (A s0, b s0) = (replicate 36 fzero, replicate 6 fzero)
    /\ forall (frames : list (Buf * Buf)) (s1 : Tracker)
              (poses : list Vector6f),
         align_all s0 frames = Some (s1, poses) ->
         texture_parameters (globals (dev s1))
         = replicate 3 (false, cudaFilterModeLinear)
         /\ const_K_pyr (globals (dev s1)) = const_K_pyr (globals (dev s0))
         /\ length poses = length frames.
Proof.
  refine (texture_parameters_of_tracker (Demo.pixel 1) (Demo.pixel 2) 1 1
            Demo.K 0 0 false 20 GAUSS_NEWTON _).
  lia.
Defined.

End OnePixelParameters.

(** ** What a pass publishes *)

Section Publication.

Context `{Ext : External}.

Lemma iteration_host_pose (level lw lh : Z) (v v' : float)
    (s s' : Tracker) :
  iteration level lw lh v s = Some (s', v') ->
  exists K_inv,
    at_ (K_inv_pyr s) level = Some K_inv
    /\ R s' = fst (convertSE3ToT (xi s))
    /\ t s' = snd (convertSE3ToT (xi s))
    /\ RK_inv s' = mat3_mul (fst (convertSE3ToT (xi s))) K_inv.
Proof.
  unfold iteration. intros H.
  destruct (convertSE3ToT (xi s)) as [R' t'].
  cbv zeta in H.
  apply bind_Some in H as (K_inv & HK & H).
  apply bind_Some in H as (s1 & H1 & H).
  apply bind_Some in H as (s2 & H2 & H).
  apply bind_Some in H as (s3 & H3 & H).
  apply bind_Some in H as ([s4 v4] & H4 & H).
  apply bind_Some in H as (s5 & H5 & H).
  apply bind_Some in H as (s6 & H6 & H).
  injection H as <- <-.
  apply transform_points_inv in H1 as (d1 & -> & _).
  apply calculate_residuals_inv in H2 as (d2 & -> & _).
  destruct (calculate_jacobian_inv level lw lh
              (set_dev d2 (set_dev d1 (publish_pose
                 (set_RK_inv (mat3_mul (R (set_t t' (set_R R' s))) K_inv)
                    (set_t t' (set_R R' s)))))))
    as (d3 & E3 & _).
  rewrite E3 in H3. clear E3.
  apply calculate_error_inv in H3 as (d4 & -> & _).
  apply calculate_weights_inv in H4 as (d5 & -> & _).
  apply calculate_A_inv in H5 as (d6 & a6 & -> & _).
  apply calculate_b_inv in H6 as (d7 & b7 & p7 & q7 & -> & _).
  exists K_inv. split; [destruct s; exact HK|].
  destruct s. repeat split; reflexivity.
Qed.

End Publication.

(** X13: a pass computes [R] and [t] from the estimate [xi] it starts
    with, copies [R * K_inv_pyr[level]] and [t] to the constant-memory
    symbols before any kernel runs, and leaves the intrinsics symbol and
    the texture references alone; the symbols are not written again when
    the pass updates [xi], so on return they describe the estimate before
    the update. *)
Theorem pass_publishes_pose_before_update `{Ext : External}
    (level lw lh : Z) (v v' : float) (s s' : Tracker) :
  iteration level lw lh v s = Some (s', v') ->
  exists K_inv : Matrix3f,
    at_ (K_inv_pyr s) level = Some K_inv
    /\ (R s', t s') = convertSE3ToT (xi s)
    /\ RK_inv s' = mat3_mul (R s') K_inv
    /\ globals (dev s')
       = mkGlobals
           (const_K_pyr (globals (dev s)))
           (cudaMemcpy (const_RK_inv (globals (dev s))) (RK_inv s') 9)
           (cudaMemcpy (const_translation (globals (dev s))) (t s') 3)
           (texRef_grayImg (globals (dev s)))
           (texRef_gray_dx (globals (dev s)))
           (texRef_gray_dy (globals (dev s)))
    /\ xi s' = compose_left (xi_delta s') (xi s).
Proof.
  intros H.
  pose proof H as Hp. apply iteration_host_pose in Hp
    as (K_inv & HK & ER & Et & ERK).
  pose proof H as Hg. apply iteration_globals in Hg as (K_inv' & HK' & G).
  rewrite HK in HK'. injection HK' as <-.
  apply iteration_inv in H as (_ & Hd & Hx & _).
  exists K_inv. split; [exact HK|].
  split; [rewrite ER, Et; destruct (convertSE3ToT (xi s)); reflexivity|].
  split; [rewrite ERK, ER; reflexivity|].
  split; [rewrite G, ERK, Et; reflexivity|].
  rewrite Hd. exact Hx.
Qed.

Section OnePixelPublication.

#[local] Existing Instance Demo.hand_written.

Lemma pass_publishes_pose_before_update_witness :
  exists (s0 sb s1 : Tracker) (cur : list PyramidLevel) (v1 : float),
    Tracker_new (Demo.pixel 1) (Demo.pixel 1) 1 1 Demo.K 0 0 false 20
      GAUSS_NEWTON = Some s0
    /\ fill_pyramid s0 (d_cur s0) (Demo.pixel 3) (Demo.pixel 0) = Some cur
    /\ bind_textures 0 1 1 (set_d_cur cur s0) = Some sb
    /\ iteration 0 1 1 VARIANCE_INITIAL sb = Some (s1, v1)
    /\ exists K_inv : Matrix3f,
         at_ (K_inv_pyr sb) 0 = Some K_inv
         /\ (R s1, t s1) = convertSE3ToT (xi sb)
         /\ RK_inv s1 = mat3_mul (R s1) K_inv.
Proof.
  do 5 eexists.
  split; [vm_compute; reflexivity|].
  split; [vm_compute; reflexivity|].
  split; [vm_compute; reflexivity|].
  match goal with
  | |- ?P /\ _ => assert (H : P) by (vm_compute; reflexivity)
  end.
  split; [exact H|].
  destruct (pass_publishes_pose_before_update 0 1 1 _ _ _ _ H)
    as (K_inv & E1 & E2 & E3 & _).
  exists K_inv. auto.
Defined.

End OnePixelPublication.

(** ** The pointers of [calculate_b] *)

Section SystemVector.

Context `{Ext : External}.

Lemma reduce_b_passes_pointers :
  forall (fuel : nat) (p q : BPtr) (size nz : Z) (d : Device)
         (p' q' : BPtr) (d' : Device),
    reduce_b_passes fuel p q size nz d = Some (p', q', d') ->
    p' = Alloc_b /\ (nz = 1 -> q' = p).
Proof.
  induction fuel as [|fuel IH]; intros p q size nz d p' q' d' H;
    [discriminate|].
  cbn [reduce_b_passes] in H. cbv zeta in H.
  destruct (nz =? 1) eqn:E.
  - injection H as <- <- _. auto.
  - apply IH in H as [-> _]. split; [reflexivity|].
    intros ->. discriminate.
Qed.

Lemma calculate_b_pointers (level lw lh : Z) (s s' : Tracker) :
  ENABLE_CUBLAS = false ->
  calculate_b level lw lh s = Some s' ->
  d_pre_b s' = Alloc_b
  /\ b s' = cudaMemcpy (b s) (d_b (dev s')) 6
  /\ (lw * lh <= 1024 * 1024 -> d_pre_b_aux s' = d_pre_b s).
Proof.
  intros Hc H. unfold calculate_b in H. rewrite Hc in H. cbv zeta in H.
  apply bind_Some in H as ([[pre_b pre_b_aux] d'] & Hr & H).
  injection H as <-.
  pose proof Hr as Hp. apply reduce_b_passes_pointers in Hp as [-> Hq].
  split; [destruct s; reflexivity|].
  split; [destruct s; reflexivity|].
  intros Hn.
  transitivity pre_b_aux; [destruct s; reflexivity|].
  apply Hq.
  destruct (Z_le_gt_dec (lw * lh) 0) as [Hz|Hz].
  - replace (Z.to_nat (ceil_blocks (lw * lh))) with O in Hr
      by (pose proof (ceil_blocks_nonpositive _ Hz); lia).
    discriminate Hr.
  - unfold ceil_blocks, blocklength.
    Z.to_euclidean_division_equations. lia.
Qed.

End SystemVector.

(** X14: in the build without cuBLAS every call of [calculate_b] returns
    with the member [d_pre_b] designating the allocation of [d_b], from
    which [b] is copied; for levels of at most 1024 * 1024 pixels
    [d_pre_b_aux] takes the former value of [d_pre_b].  After two calls
    both members designate [d_b], so the product kernel of every later
    call is given the six floats of [d_b] as its output array. *)
Theorem calculate_b_redirects_pointers `{Ext : External}
    (level lw lh : Z) (s s' : Tracker) :
  ENABLE_CUBLAS = false ->
  calculate_b level lw lh s = Some s' ->
  d_pre_b s' = Alloc_b
  /\ b s' = cudaMemcpy (b s) (d_b (dev s')) 6
  /\ (lw * lh <= 1024 * 1024 -> d_pre_b_aux s' = d_pre_b s)
  /\ forall (level2 lw2 lh2 : Z) (s'' : Tracker),
       calculate_b level2 lw2 lh2 s' = Some s'' ->
       lw2 * lh2 <= 1024 * 1024 ->
       d_pre_b s'' = Alloc_b /\ d_pre_b_aux s'' = Alloc_b
       /\ bload (d_pre_b s'') (dev s'') = d_b (dev s'').
Proof.
  intros Hc H.
  destruct (calculate_b_pointers level lw lh s s' Hc H) as (E1 & E2 & E3).
  split; [exact E1|]. split; [exact E2|]. split; [exact E3|].
  intros level2 lw2 lh2 s'' H2 Hn.
  destruct (calculate_b_pointers level2 lw2 lh2 s' s'' Hc H2)
    as (F1 & _ & F3).
  split; [exact F1|]. split; [rewrite (F3 Hn); exact E1|].
  rewrite F1. reflexivity.
Qed.

Section OnePixelSystemVector.

#[local] Existing Instance Demo.hand_written.

Lemma calculate_b_redirects_pointers_witness :
  exists (s0 s1 : Tracker),
    Tracker_new (Demo.pixel 1) (Demo.pixel 1) 1 1 Demo.K 0 0 false 20
      GAUSS_NEWTON = Some s0
    /\ d_pre_b s0 = Alloc_pre_b /\ d_pre_b_aux s0 = Alloc_pre_b_aux
    /\ calculate_b 0 1 1 s0 = Some s1
    /\ d_pre_b s1 = Alloc_b
    /\ b s1 = cudaMemcpy (b s0) (d_b (dev s1)) 6
    /\ (1 * 1 <= 1024 * 1024 -> d_pre_b_aux s1 = d_pre_b s0).
Proof.
  do 2 eexists.
  split; [vm_compute; reflexivity|].
  split; [vm_compute; reflexivity|].
  split; [vm_compute; reflexivity|].
  match goal with
  | |- ?P /\ _ => assert (H : P) by (vm_compute; reflexivity)
  end.
  split; [exact H|].
  destruct (calculate_b_redirects_pointers (Ext := Demo.hand_written)
              0 1 1 _ _ eq_refl H)
    as (E1 & E2 & E3 & _).
  auto.
Defined.

End OnePixelSystemVector.

(** ** The reduction of an array *)

Section ArrayReduction.

Context `{Ext : External}.

Lemma ceil_blocks_one (size : Z) :
  1 <= size <= 1024 -> ceil_blocks size = 1.
Proof.
  intros H. unfold ceil_blocks, blocklength.
  Z.to_euclidean_division_equations. lia.
Qed.

Lemma reduce_array_GPU_history (p_out : float) (d_arr : Buf) (size : Z)
    (d d' : Device) (v : float) :
  reduce_array_GPU p_out d_arr size d = Some (v, d') ->
  calls d'
  = calls d
    ++ [cudaMalloc (ceil_blocks size * sizeof_float);
        cudaMalloc (ceil_blocks (ceil_blocks size) * sizeof_float);
        cudaFree; cudaFree]
  /\ globals d' = globals d /\ d_W d' = d_W d /\ d_r d' = d_r d.
Proof.
  unfold reduce_array_GPU, malloc. cbv zeta. cbv beta iota. intros H.
  apply bind_Some in H as ([a1 a2] & _ & H).
  injection H as _ <-.
  destruct d. cbn. rewrite <- !app_assoc. repeat split; reflexivity.
Qed.

Lemma reduce_array_GPU_small (p_out : float) (d_arr : Buf) (size : Z)
    (d d' : Device) (v : float) :
  reduce_array_GPU p_out d_arr size d = Some (v, d') ->
  1 <= size <= 1024 ->
  exists aux aux2 : Buf,
    v = cudaMemcpy_scalar p_out
          (d_sum (launch_reduce 1 1 1) (globals d)
             (d_sum (launch_reduce 1 1 1) (globals d) d_arr aux size)
             aux2 1).
Proof.
  unfold reduce_array_GPU, malloc. cbv zeta. cbv beta iota. intros H Hs.
  rewrite (ceil_blocks_one size Hs) in H.
  rewrite (ceil_blocks_one 1) in H by lia.
  change (Z.to_nat 1) with 1%nat in H.
  cbn [sum_passes] in H. cbv zeta in H.
  change (1 =? 1) with true in H. cbv iota in H.
  cbn [mbind option_bind] in H.
  injection H as <- _.
  eexists. eexists.
  destruct d. reflexivity.
Qed.

Lemma reduce_array_GPU_empty (p_out : float) (d_arr : Buf) (size : Z)
    (d : Device) :
  size <= 0 -> reduce_array_GPU p_out d_arr size d = None.
Proof.
  intros Hs. unfold reduce_array_GPU, malloc. cbv zeta. cbv beta iota.
  rewrite sum_passes_diverges; [reflexivity|].
  apply ceil_blocks_nonpositive, ceil_blocks_nonpositive. exact Hs.
Qed.

End ArrayReduction.

(** X15: [reduce_array_GPU] returns on every array of at least one
    element and never on an empty one.  A call records two allocations,
    of [ceil(size / 1024)] and [ceil(ceil(size / 1024) / 1024)] floats,
    and then their two releases, and leaves the globals, [d_W] and [d_r]
    alone.  Up to 1024 elements the result is the first element left by
    two launches of [d_sum], the second over a single element. *)
Theorem reduce_array_GPU_allocates_two_temporaries `{Ext : External}
    (p_out : float) (d_arr : Buf) (size : Z) (d : Device) :
  (1 <= size ->
   exists (v : float) (d' : Device),
     reduce_array_GPU p_out d_arr size d = Some (v, d')
     /\ calls d'
        = calls d
          ++ [cudaMalloc (ceil_blocks size * sizeof_float);
              cudaMalloc (ceil_blocks (ceil_blocks size) * sizeof_float);
              cudaFree; cudaFree]
     /\ globals d' = globals d /\ d_W d' = d_W d /\ d_r d' = d_r d
     /\ (size <= 1024 ->
         exists aux aux2 : Buf,
           v = cudaMemcpy_scalar p_out
                 (d_sum (launch_reduce 1 1 1) (globals d)
                    (d_sum (launch_reduce 1 1 1) (globals d) d_arr aux
                       size)
                    aux2 1)))
  /\ (size <= 0 -> reduce_array_GPU p_out d_arr size d = None).
Proof.
  split.
  - intros Hs.
    destruct (reduce_array_GPU_returns p_out d_arr size d Hs)
      as ([v d'] & H).
    exists v, d'. split; [exact H|].
    destruct (reduce_array_GPU_history _ _ _ _ _ _ H) as (E1 & E2 & E3 & E4).
    split; [exact E1|]. split; [exact E2|]. split; [exact E3|].
    split; [exact E4|].
    intros Hle. apply (reduce_array_GPU_small _ _ _ _ _ _ H). lia.
  - apply reduce_array_GPU_empty.
Qed.

Section ThreeElements.

#[local] Existing Instance Demo.hand_written.

Lemma reduce_array_GPU_allocates_two_temporaries_witness :
  exists s0 : Tracker,
    Tracker_new (Demo.pixel 1) (Demo.pixel 1) 1 1 Demo.K 0 0 false 20
      GAUSS_NEWTON = Some s0
    /\ (exists (v : float) (d' : Device),
          reduce_array_GPU fzero
            [float_of_int 1; float_of_int 2; float_of_int 3] 3 (dev s0)
          = Some (v, d')
          /\ calls d'
             = calls (dev s0)
               ++ [cudaMalloc 4; cudaMalloc 4; cudaFree; cudaFree])
    /\ reduce_array_GPU fzero [] 0 (dev s0) = None.
Proof.
  eexists. split; [vm_compute; reflexivity|].
  split.
  - match goal with
    | |- exists v d', reduce_array_GPU ?p ?a ?n ?d = _ /\ _ =>
        destruct (proj1 (reduce_array_GPU_allocates_two_temporaries
                           (Ext := Demo.hand_written) p a n d))
          as (v & d' & H & Hc & _); [lia|]
    end.
    exists v, d'. split; [exact H|exact Hc].
  - match goal with
    | |- reduce_array_GPU ?p ?a ?n ?d = None =>
        apply (proj2 (reduce_array_GPU_allocates_two_temporaries
                        (Ext := Demo.hand_written) p a n d))
    end.
    lia.
Defined.

End ThreeElements.

(** ** The reduction arrays and the grid that fills them *)


Section OnePixelReductionArrays.

#[local] Existing Instance Demo.hand_written.


End OnePixelReductionArrays.

(** ** The levels of a filled pyramid *)

Section PyramidLevels.

Context `{Ext : External}.

Lemma for_up_indexed {St : Type} (P : Z -> St -> Prop)
    (body : Z -> St -> option St) :
  forall (n : nat) (a : Z) (s s' : St),
    P a s ->
    (forall l x x', a <= l < a + Z.of_nat n -> P l x ->
                    body l x = Some x' -> P (l + 1) x') ->
    for_up n a body s = Some s' -> P (a + Z.of_nat n) s'.
Proof.
  induction n as [|n IH]; intros a s s' Hs Hbody H; simpl in H.
  - injection H as <-. replace (a + Z.of_nat 0) with a by lia. exact Hs.
  - destruct (body a s) as [s1|] eqn:H1; [|discriminate]. simpl in H.
    replace (a + Z.of_nat (S n)) with ((a + 1) + Z.of_nat n) by lia.
    apply (IH (a + 1) s1 s');
      [apply (Hbody a s s1); [lia|exact Hs|exact H1]
      |intros l x x' Hl; apply Hbody; lia|exact H].
Qed.

Lemma at_lookup {T : Type} (v : list T) (i : Z) (x : T) :
  at_ v i = Some x -> 0 <= i /\ v !! Z.to_nat i = Some x.
Proof.
  unfold at_. destruct (0 <=? i) eqn:E; [|discriminate].
  intros H. split; [lia|exact H].
Qed.

(** The first loop of [fill_pyramid]. *)
Lemma resize_loop (s : Tracker) (img0 : list PyramidLevel)
    (body : Z -> list PyramidLevel -> option (list PyramidLevel)) :
  (forall level imgs,
     body level imgs
     = (level_width ← level_dim (width s) level;
        level_height ← level_dim (height s) level;
        src ← at_ imgs (level - 1);
        dst ← at_ imgs level;
        assign imgs level
          (mkPyramidLevel
             (imresize_CUDA (globals (dev s)) (gray src) (gray dst)
                (2 * level_width) (2 * level_height)
                level_width level_height 1 false)
             (imresize_CUDA (globals (dev s)) (depth src) (depth dst)
                (2 * level_width) (2 * level_height)
                level_width level_height 1 true)
             (gray_dx dst) (gray_dy dst)))) ->
  forall (n : nat) (img1 : list PyramidLevel),
    for_up n 1 body img0 = Some img1 ->
    (forall l : nat, (1 <= l <= n)%nat -> level_resized s img0 img1 l)
    /\ img1 !! 0%nat = img0 !! 0%nat
    /\ (forall l : nat,
          gray_dx <$> img1 !! l = gray_dx <$> img0 !! l
          /\ gray_dy <$> img1 !! l = gray_dy <$> img0 !! l).
Proof.
  intros Hbody n img1 H.
  pose proof (for_up_indexed
    (fun a imgs =>
       (forall l : nat, (1 <= l)%nat -> Z.of_nat l < a ->
          level_resized s img0 imgs l)
       /\ (forall l : nat, a <= Z.of_nat l -> imgs !! l = img0 !! l)
       /\ imgs !! 0%nat = img0 !! 0%nat
       /\ (forall l : nat,
             gray_dx <$> imgs !! l = gray_dx <$> img0 !! l
             /\ gray_dy <$> imgs !! l = gray_dy <$> img0 !! l))
    body n 1 img0 img1) as Hloop.
  destruct Hloop as (R1 & _ & R3 & R4); [| |exact H|].
  - split; [intros l Hl1 Hl2; lia|]. repeat split; reflexivity.
  - intros a x x' Ha (P1 & P2 & P3 & P4) Hstep.
    rewrite Hbody in Hstep.
    apply bind_Some in Hstep as (lw & Hw & Hstep).
    apply bind_Some in Hstep as (lh & Hh & Hstep).
    apply bind_Some in Hstep as (src & Hsrc & Hstep).
    apply bind_Some in Hstep as (dst & Hdst & Hstep).
    apply assign_inv in Hstep as [Hr ->].
    apply at_lookup in Hsrc as [_ Hsrc].
    apply at_lookup in Hdst as [_ Hdst].
    split; [|split; [|split]].
    + intros l Hl1 Hl2.
      destruct (Nat.eq_dec l (Z.to_nat a)) as [->|Hne].
      * exists src, (mkPyramidLevel
                      (imresize_CUDA (globals (dev s)) (gray src) (gray dst)
                         (2 * lw) (2 * lh) lw lh 1 false)
                      (imresize_CUDA (globals (dev s)) (depth src)
                         (depth dst) (2 * lw) (2 * lh) lw lh 1 true)
                      (gray_dx dst) (gray_dy dst)), dst, lw, lh.
        rewrite list_lookup_insert_ne by lia.
        rewrite list_lookup_insert_eq by lia.
        replace (Z.to_nat a - 1)%nat with (Z.to_nat (a - 1)) by lia.
        rewrite <- (P2 (Z.to_nat a)) by lia.
        replace (Z.of_nat (Z.to_nat a)) with a by lia.
        repeat split; try assumption; reflexivity.
      * destruct (P1 l Hl1) as (below & here & old & lw' & lh' & Q);
          [lia|].
        exists below, here, old, lw', lh'.
        rewrite !list_lookup_insert_ne by lia. exact Q.
    + intros l Hl. rewrite list_lookup_insert_ne by lia. apply P2. lia.
    + rewrite list_lookup_insert_ne by lia. exact P3.
    + intros l.
      destruct (Nat.eq_dec l (Z.to_nat a)) as [->|Hne].
      * rewrite list_lookup_insert_eq by lia.
        rewrite <- (P2 (Z.to_nat a)) by lia. rewrite Hdst.
        split; reflexivity.
      * rewrite list_lookup_insert_ne by lia. apply P4.
  - split; [|split; [exact R3|exact R4]].
    intros l Hl. apply R1; lia.
Qed.

(** The second loop of [fill_pyramid]. *)
Lemma derivative_loop (s : Tracker) (img1 : list PyramidLevel)
    (body : Z -> list PyramidLevel -> option (list PyramidLevel)) :
  (forall level imgs,
     body level imgs
     = (level_width ← level_dim (width s) level;
        level_height ← level_dim (height s) level;
        img ← at_ imgs level;
        let '(dx, dy) :=
          image_derivatives_CUDA (globals (dev s)) (gray img) (gray_dx img)
            (gray_dy img) level_width level_height in
        assign imgs level (mkPyramidLevel (gray img) (depth img) dx dy))) ->
  forall (n : nat) (cur : list PyramidLevel),
    for_up n 0 body img1 = Some cur ->
    (forall l : nat, (l < n)%nat -> level_differentiated s img1 cur l)
    /\ (forall l : nat,
          gray <$> cur !! l = gray <$> img1 !! l
          /\ depth <$> cur !! l = depth <$> img1 !! l).
Proof.
  intros Hbody n cur H.
  pose proof (for_up_indexed
    (fun a imgs =>
       (forall l : nat, Z.of_nat l < a ->
          level_differentiated s img1 imgs l)
       /\ (forall l : nat, a <= Z.of_nat l -> imgs !! l = img1 !! l)
       /\ (forall l : nat,
             gray <$> imgs !! l = gray <$> img1 !! l
             /\ depth <$> imgs !! l = depth <$> img1 !! l))
    body n 0 img1 cur) as Hloop.
  destruct Hloop as (R1 & _ & R3); [| |exact H|].
  - split; [intros l Hl; lia|]. repeat split; reflexivity.
  - intros a x x' Ha (P1 & P2 & P3) Hstep.
    rewrite Hbody in Hstep.
    apply bind_Some in Hstep as (lw & Hw & Hstep).
    apply bind_Some in Hstep as (lh & Hh & Hstep).
    apply bind_Some in Hstep as (img & Himg & Hstep).
    destruct (image_derivatives_CUDA _ _ _ _ _ _) as [dx dy] eqn:Hd.
    apply assign_inv in Hstep as [Hr ->].
    apply at_lookup in Himg as [_ Himg].
    split; [|split].
    + intros l Hl.
      destruct (Nat.eq_dec l (Z.to_nat a)) as [->|Hne].
      * exists (mkPyramidLevel (gray img) (depth img) dx dy), img, lw, lh.
        rewrite list_lookup_insert_eq by lia.
        rewrite <- (P2 (Z.to_nat a)) by lia.
        replace (Z.of_nat (Z.to_nat a)) with a by lia.
        cbn [gray gray_dx gray_dy]. rewrite Hd.
        repeat split; try assumption; reflexivity.
      * destruct (P1 l) as (here & old & lw' & lh' & Q); [lia|].
        exists here, old, lw', lh'.
        rewrite list_lookup_insert_ne by lia. exact Q.
    + intros l Hl. rewrite list_lookup_insert_ne by lia. apply P2. lia.
    + intros l.
      destruct (Nat.eq_dec l (Z.to_nat a)) as [->|Hne].
      * rewrite list_lookup_insert_eq by lia.
        destruct (P3 (Z.to_nat a)) as [Q1 Q2].
        rewrite <- Q1, <- Q2, Himg. split; reflexivity.
      * rewrite list_lookup_insert_ne by lia. apply P3.
  - split; [|exact R3]. intros l Hl. apply R1. lia.
Qed.

End PyramidLevels.

(** X17: in the pyramid that [fill_pyramid] returns, every level from 1
    to [maxLevel] holds the gray and depth rasters that [imresize_CUDA]
    computes from the rasters of the level below in the same pyramid
    (the depth with [isDepthImage] set), with the source size given as
    twice the size of the level, and every level from 0 to [maxLevel]
    holds the gradients that [image_derivatives_CUDA] computes from its
    own gray raster. *)
Theorem fill_pyramid_levels_are_consistent `{Ext : External}
    (s : Tracker) (d_img cur : list PyramidLevel) (grayImg depthImg : Buf) :
  fill_pyramid s d_img grayImg depthImg = Some cur ->
  (forall l : nat, (1 <= l)%nat -> Z.of_nat l <= maxLevel s ->
     level_resized s d_img cur l)
  /\ (forall l : nat, Z.of_nat l <= maxLevel s ->
        level_differentiated s d_img cur l).
Proof.
  intros H. unfold fill_pyramid in H. cbv zeta in H.
  apply bind_Some in H as (base & Hbase & H).
  apply bind_Some in H as (img0 & H0 & H).
  apply bind_Some in H as (img1 & H1 & H2).
  apply assign_inv in H0 as [Hr0 ->].
  apply at_lookup in Hbase as [_ Hbase].
  unfold for_range in H1, H2.
  apply (resize_loop s _ _ (fun _ _ => eq_refl)) in H1 as (A1 & A2 & A3).
  apply (derivative_loop s _ _ (fun _ _ => eq_refl)) in H2 as (B1 & B2).
  assert (Hold : forall l : nat,
            gray_dx <$> img1 !! l = gray_dx <$> d_img !! l
            /\ gray_dy <$> img1 !! l = gray_dy <$> d_img !! l).
  { intros l. destruct (A3 l) as [E1 E2]. rewrite E1, E2.
    destruct (Nat.eq_dec l (Z.to_nat 0)) as [->|Hne].
    - rewrite list_lookup_insert_eq by lia.
      rewrite Hbase. split; reflexivity.
    - rewrite list_lookup_insert_ne by lia. split; reflexivity. }
  split.
  - intros l Hl1 Hl2.
    destruct (A1 l) as (below & here & old & lw & lh & Q1 & Q2 & Q3 & Q4
                        & Q5 & Q6 & Q7); [lia|].
    rewrite list_lookup_insert_ne in Q3 by lia.
    destruct (B2 (l - 1)%nat) as [G1 D1]. destruct (B2 l) as [G2 D2].
    rewrite Q1 in G1, D1. rewrite Q2 in G2, D2.
    destruct (cur !! (l - 1)%nat) as [below'|] eqn:Eb; [|discriminate].
    destruct (cur !! l) as [here'|] eqn:Eh; [|discriminate].
    cbn in G1, D1, G2, D2.
    injection G1 as G1. injection D1 as D1.
    injection G2 as G2. injection D2 as D2.
    exists below', here', old, lw, lh.
    rewrite G1, D1, G2, D2. auto 8.
  - intros l Hl.
    destruct (B1 l) as (here & old & lw & lh & Q1 & Q2 & Q3 & Q4 & Q5);
      [lia|].
    destruct (Hold l) as [E1 E2]. rewrite Q2 in E1, E2.
    destruct (d_img !! l) as [old'|] eqn:Eo; [|discriminate].
    cbn in E1, E2. injection E1 as E1. injection E2 as E2.
    exists here, old', lw, lh. rewrite <- E1, <- E2. auto.
Qed.

Section TwoLevelPyramid.

#[local] Existing Instance Demo.hand_written.

Lemma fill_pyramid_levels_are_consistent_witness :
  exists (s0 : Tracker) (cur : list PyramidLevel),
    Tracker_new (Demo.pixel 1 ++ Demo.pixel 2 ++ Demo.pixel 3 ++ Demo.pixel 4)
      (Demo.pixel 1 ++ Demo.pixel 1 ++ Demo.pixel 1 ++ Demo.pixel 1)
      2 2 Demo.K 0 1 false 20 GAUSS_NEWTON = Some s0
    /\ fill_pyramid s0 (d_cur s0)
         (Demo.pixel 5 ++ Demo.pixel 6 ++ Demo.pixel 7 ++ Demo.pixel 8)
         (Demo.pixel 1 ++ Demo.pixel 1 ++ Demo.pixel 1 ++ Demo.pixel 1)
       = Some cur
    /\ level_resized s0 (d_cur s0) cur 1
    /\ level_differentiated s0 (d_cur s0) cur 0
    /\ level_differentiated s0 (d_cur s0) cur 1.
Proof.
  do 2 eexists.
  split; [vm_compute; reflexivity|].
  match goal with
  | |- ?P /\ _ => assert (H : P) by (vm_compute; reflexivity)
  end.
  split; [exact H|].
  destruct (fill_pyramid_levels_are_consistent _ _ _ _ _ H) as [P1 P2].
  split; [apply P1; [lia|vm_compute; intros E; discriminate E]|].
  split; apply P2; vm_compute; intros E; discriminate E.
Defined.

End TwoLevelPyramid.

(** ** The intrinsics in constant memory *)

Section ConstantMemory.

Context `{Ext : External}.

(** One copy of nine floats to [dst + offset], element by element. *)
Lemma cudaMemcpy_at_lookup (dst src : Buf) (o : nat) (j : nat) :
  (o + 9 <= length dst)%nat -> length src = 9%nat ->
  cudaMemcpy_at dst (Z.of_nat o) src 9 !! j
  = if decide (j < o)%nat then dst !! j
    else if decide (j < o + 9)%nat then src !! (j - o)%nat
         else dst !! j.
Proof.
  intros Hd Hs. unfold cudaMemcpy_at, cudaMemcpy.
  rewrite Nat2Z.id. change (Z.to_nat 9) with 9%nat.
  destruct (decide (j < o)%nat) as [H1|H1].
  - rewrite lookup_app_l by (rewrite length_take; lia).
    apply lookup_take_lt. exact H1.
  - rewrite lookup_app_r by (rewrite length_take; lia).
    rewrite length_take_le by lia.
    destruct (decide (j < o + 9)%nat) as [H2|H2].
    + rewrite lookup_app_l by (rewrite length_take; lia).
      apply lookup_take_lt. lia.
    + rewrite lookup_app_r by (rewrite length_take; lia).
      rewrite length_take_le by lia.
      rewrite !lookup_drop. f_equal. lia.
Qed.

Lemma cudaMemcpy_at_length (dst src : Buf) (o : nat) :
  (o + 9 <= length dst)%nat -> length src = 9%nat ->
  length (cudaMemcpy_at dst (Z.of_nat o) src 9) = length dst.
Proof.
  intros Hd Hs. unfold cudaMemcpy_at, cudaMemcpy.
  rewrite Nat2Z.id. change (Z.to_nat 9) with 9%nat.
  rewrite !length_app, !length_take, !length_drop. lia.
Qed.

Lemma slots_filled_next (Ks : list Matrix3f) (c0 c : Buf) (a : nat)
    (Ka : Matrix3f) :
  slots_filled Ks c0 c a ->
  Ks !! a = Some Ka -> length Ka = 9%nat ->
  (9 * a + 9 <= length c0)%nat ->
  slots_filled Ks c0 (cudaMemcpy_at c (9 * Z.of_nat a) Ka 9) (S a).
Proof.
  intros [Hlen Hc] HK HKa Hroom.
  replace (9 * Z.of_nat a) with (Z.of_nat (9 * a)) by lia.
  split.
  - rewrite cudaMemcpy_at_length by lia. exact Hlen.
  - intros j. rewrite cudaMemcpy_at_lookup by lia.
    destruct (decide (j < 9 * a)%nat) as [H1|H1].
    + rewrite Hc. rewrite decide_True by exact H1.
      rewrite decide_True by lia. reflexivity.
    + destruct (decide (j < 9 * a + 9)%nat) as [H2|H2].
      * rewrite decide_True by lia.
        assert (Hq : (j / 9 = a)%nat /\ (j mod 9 = j - 9 * a)%nat).
        { pose proof (Nat.div_mod_eq j 9).
          pose proof (Nat.mod_upper_bound j 9). nia. }
        destruct Hq as [-> ->]. rewrite HK. reflexivity.
      * rewrite decide_False by lia. rewrite Hc.
        rewrite decide_False by exact H1. reflexivity.
Qed.

Lemma slots_filled_slot (Ks : list Matrix3f) (c0 c : Buf) (a l : nat)
    (Kl : Matrix3f) :
  slots_filled Ks c0 c a -> (l < a)%nat ->
  Ks !! l = Some Kl -> length Kl = 9%nat ->
  take 9 (drop (9 * l) c) = Kl.
Proof.
  intros [_ Hc] Hl HK HKl. apply list_eq. intros i.
  rewrite lookup_take.
  destruct (decide (i < 9)%nat) as [Hi|Hi].
  - rewrite lookup_drop, Hc. rewrite decide_True by lia.
    assert (Hq : ((9 * l + i) / 9 = l)%nat /\ ((9 * l + i) mod 9 = i)%nat).
    { pose proof (Nat.div_mod_eq (9 * l + i) 9).
      pose proof (Nat.mod_upper_bound (9 * l + i) 9). nia. }
    destruct Hq as [-> ->]. rewrite HK. reflexivity.
  - symmetry. apply lookup_ge_None. lia.
Qed.

End ConstantMemory.

Section IntrinsicsUpload.

Context `{Ext : External}.

Lemma load_K_to_device_slots (s s' : Tracker) :
  load_K_to_device s = Some s' ->
  0 <= maxLevel s ->
  Forall (fun Kl : Matrix3f => length Kl = 9%nat) (K_pyr s) ->
  (9 * Z.to_nat (maxLevel s + 1)
   <= length (const_K_pyr (globals (dev s))))%nat ->
  exists c,
    s' = set_dev (set_globals
           (mkGlobals c (const_RK_inv (globals (dev s)))
              (const_translation (globals (dev s)))
              (texRef_grayImg (globals (dev s)))
              (texRef_gray_dx (globals (dev s)))
              (texRef_gray_dy (globals (dev s)))) (dev s)) s
    /\ slots_filled (K_pyr s) (const_K_pyr (globals (dev s))) c
         (Z.to_nat (maxLevel s + 1)).
Proof.
  unfold load_K_to_device, for_range. intros H HL HK Hroom.
  match type of H with
  | for_up ?n 0 ?body s = _ =>
  pose proof (for_up_indexed
    (fun a x =>
       exists c,
         x = set_dev (set_globals
               (mkGlobals c (const_RK_inv (globals (dev s)))
                  (const_translation (globals (dev s)))
                  (texRef_grayImg (globals (dev s)))
                  (texRef_gray_dx (globals (dev s)))
                  (texRef_gray_dy (globals (dev s)))) (dev s)) s
         /\ slots_filled (K_pyr s) (const_K_pyr (globals (dev s))) c
              (Z.to_nat a))
    body n 0 s s') as Hloop
  end.
  destruct Hloop as (c & E & Hc); [| |exact H|].
  - exists (const_K_pyr (globals (dev s))). split.
    + destruct s as [? ? ? ? ? ? ? ? ? ? ? ? ? ? ? ? ? ? ? ? ? ? [? ? ? ? ? ? ? ? ? ? ? ? ? ? ? ? [] ?]].
      reflexivity.
    + split; [reflexivity|]. intros j. rewrite decide_False by lia.
      reflexivity.
  - intros a x x' Ha (c & -> & Hc) Hstep.
    apply bind_Some in Hstep as (Ka & HKa & Hstep).
    injection Hstep as <-.
    replace (K_pyr (set_dev _ s)) with (K_pyr s) in HKa
      by (destruct s; reflexivity).
    apply at_lookup in HKa as [_ HKa].
    assert (Hlen : length Ka = 9%nat).
    { rewrite List.Forall_forall in HK. apply HK.
      apply list_elem_of_In. apply list_elem_of_lookup. eauto. }
    exists (cudaMemcpy_at c (9 * a) Ka 9). split.
    + destruct s as [? ? ? ? ? ? ? ? ? ? ? ? ? ? ? ? ? ? ? ? ? ? [? ? ? ? ? ? ? ? ? ? ? ? ? ? ? ? [] ?]].
      reflexivity.
    + replace (Z.to_nat (a + 1)) with (S (Z.to_nat a)) by lia.
      replace (9 * a) with (9 * Z.of_nat (Z.to_nat a)) by lia.
      apply slots_filled_next; [exact Hc|exact HKa|exact Hlen|lia].
  - exists c. split; [exact E|].
    replace (Z.to_nat (maxLevel s + 1))
      with (Z.to_nat (0 + Z.of_nat (Z.to_nat (maxLevel s - 0 + 1))))
      by lia.
    exact Hc.
Qed.

End IntrinsicsUpload.

(** X18: when every matrix of [K_pyr] has nine entries and the symbol
    [const_K_pyr] has room for [9 * (maxLevel + 1)] floats,
    [load_K_to_device] returns with the nine floats of [K_pyr[l]] at
    offset [9 * l] of the symbol for every level [l], the rest of the
    symbol and the other globals being as before. *)
Theorem load_K_to_device_fills_slots `{Ext : External} (s : Tracker) :
  0 <= maxLevel s ->
  length (K_pyr s) = Z.to_nat (maxLevel s + 1) ->
  Forall (fun Kl : Matrix3f => length Kl = 9%nat) (K_pyr s) ->
  (9 * Z.to_nat (maxLevel s + 1)
   <= length (const_K_pyr (globals (dev s))))%nat ->
  exists s',
    load_K_to_device s = Some s'
    /\ length (const_K_pyr (globals (dev s')))
       = length (const_K_pyr (globals (dev s)))
    /\ (forall (l : nat) (Kl : Matrix3f),
          K_pyr s !! l = Some Kl ->
          take 9 (drop (9 * l) (const_K_pyr (globals (dev s')))) = Kl)
    /\ drop (9 * Z.to_nat (maxLevel s + 1))
         (const_K_pyr (globals (dev s')))
       = drop (9 * Z.to_nat (maxLevel s + 1))
           (const_K_pyr (globals (dev s)))
    /\ (const_RK_inv (globals (dev s')),
        const_translation (globals (dev s')))
       = (const_RK_inv (globals (dev s)),
          const_translation (globals (dev s)))
    /\ texture_parameters (globals (dev s'))
       = texture_parameters (globals (dev s))
    /\ texture_bindings (globals (dev s'))
       = texture_bindings (globals (dev s))
    /\ K_pyr s' = K_pyr s.
Proof.
  intros HL LK HK Hroom.
  destruct (load_K_to_device_returns s HL LK) as (g & H).
  pose proof H as Hs.
  apply load_K_to_device_slots in Hs as (c & E & Hlen & Hc);
    [|exact HL|exact HK|exact Hroom].
  eexists. split; [exact H|]. rewrite E.
  assert (Eg : globals (dev (set_dev (set_globals
                 (mkGlobals c (const_RK_inv (globals (dev s)))
                    (const_translation (globals (dev s)))
                    (texRef_grayImg (globals (dev s)))
                    (texRef_gray_dx (globals (dev s)))
                    (texRef_gray_dy (globals (dev s)))) (dev s)) s))
               = mkGlobals c (const_RK_inv (globals (dev s)))
                   (const_translation (globals (dev s)))
                   (texRef_grayImg (globals (dev s)))
                   (texRef_gray_dx (globals (dev s)))
                   (texRef_gray_dy (globals (dev s))))
    by (destruct s as [? ? ? ? ? ? ? ? ? ? ? ? ? ? ? ? ? ? ? ? ? ? []];
        reflexivity).
  rewrite Eg. cbn [const_K_pyr const_RK_inv const_translation].
  split; [exact Hlen|]. split.
  - intros l Kl HKl.
    apply (slots_filled_slot (K_pyr s) (const_K_pyr (globals (dev s))) c
             (Z.to_nat (maxLevel s + 1)) l Kl);
      [split; assumption| |exact HKl|].
    + apply lookup_lt_Some in HKl. lia.
    + rewrite List.Forall_forall in HK. apply HK.
      apply list_elem_of_In. apply list_elem_of_lookup. eauto.
  - split.
    + apply list_eq. intros i. rewrite !lookup_drop, Hc.
      rewrite decide_False by lia. reflexivity.
    + repeat split; try reflexivity.
Qed.

Section OnePixelUpload.

#[local] Existing Instance Demo.hand_written.

Lemma load_K_to_device_fills_slots_witness :
  exists s0 : Tracker,
    Tracker_new (Demo.pixel 1) (Demo.pixel 2) 2 2 Demo.K 0 1 true 20
      GAUSS_NEWTON = Some s0
    /\ 0 <= maxLevel s0
    /\ length (K_pyr s0) = Z.to_nat (maxLevel s0 + 1)
    /\ Forall (fun Kl : Matrix3f => length Kl = 9%nat) (K_pyr s0)
    /\ (9 * Z.to_nat (maxLevel s0 + 1)
        <= length (const_K_pyr (globals (dev s0))))%nat
    /\ exists s',
         load_K_to_device s0 = Some s'
         /\ forall (l : nat) (Kl : Matrix3f),
              K_pyr s0 !! l = Some Kl ->
              take 9 (drop (9 * l) (const_K_pyr (globals (dev s')))) = Kl.
Proof.
  eexists. split; [vm_compute; reflexivity|].
  match goal with
  | |- ?P /\ ?Q /\ ?R /\ ?T /\ _ =>
      assert (H1 : P) by (vm_compute; intros E; discriminate E);
      assert (H2 : Q) by (vm_compute; reflexivity);
      assert (H3 : R) by (repeat constructor);
      assert (H4 : T) by (vm_compute; repeat constructor)
  end.
  split; [exact H1|]. split; [exact H2|]. split; [exact H3|].
  split; [exact H4|].
  destruct (load_K_to_device_fills_slots _ H1 H2 H3 H4)
    as (s' & H & _ & Hslots & _).
  exists s'. auto.
Defined.

End OnePixelUpload.

(** ** The number of temporary allocations *)

Section AllocationCount.

Context `{Ext : External}.

Lemma mallocs_block (h : list CudaCall) (m1 m2 : Z) :
  mallocs (h ++ [cudaMalloc m1; cudaMalloc m2; cudaFree; cudaFree])
  = (mallocs h + 2)%nat.
Proof. rewrite mallocs_app. reflexivity. Qed.

Lemma calculate_error_mallocs (level lw lh : Z) (s s' : Tracker) :
  calculate_error level lw lh s = Some s' ->
  mallocs (calls (dev s'))
  = (mallocs (calls (dev s)) + (if ENABLE_CUBLAS then 0 else 2))%nat.
Proof.
  intros H. apply calculate_error_inv in H as (d & -> & T & _ & X).
  replace (calls (dev (set_dev d s))) with (calls d)
    by (destruct s; reflexivity).
  destruct ENABLE_CUBLAS eqn:Hc.
  - destruct T as (extra & -> & _ & E).
    first [rewrite (E Hc)|rewrite (E eq_refl)]. rewrite app_nil_r. lia.
  - first [rewrite (X Hc)|rewrite (X eq_refl)]. apply mallocs_block.
Qed.

Lemma calculate_A_calls (level lw lh : Z) (s s' : Tracker) :
  calculate_A level lw lh s = Some s' -> calls (dev s') = calls (dev s).
Proof.
  unfold calculate_A. intros H.
  destruct ENABLE_CUBLAS eqn:Hc.
  - injection H as <-.
    destruct (useTDistWeights s);
      destruct s as [? ? ? ? ? ? ? ? ? ? ? ? ? ? ? ? ? ? ? ? ? ? []];
      reflexivity.
  - match type of H with
    | context [reduce_A_passes ?f ?g ?a ?b ?c ?n] =>
        destruct (reduce_A_passes f g a b c n) as [[a1 a2]|]; [|discriminate]
    end.
    simpl in H. injection H as <-.
    destruct s as [? ? ? ? ? ? ? ? ? ? ? ? ? ? ? ? ? ? ? ? ? ? []].
    reflexivity.
Qed.

Lemma bstore_calls (p : BPtr) (v : Buf) (d : Device) :
  calls (bstore p v d) = calls d.
Proof. destruct p, d; reflexivity. Qed.

Lemma reduce_b_passes_calls :
  forall (fuel : nat) (p q : BPtr) (size nz : Z) (d : Device)
         (p' q' : BPtr) (d' : Device),
    reduce_b_passes fuel p q size nz d = Some (p', q', d') ->
    calls d' = calls d.
Proof.
  induction fuel as [|fuel IH]; intros p q size nz d p' q' d' H;
    [discriminate|].
  cbn [reduce_b_passes] in H. cbv zeta in H.
  destruct (nz =? 1) eqn:E.
  - injection H as _ _ <-. destruct d; reflexivity.
  - apply IH in H. rewrite H. apply bstore_calls.
Qed.

Lemma calculate_b_calls (level lw lh : Z) (s s' : Tracker) :
  calculate_b level lw lh s = Some s' -> calls (dev s') = calls (dev s).
Proof.
  unfold calculate_b. intros H.
  destruct ENABLE_CUBLAS eqn:Hc.
  - injection H as <-.
    destruct (negb (useTDistWeights s));
      destruct s as [? ? ? ? ? ? ? ? ? ? ? ? ? ? ? ? ? ? ? ? ? ? []];
      reflexivity.
  - cbv zeta in H.
    apply bind_Some in H as ([[p1 q1] d1] & Hr & H).
    injection H as <-.
    apply reduce_b_passes_calls in Hr. rewrite bstore_calls in Hr.
    transitivity (calls d1); [destruct s; reflexivity|exact Hr].
Qed.

Lemma variance_pass_mallocs (lw lh : Z) (v v' : float) (d d' : Device) :
  variance_pass lw lh v d = Some (v', d') ->
  mallocs (calls d')
  = (mallocs (calls d) + (if ENABLE_CUBLAS then 0 else 2))%nat.
Proof.
  unfold variance_pass. cbv zeta. intros H.
  apply bind_Some in H as ([sum d1] & Hr & H).
  injection H as _ <-.
  destruct ENABLE_CUBLAS eqn:Hc.
  - injection Hr as _ <-. destruct d; cbn. lia.
  - apply reduce_array_GPU_inv in Hr as (_ & _ & _ & E); [|exact Hc].
    rewrite E. rewrite mallocs_block. destruct d; reflexivity.
Qed.

Lemma tdist_passes_mallocs :
  forall (more : nat) (lw lh : Z) (v : float) (its : Z) (d : Device)
         (vi v' : float) (its' : Z) (d' : Device),
    tdist_passes more lw lh v its d = Some (vi, v', its', d') ->
    Z.of_nat (mallocs (calls d'))
    = Z.of_nat (mallocs (calls d))
      + (if ENABLE_CUBLAS then 0 else 2 * (its' - its)).
Proof.
  induction more as [|more IH]; intros lw lh v its d vi v' its' d' H;
    cbn [tdist_passes] in H;
    (destruct (variance_pass lw lh v d) as [[v1 d1]|] eqn:Hp;
       [|discriminate]);
    cbn [mbind option_bind] in H; cbv zeta in H;
    apply variance_pass_mallocs in Hp;
    destruct (variance_test v1 v && (its + 1 <? 5)) eqn:Ht.
  - discriminate.
  - injection H as <- <- <- <-. rewrite Hp. destruct ENABLE_CUBLAS; lia.
  - apply IH in H. rewrite H, Hp. destruct ENABLE_CUBLAS; lia.
  - injection H as <- <- <- <-. rewrite Hp. destruct ENABLE_CUBLAS; lia.
Qed.

Lemma calculate_weights_mallocs (level lw lh : Z) (v v' : float)
    (useTDist : bool) (s s' : Tracker) :
  calculate_weights level lw lh v useTDist s = Some (s', v') ->
  (mallocs (calls (dev s)) <= mallocs (calls (dev s'))
   <= mallocs (calls (dev s))
      + (if ENABLE_CUBLAS then 0 else if useTDist then 10 else 0))%nat.
Proof.
  unfold calculate_weights. intros H.
  destruct useTDist; cbn [negb] in H; cbv iota zeta in H.
  - destruct (tdist_passes 4 lw lh v 0 (dev s)) as [[[[vi v1] its] d1]|] eqn:Hp;
      [|discriminate].
    cbn [mbind option_bind] in H. injection H as <- <-.
    pose proof (tdist_passes_bound _ _ _ _ _ _ _ _ _ _ Hp) as Hb.
    apply tdist_passes_mallocs in Hp.
    replace (calls (dev (set_dev _ s))) with (calls d1)
      by (destruct s, d1; reflexivity).
    destruct ENABLE_CUBLAS; lia.
  - injection H as <- <-.
    destruct s as [? ? ? ? ? ? ? ? ? ? ? ? ? ? ? ? ? ? ? ? ? ? []].
    cbn. destruct ENABLE_CUBLAS; lia.
Qed.

(** The allocations of one pass: two in [calculate_error] and two for
    each of the at most five scale passes, none with cuBLAS. *)
Lemma iteration_mallocs (level lw lh : Z) (v v' : float) (s s' : Tracker) :
  iteration level lw lh v s = Some (s', v') ->
  (mallocs (calls (dev s)) <= mallocs (calls (dev s'))
   <= mallocs (calls (dev s))
      + (if ENABLE_CUBLAS then 0
         else if useTDistWeights s then 12 else 2))%nat
  /\ (ENABLE_CUBLAS = false -> useTDistWeights s = false ->
      mallocs (calls (dev s')) = (mallocs (calls (dev s)) + 2)%nat).
Proof.
  unfold iteration. intros H.
  destruct (convertSE3ToT (xi s)) as [R' t'].
  cbv zeta in H.
  apply bind_Some in H as (K_inv & HK & H).
  apply bind_Some in H as (s1 & H1 & H).
  apply bind_Some in H as (s2 & H2 & H).
  apply bind_Some in H as (s3 & H3 & H).
  apply bind_Some in H as ([s4 v4] & H4 & H).
  apply bind_Some in H as (s5 & H5 & H).
  apply bind_Some in H as (s6 & H6 & H).
  injection H as <- <-.
  apply transform_points_inv in H1 as (d1 & -> & C1 & _).
  apply calculate_residuals_inv in H2 as (d2 & -> & C2 & _).
  destruct (calculate_jacobian_inv level lw lh
              (set_dev d2 (set_dev d1 (publish_pose
                 (set_RK_inv (mat3_mul (R (set_t t' (set_R R' s))) K_inv)
                    (set_t t' (set_R R' s)))))))
    as (d3 & E3 & C3 & _).
  rewrite E3 in H3.
  assert (E0 : calls d3 = calls (dev s)).
  { rewrite C3. cbn [dev set_dev]. rewrite C2. cbn [dev set_dev].
    rewrite C1. rewrite publish_pose_step. destruct s; reflexivity. }
  assert (EU : useTDistWeights s3 = useTDistWeights s).
  { apply calculate_error_inv in H3 as (d4 & -> & _).
    destruct s; reflexivity. }
  apply calculate_error_mallocs in H3.
  replace (calls (dev (set_dev d3 _))) with (calls d3) in H3 by reflexivity.
  rewrite E0 in H3.
  rewrite EU in H4. apply calculate_weights_mallocs in H4.
  apply calculate_A_calls in H5. apply calculate_b_calls in H6.
  match goal with
  | |- context [calls (dev ?f)] =>
      replace (calls (dev f)) with (calls (dev s6))
        by (destruct s6; reflexivity)
  end.
  rewrite H6, H5.
  split.
  - destruct ENABLE_CUBLAS; destruct (useTDistWeights s); lia.
  - intros Hc Hu. rewrite Hc in H3, H4. rewrite Hu in H4. lia.
Qed.

Lemma body_run_mallocs :
  forall (k : nat) (level lw lh : Z) (v v' : float) (s s' : Tracker),
    body_run k level lw lh v s = Some (s', v') ->
    useTDistWeights s' = useTDistWeights s
    /\ (mallocs (calls (dev s')) 
        <= mallocs (calls (dev s))
           + k * (if ENABLE_CUBLAS then 0
                  else if useTDistWeights s then 12 else 2))%nat
    /\ (ENABLE_CUBLAS = false -> useTDistWeights s = false ->
        mallocs (calls (dev s')) = (mallocs (calls (dev s)) + 2 * k)%nat).
Proof.
  induction k as [|k IH]; intros level lw lh v v' s s' H.
  - injection H as <- <-. repeat split; lia.
  - apply body_run_last in H as (sk & vk & Hk & Hi).
    apply IH in Hk as (EU & Hle & Heq).
    pose proof Hi as Hs. apply iteration_inv in Hs as (Es & _).
    assert (EU' : useTDistWeights s' = useTDistWeights sk).
    { unfold settings in Es. injection Es as _ _ _ _ _ _ E7 _. exact E7. }
    apply iteration_mallocs in Hi as [[_ Hi1] Hi2].
    rewrite EU in Hi1, Hi2.
    split; [congruence|]. split.
    + destruct ENABLE_CUBLAS; destruct (useTDistWeights s); lia.
    + intros Hc Hu. rewrite (Hi2 Hc Hu), (Heq Hc Hu). lia.
Qed.

Lemma process_level_mallocs_bound (level : Z) (s s' : Tracker) :
  process_level level s = Some s' ->
  (mallocs (calls (dev s'))
   <= mallocs (calls (dev s))
      + Z.to_nat (maxIterationsPerLevel s)
        * (if ENABLE_CUBLAS then 0
           else if useTDistWeights s then 12 else 2))%nat.
Proof.
  intros H.
  apply process_level_passes in H
    as (lw & lh & sb & sk & k & v & _ & _ & Hb & Hle & _ & Hrun & -> & _).
  apply bind_textures_inv in Hb as (_ & g & ->).
  apply body_run_mallocs in Hrun as (_ & Hm & _).
  destruct (unbind_textures_inv sk) as (g' & ->).
  destruct (set_globals_inv g s) as (_ & _ & _ & _ & _ & C1).
  destruct (set_globals_inv g' sk) as (_ & _ & _ & _ & _ & C2).
  cbv zeta in C1, C2. rewrite C2. rewrite C1 in Hm.
  replace (useTDistWeights (set_dev (set_globals g (dev s)) s))
    with (useTDistWeights s) in Hm by (destruct s; reflexivity).
  destruct ENABLE_CUBLAS; [lia|].
  destruct (useTDistWeights s); nia.
Qed.

Lemma process_levels_mallocs_bound :
  forall (levels : list Z) (s s' : Tracker),
    process_levels levels s = Some s' ->
    (mallocs (calls (dev s'))
     <= mallocs (calls (dev s))
        + length levels
          * (Z.to_nat (maxIterationsPerLevel s)
             * (if ENABLE_CUBLAS then 0
                else if useTDistWeights s then 12 else 2)))%nat.
Proof.
  induction levels as [|l levels IH]; intros s s' H.
  - injection H as <-. cbn. lia.
  - cbn [process_levels] in H.
    apply bind_Some in H as (s1 & H1 & H).
    pose proof H1 as Hs. apply process_level_settings in Hs as [Es _].
    assert (E : maxIterationsPerLevel s1 = maxIterationsPerLevel s
                /\ useTDistWeights s1 = useTDistWeights s).
    { unfold settings in Es. injection Es as _ E2 _ _ _ _ E7 _. auto. }
    destruct E as [En Eu].
    apply process_level_mallocs_bound in H1.
    apply IH in H. rewrite En, Eu in H. cbn [length]. lia.
Qed.

End AllocationCount.


Section OnePixelAllocationBound.

#[local] Existing Instance Demo.hand_written.


End OnePixelAllocationBound.

(** ** The sizes of neighbouring levels *)

Lemma level_dim_halves (dim level p q : Z) :
  0 <= dim -> 1 <= level ->
  level_dim dim (level - 1) = Some p ->
  level_dim dim level = Some q ->
  0 <= q /\ q = Z.quot p 2.
Proof.
  intros Hd Hl Hp Hq.
  apply level_dim_inv in Hp as [Hlp ->].
  apply level_dim_inv in Hq as [Hlq ->].
  assert (Hpos : 0 < 2 ^ (level - 1)) by (apply Z.pow_pos_nonneg; lia).
  replace level with (level - 1 + 1) at 1 2 by lia.
  rewrite Z.pow_add_r by lia. change (2 ^ 1) with 2.
  rewrite <- Z.quot_quot by lia.
  split; [|reflexivity].
  apply Z.quot_pos; [|lia]. apply Z.quot_pos; lia.
Qed.


